(** * civitai_downloader: fetch / merge / download engine

    A shallow embedding of the paginated metadata fetchers, the merge step
    and the download worker of [civitai_downloader.py] and
    [civitai_collection_downloader.py], with the properties of the design
    document checked against it.

    Modelling conventions.
    - Python [str] values are [string]s of 8-bit characters; [isalpha] and
      [isdigit] are the ASCII classes.
    - A JSON object is a record.  A key that the scripts only read with
      [d.get(k)] and a test for truth or for [None] is an [option] field,
      a key holding [null] and a missing key being the same to them.  The
      two keys for which they are not the same, [createdAt] and [user] of
      an image, are three-valued.  The arrays [items] and [images] are
      arrays when present, and a 2xx answer of the API carries JSON of
      the TRPC shape ([result.data.json] an object).
    - The target directory is an association list from file names to file
      contents, in directory-listing order (the order [glob.glob] returns).
      [os.rename] has its POSIX meaning: an existing destination is
      replaced.
    - File names are within the limits of the file system: [open],
      [os.rename] and [os.remove] of an existing file go through.
    - The network is an oracle answering the n-th request; every request,
      [time.sleep] and file-system change is recorded, so that the number
      of attempts and the back-off delays are observable.  The body of a
      download is streamed: it arrives whole, or the stream breaks with a
      [RequestException] after some of it has been written.
    - [while True] loops take a fuel argument; [None] means the fuel ran
      out before the loop left.
    - An exception a function lets through is a result of its own:
      [get_images] ends by returning a list or with the [TypeError] of its
      final sort. *)

From Stdlib Require Import List String Ascii ZArith Lia Bool Arith.
From Stdlib Require Import DecimalString Permutation Sorted.
From Stdlib Require DecimalZ.
Import ListNotations.
Open Scope string_scope.
Open Scope Z_scope.

(** ** Python string primitives *)

Module Py.

(** [c.isalpha()], [c.isdigit()], [c.isspace()] on one character. *)
Definition isalpha (c : ascii) : bool :=
  let n := nat_of_ascii c in
  (((65 <=? n) && (n <=? 90)) || ((97 <=? n) && (n <=? 122)))%nat.

Definition isdigit (c : ascii) : bool :=
  let n := nat_of_ascii c in ((48 <=? n) && (n <=? 57))%nat.

Definition isspace (c : ascii) : bool :=
  let n := nat_of_ascii c in
  ((n =? 32) || ((9 <=? n) && (n <=? 13)) || ((28 <=? n) && (n <=? 31)))%nat.

(** ["".join([c for c in s if p(c)])] *)
Fixpoint keep (p : ascii -> bool) (s : string) : string :=
  match s with
  | EmptyString => EmptyString
  | String c r => if p c then String c (keep p r) else keep p r
  end.

Fixpoint lstrip (s : string) : string :=
  match s with
  | EmptyString => EmptyString
  | String c r => if isspace c then lstrip r else s
  end.

Fixpoint rev_onto (s acc : string) : string :=
  match s with
  | EmptyString => acc
  | String c r => rev_onto r (String c acc)
  end.

Definition reverse (s : string) : string := rev_onto s EmptyString.

Definition rstrip (s : string) : string := reverse (lstrip (reverse s)).

(** [s.strip()] *)
Definition strip (s : string) : string := rstrip (lstrip s).

(** [s.split(c)] for a one-character separator: never the empty list. *)
Fixpoint split (c : ascii) (s : string) : list string :=
  match s with
  | EmptyString => [EmptyString]
  | String a r =>
      if Ascii.eqb a c then EmptyString :: split c r
      else match split c r with
           | h :: t => String a h :: t
           | [] => [String a EmptyString]
           end
  end.

(** [parts[-1]] and [parts[0]] of a split. *)
Definition last_part (l : list string) : string := List.last l EmptyString.
Definition first_part (l : list string) : string := List.hd EmptyString l.

(** [sep.join(parts)] *)
Definition join (sep : string) (parts : list string) : string :=
  String.concat sep parts.

(** [c in s] for a character, [needle in s] for a string. *)
Fixpoint has_char (c : ascii) (s : string) : bool :=
  match s with
  | EmptyString => false
  | String a r => Ascii.eqb a c || has_char c r
  end.

Fixpoint contains (needle hay : string) : bool :=
  String.prefix needle hay ||
  match hay with
  | EmptyString => false
  | String _ r => contains needle r
  end.

Definition startswith (s pre : string) : bool := String.prefix pre s.

Definition endswith (s suf : string) : bool :=
  String.prefix (reverse suf) (reverse s).

(** [s[:n]] *)
Fixpoint take (n : nat) (s : string) : string :=
  match n, s with
  | O, _ => EmptyString
  | S _, EmptyString => EmptyString
  | S k, String c r => String c (take k r)
  end.

(** [str(n)] for an integer. *)
Definition str (n : Z) : string := NilZero.string_of_int (Z.to_int n).

(** Truth value of an optional string: [None] and [""] are falsy. *)
Definition truthy (o : option string) : bool :=
  match o with
  | Some s => negb (String.eqb s EmptyString)
  | None => false
  end.

(** [o == lit] for an optional field against a string literal. *)
Definition is_lit (o : option string) (lit : string) : bool :=
  match o with
  | Some s => String.eqb s lit
  | None => false
  end.

End Py.

(** ** Items *)

(** What an object has under a key, for the keys where a missing key and
    a key holding [null] are not the same to the scripts. *)
Inductive keyed (A : Type) : Type :=
| Missing            (* the key is not in the object *)
| Null               (* the key holds [null] *)
| Val (a : A).

Arguments Missing {A}.
Arguments Null {A}.
Arguments Val {A} a.

(** [d.get(k)] *)
Definition get {A : Type} (v : keyed A) : option A :=
  match v with
  | Val a => Some a
  | _ => None
  end.

(** One element of the [items] array of [image.getInfinite], or of the
    [images] array of a post.  [user], when it holds an object, is given
    by the [username] of that object, [None] when it has none. *)
Record item : Type := mk_item {
  id : Z;
  url : option string;
  name : option string;
  type : option string;
  mimeType : option string;
  user : keyed (option string);
  userId : option Z;
  createdAt : keyed string;
  postId : option Z;
  postDate : option string
}.

(** ** File naming and URL canonicalisation, shared vocabulary *)

Definition base_host : string :=
  "https://image.civitai.com/xG1nkqKTMzGDvpLrqFT7WA/".

Definition name_char (c : ascii) : bool :=
  Py.isalpha c || Py.isdigit c ||
  Ascii.eqb c " " || Ascii.eqb c "-" || Ascii.eqb c "_".

Definition file_char (c : ascii) : bool :=
  name_char c || Ascii.eqb c ".".

(** ["".join([c for c in name if ...]).strip()] *)
Definition sanitize (s : string) : string := Py.strip (Py.keep name_char s).
Definition sanitize_filename (s : string) : string :=
  Py.strip (Py.keep file_char s).

(** The loop replacing every [width=...] path segment by [original=true]. *)
Definition rewrite_width (u : string) : string :=
  Py.join "/"
    (map (fun part => if Py.startswith part "width=" then "original=true"
                      else part)
         (Py.split "/" u)).

(** The branch taken for a full URL. *)
Definition full_url_original (u : string) : string :=
  if Py.contains "/width=" u then rewrite_width u else u.

(** Extension read off the last path segment, [dflt] when it has none. *)
Definition ext_from_url (u dflt : string) : string :=
  let seg := Py.last_part (Py.split "/" u) in
  if Py.has_char "." seg then
    let ext_part := Py.first_part (Py.split "?" seg) in
    if Py.has_char "." ext_part then Py.last_part (Py.split "." ext_part)
    else dflt
  else dflt.

(** [if len(filename) > 200: filename = f"{filename[:100]}_{img_id}.{ext}"] *)
Definition clamp_filename (filename : string) (img_id : Z) (ext : string)
  : string :=
  if (200 <? String.length filename)%nat
  then Py.take 100 filename ++ "_" ++ Py.str img_id ++ "." ++ ext
  else filename.

(** What [download_image] has computed when it reaches the duplicate check. *)
Record plan : Type := mk_plan {
  plan_url : string;        (* [url], as the API gave it *)
  original_url : string;    (* the canonical download URL *)
  ext : string;
  filename : string         (* the target path inside [output_dir] *)
}.

(** ** The target directory *)

Definition bytes : Type := list Byte.byte.

(** File name and contents, in directory-listing order. *)
Definition dir : Type := list (string * bytes).

Module Fs.

Fixpoint lookup (p : string) (d : dir) : option bytes :=
  match d with
  | [] => None
  | (n, b) :: r => if String.eqb n p then Some b else lookup p r
  end.

(** [os.path.exists(p)] *)
Definition exists_ (p : string) (d : dir) : bool :=
  match lookup p d with Some _ => true | None => false end.

(** [os.path.getsize(p)]; [None] is [FileNotFoundError]. *)
Definition getsize (p : string) (d : dir) : option nat :=
  option_map (@List.length Byte.byte) (lookup p d).

(** [os.path.exists(p) and os.path.getsize(p) > 0] *)
Definition valid (p : string) (d : dir) : bool :=
  match getsize p d with
  | Some n => (0 <? n)%nat
  | None => false
  end.

Fixpoint drop (p : string) (d : dir) : dir :=
  match d with
  | [] => []
  | (n, b) :: r => if String.eqb n p then drop p r else (n, b) :: drop p r
  end.

(** [os.remove(p)]; [None] is the [OSError] for a missing file. *)
Definition remove (p : string) (d : dir) : option dir :=
  if exists_ p d then Some (drop p d) else None.

Fixpoint move (src dst : string) (d : dir) : dir :=
  match d with
  | [] => []
  | (n, b) :: r =>
      if String.eqb n src then (dst, b) :: move src dst r
      else if String.eqb n dst then move src dst r
      else (n, b) :: move src dst r
  end.

(** [os.rename(src, dst)]: the entry keeps its place and its bytes, an
    existing [dst] is replaced; [None] is the [OSError] for a missing
    [src]. *)
Definition rename (src dst : string) (d : dir) : option dir :=
  if exists_ src d then Some (move src dst d) else None.

Fixpoint overwrite (p : string) (b : bytes) (d : dir) : dir :=
  match d with
  | [] => []
  | (n, c) :: r =>
      if String.eqb n p then (n, b) :: r else (n, c) :: overwrite p b r
  end.

(** [open(p, 'wb')], the chunks written, the file closed. *)
Definition write (p : string) (b : bytes) (d : dir) : dir :=
  if exists_ p d then overwrite p b d else (d ++ [(p, b)])%list.

End Fs.

(** [fnmatch] of a file name against [*_{img_id}.*]; [glob] leaves out the
    names that start with a dot, the pattern not starting with one. *)
Definition glob_match (img_id : Z) (fname : string) : bool :=
  negb (Py.startswith fname ".") &&
  Py.contains ("_" ++ Py.str img_id ++ ".") fname.

(** [glob.glob(os.path.join(output_dir, f"*_{img_id}.*"))] *)
Definition glob (img_id : Z) (d : dir) : list string :=
  filter (glob_match img_id) (map fst d).

(** ** Effects *)

(** The continuation token of a page: a JSON string or number. *)
Inductive cursor : Type :=
| CStr (s : string)
| CNum (n : Z).

Inductive event : Type :=
| Jitter                           (* [time.sleep(random.uniform(a, b))] *)
| Sleep (secs : Z)                 (* [time.sleep(secs)] *)
| Get (u : string)                 (* [requests.get(u, ...)] of a file *)
| Query (c : option cursor)        (* [requests.get] of one page *)
| Removed (p : string)             (* [os.remove(p)] went through *)
| Renamed (src dst : string)       (* [os.rename(src, dst)] went through *)
| Wrote (p : string).              (* the response body streamed to [p] *)

(** What [requests.get] does: a response, or a [RequestException] whose
    [str(e)] is [text].  [err_text] is the [str] of the [HTTPError] that
    [raise_for_status] raises for this response when its status is in
    [400..599]. *)
Inductive reply (A : Type) : Type :=
| Response (status : Z) (err_text : string) (payload : A)
| Failure (text : string).

Arguments Response {A} status err_text payload.
Arguments Failure {A} text.

(** What [r.iter_content(...)] delivers of a response fetched with
    [stream=True]: the whole body, or its first chunks [b] and then a
    [RequestException] whose [str(e)] is [text]. *)
Inductive stream : Type :=
| Whole (b : bytes)
| Cut (b : bytes) (text : string).

(** The download host: the answer to the n-th request, sent to URL [u]. *)
Definition server : Type := nat -> string -> reply stream.

Record world : Type := mk_world {
  files : dir;          (* the target directory *)
  sent : nat;           (* requests made so far *)
  log : list event      (* everything done so far, oldest first *)
}.

Definition emit (e : event) (w : world) : world :=
  mk_world (files w) (sent w) (log w ++ [e])%list.

Definition set_files (d : dir) (w : world) : world :=
  mk_world d (sent w) (log w).

Definition request (srv : server) (u : string) (w : world)
  : reply stream * world :=
  (srv (sent w) u, mk_world (files w) (S (sent w)) (log w ++ [Get u])%list).

Definition do_remove (p : string) (w : world) : world :=
  match Fs.remove p (files w) with
  | Some d => emit (Removed p) (set_files d w)
  | None => w
  end.

Definition do_rename (src dst : string) (w : world) : world :=
  match Fs.rename src dst (files w) with
  | Some d => emit (Renamed src dst) (set_files d w)
  | None => w
  end.

Definition do_write (p : string) (b : bytes) (w : world) : world :=
  emit (Wrote p) (set_files (Fs.write p b (files w)) w).

(** [r.raise_for_status()] raises for these statuses. *)
Definition is_error_status (s : Z) : bool := (400 <=? s) && (s <? 600).

(** One pass of a [for attempt in range(n)] body: it leaves the loop with
    a value ([return] or [break]), or goes on to the next attempt. *)
Inductive outcome (A : Type) : Type :=
| Leave (a : A) (w : world)
| Next (w : world).

Arguments Leave {A} a w.
Arguments Next {A} w.

(** [for attempt in range(...)]; [None] when the loop runs to its end. *)
Fixpoint for_attempts {A : Type} (body : Z -> world -> outcome A)
  (attempts : list Z) (w : world) : option A * world :=
  match attempts with
  | [] => (None, w)
  | a :: rest =>
      match body a w with
      | Leave v w' => (Some v, w')
      | Next w' => for_attempts body rest w'
      end
  end.

(** The [return False] that follows a retry loop run to its end. *)
Definition or_failed (r : option bool * world) : bool * world :=
  match r with
  | (Some b, w) => (b, w)
  | (None, w) => (false, w)
  end.

(** [range(n)] *)
Definition range (n : nat) : list Z := map Z.of_nat (seq 0 n).

(** The [except requests.exceptions.RequestException] clause of both
    download loops. *)
Definition on_request_exception (text : string) (attempt : Z) (w : world)
  : world :=
  if Py.contains "429" text then emit (Sleep ((attempt + 1) * 10)) w
  else emit (Sleep 5) w.

(** ** Pages of metadata *)

(** One element of the [items] array of [post.getInfinite]. *)
Record post : Type := mk_post {
  post_id : option Z;
  post_userId : option Z;
  post_createdAt : option string;
  post_publishedAt : option string;
  post_images : list item
}.

(** [result.data.json] of a TRPC answer; a missing [items] is the empty
    list. *)
Record page (A : Type) : Type := mk_page {
  items : list A;
  nextCursor : option cursor
}.

Arguments mk_page {A} items nextCursor.
Arguments items {A} p.
Arguments nextCursor {A} p.

(** The API: the answer to the n-th request, made with cursor [c]. *)
Definition api (A : Type) : Type := nat -> option cursor -> reply (page A).

Definition query {A : Type} (srv : api A) (c : option cursor) (w : world)
  : reply (page A) * world :=
  (srv (sent w) c, mk_world (files w) (S (sent w)) (log w ++ [Query c])%list).

(** [if cursor:] / [if not cursor:] *)
Definition cursor_truthy (c : option cursor) : bool :=
  match c with
  | Some (CStr s) => negb (String.eqb s EmptyString)
  | Some (CNum n) => negb (n =? 0)
  | None => false
  end.

(** [next_cursor == cursor] *)
Definition cursor_eqb (a b : option cursor) : bool :=
  match a, b with
  | None, None => true
  | Some (CStr x), Some (CStr y) => String.eqb x y
  | Some (CNum x), Some (CNum y) => x =? y
  | _, _ => false
  end.

(** [a or b] on optional strings. *)
Definition py_or (a b : option string) : option string :=
  if Py.truthy a then a else b.

(** [if 500 <= response.status_code < 600] *)
Definition is_server_error (s : Z) : bool := (500 <=? s) && (s <? 600).

(** ["500" in str(e) or "502" in str(e) or "503" in str(e) or
     "504" in str(e)] *)
Definition mentions_5xx (text : string) : bool :=
  Py.contains "500" text || Py.contains "502" text ||
  Py.contains "503" text || Py.contains "504" text.

(** The [except] clause of the page loops of [get_images] and
    [get_collection_images]: a back-off only before the last attempt and
    only for a text naming a 5xx status; otherwise the failure is printed
    and the next attempt starts. *)
Definition page_exception_backoff (max_retries : Z) (text : string)
  (attempt : Z) (w : world) : world :=
  if (attempt <? max_retries - 1) && mentions_5xx text
  then emit (Sleep ((attempt + 1) * 5)) w
  else w.

(** The owner a listing is asked for: [is_username] tells which. *)
Inductive owner_query : Type :=
| ByUsername (username : string)
| ByUserId (user_id : Z).

Definition is_username (q : owner_query) : bool :=
  match q with ByUsername _ => true | ByUserId _ => false end.

(** [not is_username and uid is not None and uid != user_identifier]
    negated: the element passes the ownership check. *)
Definition owner_ok (q : owner_query) (uid : option Z) : bool :=
  match q, uid with
  | ByUserId n, Some u => u =? n
  | _, _ => true
  end.

(** [lambda x: x.get('createdAt', '')]: the default is only taken for a
    missing key; [None] is the [None] that a key holding [null] gives. *)
Definition sort_key (it : item) : option string :=
  match createdAt it with
  | Missing => Some EmptyString
  | Null => None
  | Val s => Some s
  end.

(** The keys of a list, as [list.sort] computes them before it compares
    any; [None] when one of them is [None]. *)
Fixpoint decorate (l : list item) : option (list (string * item)) :=
  match l with
  | [] => Some []
  | x :: r =>
      match sort_key x, decorate r with
      | Some k, Some d => Some ((k, x) :: d)
      | _, _ => None
      end
  end.

(** The sort on texts: stable, newest first. *)
Fixpoint insert_newest (x : string * item) (l : list (string * item))
  : list (string * item) :=
  match l with
  | [] => [x]
  | y :: r =>
      if String.ltb (fst y) (fst x) then x :: y :: r
      else y :: insert_newest x r
  end.

Definition sort_newest (l : list (string * item)) : list (string * item) :=
  fold_left (fun acc x => insert_newest x acc) l [].

(** [l.sort(key=lambda x: x.get('createdAt', ''), reverse=True)].  A list
    of two or more elements is sorted by comparing keys, every key with
    at least one other, and [<] with a [None] on either side raises
    [TypeError]: the result [None].  A shorter list is left as it is, no
    key being compared. *)
Definition py_sort (l : list item) : option (list item) :=
  match l with
  | [] | [_] => Some l
  | _ => option_map (fun d => map snd (sort_newest d)) (decorate l)
  end.

(** ** The merge step: a [dict] keyed by [id], in insertion order *)

Definition dict : Type := list (Z * item).

(** [k in d] *)
Definition dict_has (k : Z) (d : dict) : bool :=
  existsb (fun kv => fst kv =? k) d.

(** [d[k] = v]: a key already there keeps its place and takes the value. *)
Fixpoint dict_set (k : Z) (v : item) (d : dict) : dict :=
  match d with
  | [] => [(k, v)]
  | (k', v') :: r =>
      if k' =? k then (k', v) :: r else (k', v') :: dict_set k v r
  end.

(** [{img['id']: img for img in images}] *)
Definition dict_of_images (images : list item) : dict :=
  fold_left (fun d img => dict_set (id img) img d) images [].

(** [for p in posts: if p['id'] not in d: d[p['id']] = p] *)
Definition add_missing (posts : list item) (d : dict) : dict :=
  fold_left (fun d p => if dict_has (id p) d then d else dict_set (id p) p d)
    posts d.

(** [list(d.values())] *)
Definition dict_values (d : dict) : list item := map snd d.

(** The merge of [process_user] (lines 606-619) and of
    [process_collection] (lines 489-495), the same statements. *)
Definition merge_items (images posts : list item) : list item :=
  dict_values (add_missing posts (dict_of_images images)).

(** *** civitai_downloader.py *)

Module User.

Definition canonical_url (it : item) (u : string) : string :=
  if negb (Py.startswith u "http") then
    if Py.truthy (name it)
    then base_host ++ u ++ "/original=true/" ++
         match name it with Some n => n | None => EmptyString end
    else base_host ++ u ++ "/original=true/image.png"
  else full_url_original u.

Definition display_name (it : item) : string :=
  let fallback := "image_" ++ Py.str (id it) in
  let n := if Py.truthy (name it)
           then match name it with Some n => n | None => fallback end
           else fallback in
  let n := if negb (String.eqb n EmptyString) then sanitize n else n in
  if String.eqb n EmptyString then fallback else n.

Definition resolve_ext (it : item) (u : string) : string :=
  let e := ext_from_url u "png" in
  let e := if Py.is_lit (type it) "video" then "mp4" else e in
  if Py.endswith u ".mp4" then "mp4" else e.

(** Lines 387-450: [None] is the early [return False] for a missing URL. *)
Definition prepare (it : item) : option plan :=
  if negb (Py.truthy (url it)) then None
  else match url it with
       | None => None
       | Some u =>
           let e := resolve_ext it u in
           let f := display_name it ++ "_" ++ Py.str (id it) ++ "." ++ e in
           Some (mk_plan u (canonical_url it u) e
                   (clamp_filename (sanitize_filename f) (id it) e))
       end.

(** Lines 452-491: the pass over the files found for the same id. *)
Fixpoint dedupe (target : string) (dupes : list string) (w : world) : world :=
  match dupes with
  | [] => w
  | dupe :: rest =>
      if String.eqb dupe target then dedupe target rest w
      else if Fs.valid target (files w) then
        dedupe target rest
          (if Fs.exists_ dupe (files w) then do_remove dupe w else w)
      else
        match Fs.getsize dupe (files w) with
        | None => w      (* [FileNotFoundError], caught outside the loop *)
        | Some n =>
            if (0 <? n)%nat then dedupe target rest (do_rename dupe target w)
            else dedupe target rest w
        end
  end.

Definition reconcile (it : item) (p : plan) (w : world) : world :=
  dedupe (filename p) (glob (id it) (files w)) w.

Section Transfer.

Variable srv : server.

(** Lines 529-548: [raise_for_status], the streamed write, the size
    check.  A stream that breaks has created the file and left in it the
    chunks that came; the exception goes to the [except] clause. *)
Definition finish (p : plan) (attempt : Z) (r : Z * string * stream)
  (w : world) : outcome bool :=
  let '(status, err_text, body) := r in
  if is_error_status status then
    Next (on_request_exception err_text attempt w)
  else
    match body with
    | Cut b text =>
        Next (on_request_exception text attempt (do_write (filename p) b w))
    | Whole b =>
        let w := do_write (filename p) b w in
        match Fs.getsize (filename p) (files w) with
        | Some n => if (0 <? n)%nat then Leave true w else Next w
        | None => Leave false w   (* unreachable: the file was just written *)
        end
    end.

(** Lines 503-548: the body of the retry loop. *)
Definition attempt_body (p : plan) (attempt : Z) (w : world) : outcome bool :=
  let w := emit Jitter w in
  match request srv (original_url p) w with
  | (Failure text, w) => Next (on_request_exception text attempt w)
  | (Response status err_text body, w) =>
      if status =? 429 then Next (emit (Sleep ((attempt + 1) * 10)) w)
      else if negb (status =? 200) then
        if negb (String.eqb (original_url p) (plan_url p))
           && Py.startswith (plan_url p) "http"
        then
          match request srv (plan_url p) w with
          | (Failure text, w) => Next (on_request_exception text attempt w)
          | (Response status' err_text' body', w) =>
              if status' =? 429
              then Next (emit (Sleep ((attempt + 1) * 10)) w)
              else finish p attempt (status', err_text', body') w
          end
        else finish p attempt (status, err_text, body) w
      else finish p attempt (status, err_text, body) w
  end.

Definition max_retries : nat := 10.

(** [download_image(img_data, output_dir)] *)
Definition download_image (it : item) (w : world) : bool * world :=
  match prepare it with
  | None => (false, w)
  | Some p =>
      let w := reconcile it p w in
      if Fs.valid (filename p) (files w) then (true, w)
      else or_failed (for_attempts (attempt_body p) (range max_retries) w)
  end.

End Transfer.

Section Fetch.

(** [datetime.fromisoformat(s.replace('Z', '+00:00'))] as an instant;
    [None] when it, or the comparison with [after_date], raises. *)
Variable parse_iso : string -> option Z.

(** [after_date]: the lower bound, when one is given. *)
Variable after_date : option Z.

(** [created_at < after_date], guarded as in the source; [created] is
    what [.get('createdAt')] gave. *)
Definition older_than_bound (created : option string) : bool :=
  match after_date, created with
  | Some bound, Some s =>
      if Py.truthy created then
        match parse_iso s with
        | Some t => t <? bound
        | None => false
        end
      else false
  | _, _ => false
  end.

(** The last element of the page is older than the bound. *)
Definition page_is_past_bound (dates : list (option string)) : bool :=
  match dates with
  | [] => false
  | _ => older_than_bound (List.last dates None)
  end.

Variable q : owner_query.

(** *** get_images *)

Variable images_api : api item.

(** Lines 203-235: the per-item filter. *)
Definition keep_image (img : item) : bool :=
  owner_ok q (userId img) && negb (older_than_bound (get (createdAt img))).

(** Lines 171-187: one attempt at a page. *)
Definition images_attempt (c : option cursor) (attempt : Z) (w : world)
  : outcome (page item) :=
  let w := emit Jitter w in
  match query images_api c w with
  | (Failure text, w) => Next (page_exception_backoff 5 text attempt w)
  | (Response status err_text data, w) =>
      if is_server_error status
      then Next (emit (Sleep ((attempt + 1) * 5)) w)
      else if is_error_status status
      then Next (page_exception_backoff 5 err_text attempt w)
      else Leave data w
  end.

(** Lines 149-256: the [while True] loop. *)
Fixpoint images_loop (fuel : nat) (c : option cursor) (images : list item)
  (w : world) : option (list item * world) :=
  match fuel with
  | O => None
  | S fuel' =>
      match for_attempts (images_attempt c) (range 5) w with
      | (None, w) => Some (images, w)
      | (Some data, w) =>
          let batch := items data in
          let images := (images ++ filter keep_image batch)%list in
          let c' := nextCursor data in
          if negb (cursor_truthy c') then Some (images, w)
          else if page_is_past_bound
                    (map (fun img => get (createdAt img)) batch)
          then Some (images, w)
          else images_loop fuel' c' images w
      end
  end.

(** Lines 131-260.  The function ends with a list, or with the
    [TypeError] of the sort of line 259, which nothing catches: the
    [None] inside. *)
Definition get_images (fuel : nat) (w : world)
  : option (option (list item) * world) :=
  match images_loop fuel None [] w with
  | Some (images, w) => Some (py_sort images, w)
  | None => None
  end.

(** *** get_posts *)

Variable posts_api : api post.

Definition post_date (p : post) : option string :=
  py_or (post_createdAt p) (post_publishedAt p).

(** Lines 327-345: the per-post filter. *)
Definition keep_post (p : post) : bool :=
  owner_ok q (post_userId p) && negb (older_than_bound (post_date p)).

(** Lines 349-357: an image of a post, with the post's id and date.
    [createdAt] is only set when the image has no such key, and then to
    what [postDate] holds, which is [None] for a post without a date. *)
Definition attach (p : post) (img : item) : item :=
  mk_item (id img) (url img) (name img) (type img) (mimeType img)
    (user img) (userId img)
    (match createdAt img with
     | Missing => match post_date p with Some s => Val s | None => Null end
     | c => c
     end)
    (post_id p) (post_date p).

Definition extract (batch : list post) : list item :=
  flat_map (fun p => map (attach p) (post_images p)) (filter keep_post batch).

(** Lines 301-312: one attempt at a page. *)
Definition posts_attempt (c : option cursor) (attempt : Z) (w : world)
  : outcome (page post) :=
  let w := emit Jitter w in
  match query posts_api c w with
  | (Failure text, w) => Next (emit (Sleep ((attempt + 1) * 2)) w)
  | (Response status err_text data, w) =>
      if is_server_error status
      then Next (emit (Sleep ((attempt + 1) * 5)) w)
      else if is_error_status status
      then Next (emit (Sleep ((attempt + 1) * 2)) w)
      else Leave data w
  end.

(** Lines 279-378: the [while True] loop. *)
Fixpoint posts_loop (fuel : nat) (c : option cursor) (acc : list item)
  (w : world) : option (list item * world) :=
  match fuel with
  | O => None
  | S fuel' =>
      match for_attempts (posts_attempt c) (range 5) w with
      | (None, w) => Some (acc, w)
      | (Some data, w) =>
          let batch := items data in
          match batch with
          | [] => Some (acc, w)
          | _ =>
              let acc := (acc ++ extract batch)%list in
              let next_cursor := nextCursor data in
              if negb (cursor_truthy next_cursor) || cursor_eqb next_cursor c
              then Some (acc, w)
              else if page_is_past_bound (map post_date batch)
              then Some (acc, w)
              else posts_loop fuel' next_cursor acc w
          end
      end
  end.

Definition get_posts (fuel : nat) (w : world) : option (list item * world) :=
  posts_loop fuel None [] w.

End Fetch.

End User.

(** *** civitai_collection_downloader.py *)

Module Collection.

Definition resolve_ext (it : item) (u : string) : string :=
  if Py.is_lit (mimeType it) "video/mp4" || Py.is_lit (type it) "video"
     || Py.endswith u ".mp4"
  then "mp4"
  else ext_from_url u "png".

(** [name] as it stands at the final filename construction: for a storage
    token it has been read from the item again and only sanitised when
    truthy; [None] prints as the text None. *)
Definition display_name (it : item) (u : string) : string :=
  if negb (Py.startswith u "http") then
    match name it with
    | None => "None"
    | Some n => if Py.truthy (name it) then sanitize n else n
    end
  else User.display_name it.

Definition canonical_url (it : item) (u e : string) : string :=
  if negb (Py.startswith u "http") then
    let n := display_name it u in
    if String.eqb e "mp4" then
      if Py.truthy (name it) && negb (String.eqb n EmptyString)
      then base_host ++ u ++ "/original=true/" ++ n ++ ".mp4"
      else base_host ++ u ++ "/original=true/video.mp4"
    else
      if Py.truthy (name it) && negb (String.eqb n EmptyString)
      then base_host ++ u ++ "/original=true/" ++ n
      else base_host ++ u ++ "/original=true/image.png"
  else full_url_original u.

(** Line 296: [img_data.get('user', {}).get('username')].  The default
    is only taken for a missing key; for a [user] holding [null] the
    second [get] raises [AttributeError]: the result [None]. *)
Definition creator (it : item) : option (option string) :=
  match user it with
  | Missing => Some None
  | Null => None
  | Val username => Some username
  end.

(** [username] after the sanitising step; only kept when truthy. *)
Definition owner_prefix (username : option string) : option string :=
  if Py.truthy username
  then match username with
       | Some w => let w' := sanitize w in
                   if String.eqb w' EmptyString then None else Some w'
       | None => None
       end
  else None.

(** Lines 261-370: [None] is the early [return False] for a missing URL,
    and the [return False] of the outer [except] clause (lines 461-463)
    when line 296 raises. *)
Definition prepare (it : item) : option plan :=
  if negb (Py.truthy (url it)) then None
  else match url it, creator it with
       | Some u, Some username =>
           let e := resolve_ext it u in
           let n := display_name it u in
           let f := match owner_prefix username with
                    | Some o =>
                        o ++ "_" ++ n ++ "_" ++ Py.str (id it) ++ "." ++ e
                    | None => n ++ "_" ++ Py.str (id it) ++ "." ++ e
                    end in
           Some (mk_plan u (canonical_url it u e) e
                   (clamp_filename (sanitize_filename f) (id it) e))
       | _, _ => None
       end.

(** Lines 372-402: the pass over the files found for the same id. *)
Fixpoint dedupe (target : string) (dupes : list string) (w : world) : world :=
  match dupes with
  | [] => w
  | dupe :: rest =>
      if String.eqb dupe target then dedupe target rest w
      else if Fs.valid target (files w) then
        dedupe target rest (do_remove dupe w)
      else
        match Fs.getsize dupe (files w) with
        | None => w            (* the exception ends the loop *)
        | Some n =>
            if (0 <? n)%nat then dedupe target rest (do_rename dupe target w)
            else dedupe target rest w
        end
  end.

Definition reconcile (it : item) (p : plan) (w : world) : world :=
  dedupe (filename p) (glob (id it) (files w)) w.

Section Transfer.

Variable srv : server.

(** Lines 427-431 and 441-445: the body of a 200 answer streamed to the
    target, and [return True] with no look at what was written.  A stream
    that breaks has created the file and left in it the chunks that came;
    the exception goes to the [except] clause. *)
Definition save (p : plan) (attempt : Z) (body : stream) (w : world)
  : outcome bool :=
  match body with
  | Whole b => Leave true (do_write (filename p) b w)
  | Cut b text =>
      Next (on_request_exception text attempt (do_write (filename p) b w))
  end.

(** Lines 416-457: the body of the retry loop. *)
Definition attempt_body (p : plan) (attempt : Z) (w : world) : outcome bool :=
  let w := emit Jitter w in
  match request srv (original_url p) w with
  | (Failure text, w) => Next (on_request_exception text attempt w)
  | (Response status _ body, w) =>
      if status =? 429 then Next (emit (Sleep ((attempt + 1) * 10)) w)
      else if status =? 200 then save p attempt body w
      else if negb (String.eqb (original_url p) (plan_url p)) then
        match request srv (plan_url p) w with
        | (Failure text, w) => Next (on_request_exception text attempt w)
        | (Response status' _ body', w) =>
            if status' =? 429
            then Next (emit (Sleep ((attempt + 1) * 10)) w)
            else if status' =? 200
            then save p attempt body' w
            else Leave false w
        end
      else Leave false w
  end.

Definition max_retries : nat := 10.

(** [download_image(img_data, output_dir)] *)
Definition download_image (it : item) (w : world) : bool * world :=
  match prepare it with
  | None => (false, w)
  | Some p =>
      let w := reconcile it p w in
      if Fs.valid (filename p) (files w) then (true, w)
      else or_failed (for_attempts (attempt_body p) (range max_retries) w)
  end.

End Transfer.

Section Fetch.

Variable images_api : api item.

(** Lines 121-147: one attempt at a page. *)
Definition images_attempt (c : option cursor) (attempt : Z) (w : world)
  : outcome (page item) :=
  let w := emit Jitter w in
  match query images_api c w with
  | (Failure text, w) => Next (page_exception_backoff 5 text attempt w)
  | (Response status err_text data, w) =>
      if is_server_error status
      then Next (emit (Sleep ((attempt + 1) * 5)) w)
      else if is_error_status status
      then Next (page_exception_backoff 5 err_text attempt w)
      else Leave data w
  end.

(** Lines 96-173: the [while True] loop. *)
Fixpoint images_loop (fuel : nat) (c : option cursor) (images : list item)
  (w : world) : option (list item * world) :=
  match fuel with
  | O => None
  | S fuel' =>
      match for_attempts (images_attempt c) (range 5) w with
      | (None, w) => Some (images, w)
      | (Some data, w) =>
          let batch := items data in
          match batch with
          | [] => Some (images, w)
          | _ =>
              let images := (images ++ batch)%list in
              let next_cursor := nextCursor data in
              if negb (cursor_truthy next_cursor) || cursor_eqb next_cursor c
              then Some (images, w)
              else images_loop fuel' next_cursor images w
          end
      end
  end.

Definition get_collection_images (fuel : nat) (w : world)
  : option (list item * world) :=
  images_loop fuel None [] w.

End Fetch.

Section FetchPosts.

Variable posts_api : api post.

(** Lines 237-245: the images of the posts of a page, each with the id
    and the date of its post (the same statements as in [get_posts]). *)
Definition extract (batch : list post) : list item :=
  flat_map (fun p => map (User.attach p) (post_images p)) batch.

(** Lines 197-251: the [while True] loop of [get_collection_posts]; a
    request that raises, or an answer [raise_for_status] raises for,
    ends it. *)
Fixpoint posts_loop (fuel : nat) (c : option cursor) (posts : list item)
  (w : world) : option (list item * world) :=
  match fuel with
  | O => None
  | S fuel' =>
      let w := emit Jitter w in
      match query posts_api c w with
      | (Failure _, w) => Some (posts, w)
      | (Response status _ data, w) =>
          if is_error_status status then Some (posts, w)
          else
            match items data with
            | [] => Some (posts, w)
            | batch =>
                let posts := (posts ++ extract batch)%list in
                let c' := nextCursor data in
                if negb (cursor_truthy c') then Some (posts, w)
                else posts_loop fuel' c' posts w
            end
      end
  end.

Definition get_collection_posts (fuel : nat) (w : world)
  : option (list item * world) :=
  posts_loop fuel None [] w.

End FetchPosts.

End Collection.

(** ** Sample data *)

Definition png_bytes : bytes := [Byte.x89; Byte.x50; Byte.x4e; Byte.x47].

(** An image with id 42 whose file is to be called [newname_42.png]. *)
Definition item_42 : item :=
  mk_item 42 (Some "https://image.civitai.com/x/width=450/newname.png")
    (Some "newname") (Some "image") None Missing None Missing None None.

Definition plan_42 : plan :=
  mk_plan "https://image.civitai.com/x/width=450/newname.png"
    "https://image.civitai.com/x/original=true/newname.png"
    "png" "newname_42.png".

(** A download host that cannot be reached, one that always answers 429,
    and one that answers 200 with an empty body. *)
Definition offline : server := fun _ _ => Failure "connection refused".
Definition throttling : server := fun _ _ => Response 429 "" (Whole []).
Definition hollow : server := fun _ _ => Response 200 "" (Whole []).

(** A run starts with nothing sent and nothing logged. *)
Definition fresh (d : dir) : world := mk_world d 0 [].

(** A download left under an earlier name. *)
Definition old_dir : dir := [("oldname_42.png", png_bytes)].

(** The same, listed after an empty file for the same id. *)
Definition stale_dir : dir :=
  [("a_42.png", []); ("oldname_42.png", png_bytes)].

(** ** The two download workers side by side *)

Inductive script : Type :=
| UserScript          (* civitai_downloader.py *)
| CollectionScript.   (* civitai_collection_downloader.py *)

Definition prepare (s : script) : item -> option plan :=
  match s with
  | UserScript => User.prepare
  | CollectionScript => Collection.prepare
  end.

Definition reconcile (s : script) : item -> plan -> world -> world :=
  match s with
  | UserScript => User.reconcile
  | CollectionScript => Collection.reconcile
  end.

Definition download_image (s : script) (srv : server)
  : item -> world -> bool * world :=
  match s with
  | UserScript => User.download_image srv
  | CollectionScript => Collection.download_image srv
  end.

(** ** Observations on a run *)

(** How many [os.rename] calls a log records. *)
Fixpoint renames (l : list event) : nat :=
  match l with
  | [] => O
  | Renamed _ _ :: r => S (renames r)
  | _ :: r => renames r
  end.

(** The back-off of a rate-limited download: what attempt [a] does. *)
Definition rate_limited_attempt (u : string) (a : Z) : list event :=
  [Jitter; Get u; Sleep ((a + 1) * 10)].

(** A reply that signals rate limiting: status 429, or an exception whose
    text contains 429. *)
Definition rate_limited (r : reply stream) : Prop :=
  match r with
  | Response status _ _ => status = 429
  | Failure text => Py.contains "429" text = true
  end.




(** An image with a creator name, one whose [user] is [null], and a host
    that serves four bytes. *)
Definition item_alice : item :=
  mk_item 42 (Some "https://image.civitai.com/x/width=450/newname.png")
    (Some "newname") (Some "image") None (Val (Some "alice")) None Missing
    None None.


Definition serving : server := fun _ _ => Response 200 "" (Whole png_bytes).


(** The first element of a sequence with a given id, and [d.get(k)]. *)
Definition find_id (k : Z) (l : list item) : option item :=
  find (fun x => id x =? k) l.

Definition dict_get (k : Z) (d : dict) : option item :=
  option_map snd (find (fun kv => fst kv =? k) d).

(** A dictionary built by the merge: keys without repeats, each value
    stored under its own id. *)
Definition well_keyed (d : dict) : Prop :=
  NoDup (map fst d) /\ forall kv, In kv d -> id (snd kv) = fst kv.

(** Two listings of the same image, the second with another name. *)
Definition shot_a : item :=
  mk_item 1 (Some "https://h/a.png") (Some "first") None None Missing None
    Missing None None.
Definition shot_b : item :=
  mk_item 1 (Some "https://h/a.png") (Some "second") None None Missing None
    Missing None None.

(** A video of which only the URL says webm. *)
Definition webm_item : item :=
  mk_item 7 (Some "https://image.civitai.com/x/clip.webm") (Some "clip")
    (Some "video") None Missing None Missing None None.

(** An API that answers every request with the same page and the same
    continuation token. *)
Definition stuck_cursor : option cursor := Some (CStr "abc").

Definition stuck_images : api item :=
  fun _ _ => Response 200 "" (mk_page [shot_a] stuck_cursor).

Definition stuck_posts : api post :=
  fun _ _ =>
    Response 200 ""
      (mk_page [mk_post (Some 5) None None None [shot_a]] stuck_cursor).

(** An API that times out, and a date parser that never succeeds. *)
Definition timing_out (A : Type) : api A :=
  fun _ _ => Failure "Read timed out".

Definition no_parse : string -> option Z := fun _ => None.

(** ** A page that fails *)

(** The three fetchers with a retry loop. *)
Inductive fetcher : Type :=
| GetImages               (* [get_images] *)
| GetPosts                (* [get_posts] *)
| GetCollectionImages.    (* [get_collection_images] *)

(** How an attempt at a page fails: with an HTTP 5xx answer, or with a
    request exception of a given text. *)
Inductive page_failure : Type :=
| ServerError
| RequestError (text : string).

(** The failure an answer is, if it is one.  An HTTP 4xx answer is the
    [HTTPError] that [raise_for_status] raises for it. *)
Definition failure_of {A : Type} (r : reply (page A)) : option page_failure :=
  match r with
  | Failure text => Some (RequestError text)
  | Response status err_text _ =>
      if (500 <=? status) && (status <? 600) then Some ServerError
      else if (400 <=? status) && (status <? 500)
      then Some (RequestError err_text)
      else None
  end.

(** The back-off that follows a failed attempt.  After a 5xx answer:
    [(attempt + 1) * 5] seconds, in each fetcher and after each attempt.
    After a request exception: [(attempt + 1) * 2] seconds in [get_posts];
    in the other two none, unless the text of the exception contains
    500, 502, 503 or 504 and the attempt is not the fifth, and then
    [(attempt + 1) * 5] seconds. *)
Definition backoff (f : fetcher) (attempt : Z) (k : page_failure)
  : list event :=
  match k, f with
  | ServerError, _ => [Sleep ((attempt + 1) * 5)]
  | RequestError _, GetPosts => [Sleep ((attempt + 1) * 2)]
  | RequestError text, _ =>
      if (Py.contains "500" text || Py.contains "502" text ||
          Py.contains "503" text || Py.contains "504" text)
         && (attempt <? 4)
      then [Sleep ((attempt + 1) * 5)]
      else []
  end.

(** What the attempts numbered [0] to [4] at the page of cursor [c] leave
    in the log when attempt [i] fails with [k i]. *)
Definition failed_attempts (f : fetcher) (c : option cursor)
  (k : nat -> page_failure) : list event :=
  flat_map (fun i => [Jitter; Query c] ++ backoff f (Z.of_nat i) (k i))%list
    (seq 0 5).

(** The world after [n] more requests that logged [evs]. *)
Definition after_requests (w : world) (n : nat) (evs : list event) : world :=
  mk_world (files w) (sent w + n) (log w ++ evs)%list.

(** An API whose answers fail one way after the other: a 503, a time-out,
    a 404 whose text names the URL asked for (and with it a user id that
    reads 500), an exception that names a 502, a 500. *)
Definition failing_variously (A : Type) : api A :=
  fun n _ =>
    match n with
    | 0%nat => Response 503 "503 Server Error" (mk_page [] None)
    | 1%nat => Failure "Read timed out"
    | 2%nat => Response 404 "404 Client Error for url: /api?userId=5001"
                 (mk_page [] None)
    | 3%nat => Failure "502 Bad Gateway"
    | _ => Response 500 "500 Server Error" (mk_page [] None)
    end.

Definition failures_shown (i : nat) : page_failure :=
  match i with
  | 0%nat => ServerError
  | 1%nat => RequestError "Read timed out"
  | 2%nat => RequestError "404 Client Error for url: /api?userId=5001"
  | 3%nat => RequestError "502 Bad Gateway"
  | _ => ServerError
  end.

(** ** The command line: the list of units (both [main] functions) *)

(** Lines 782-790 of civitai_downloader.py and 561-569 of
    civitai_collection_downloader.py: strip every entry, leave out the
    empty ones and the ones already seen, keep the order.  [seen] is the
    [set], [unique] the list being built. *)
Fixpoint unique_loop (users seen unique : list string) : list string :=
  match users with
  | [] => unique
  | u :: rest =>
      let u := Py.strip u in
      if negb (String.eqb u EmptyString) && negb (existsb (String.eqb u) seen)
      then unique_loop rest (u :: seen) (unique ++ [u])%list
      else unique_loop rest seen unique
  end.

Definition unique_users (users : list string) : list string :=
  unique_loop users [] [].

(** ** The list handed to the download pool *)

(** Lines 606-633 of civitai_downloader.py: merge, then sort newest
    first; [None] is the [TypeError] of the sort of line 631. *)
Definition final_items (images posts : list item) : option (list item) :=
  py_sort (merge_items images posts).

(** [a] is not older than [b] in the order of the sort: both have a text
    as key, and the key of [a] is not below the key of [b]. *)
Definition not_older (a b : item) : Prop :=
  exists ka kb,
    sort_key a = Some ka /\ sort_key b = Some kb /\ String.ltb ka kb = false.

(** The order of the sort, on the keys. *)
Definition key_not_below (a b : string * item) : Prop :=
  String.ltb (fst a) (fst b) = false.

(** When the sort raises: the list has two elements or more, and one of
    them holds [null] under [createdAt]. *)
Definition sort_raises (l : list item) : Prop :=
  (2 <= List.length l)%nat /\ exists x, In x l /\ createdAt x = Null.

(** An image of a post that has no date, as [get_posts] returns it. *)
Definition undated_shot : item :=
  mk_item 4 (Some "https://h/d.png") (Some "undated") None None Missing None
    Null (Some 6) None.

(** Two dated images, a parser that knows their dates (as day numbers),
    and an API that lists both on one page. *)
Definition recent_shot : item :=
  mk_item 2 (Some "https://h/b.png") (Some "recent") None None Missing None
    (Val "2025-12-11T00:00:00Z") None None.

Definition old_shot : item :=
  mk_item 3 (Some "https://h/c.png") (Some "old") None None Missing None
    (Val "2025-12-01T00:00:00Z") None None.

Definition sample_parse (s : string) : option Z :=
  if String.eqb s "2025-12-11T00:00:00Z" then Some 20251211
  else if String.eqb s "2025-12-01T00:00:00Z" then Some 20251201
  else None.

Definition dated_api : api item :=
  fun _ _ => Response 200 "" (mk_page [recent_shot; old_shot] None).


(** A host none of whose answers breaks off while it is read. *)
Definition unbroken (srv : server) : Prop :=
  forall n u st e b text, srv n u <> Response st e (Cut b text).

(** A host that sends one byte of a body and breaks the connection. *)
Definition breaking_off : server :=
  fun _ _ => Response 200 "" (Cut [Byte.x89] "Connection broken").

(** A host that has nothing under any URL, and a directory with an
    unrelated file. *)
Definition missing : server :=
  fun _ _ => Response 404 "404 Client Error: Not Found" (Whole []).

Definition other_dir : dir := [("notes.txt", png_bytes)].

(** The world an attempt ends in. *)
Definition world_of {A : Type} (o : outcome A) : world :=
  match o with
  | Leave _ w => w
  | Next w => w
  end.

(** The replacement made for one path segment. *)
Definition swap_width (part : string) : string :=
  if Py.startswith part "width=" then "original=true" else part.

(** Every character of a text is of a given class. *)
Fixpoint all_chars (p : ascii -> bool) (s : string) : bool :=
  match s with
  | EmptyString => true
  | String c r => p c && all_chars p r
  end.

(** The characters [str] of an integer is made of. *)
Definition id_char (c : ascii) : bool := Py.isdigit c || Ascii.eqb c "-".

(** ** A listing served page by page *)

(** The pages of a listing as a well-behaved API serves them when first
    asked with cursor [c]: no page is empty, every page but the last
    names a non-empty cursor other than the one it was asked with, and the
    last page names none. *)
Fixpoint listing {A : Type} (c : option cursor) (pages : list (page A))
  : Prop :=
  match pages with
  | [] => False
  | p :: rest =>
      items p <> [] /\
      match rest with
      | [] => nextCursor p = None
      | _ => cursor_truthy (nextCursor p) = true /\
             cursor_eqb (nextCursor p) c = false /\
             listing (nextCursor p) rest
      end
  end.

(** The API answers the requests numbered from [base] on with the pages,
    one after the other, status 200. *)
Definition serves {A : Type} (srv : api A) (base : nat)
  (pages : list (page A)) : Prop :=
  forall i c, (i < List.length pages)%nat ->
              srv (base + i)%nat c =
              Response 200 "" (nth i pages (mk_page [] None)).

(** The cursors the pages are asked with, and the log of asking once for
    each. *)
Definition cursors_asked {A : Type} (c : option cursor)
  (pages : list (page A)) : list (option cursor) :=
  c :: map nextCursor (removelast pages).

Definition one_request_each (cs : list (option cursor)) : list event :=
  flat_map (fun c => [Jitter; Query c]) cs.

(** No page but the last ends with an element older than the date bound,
    at which the fetchers of civitai_downloader.py would stop reading. *)
Definition never_past_bound {A : Type} (parse_iso : string -> option Z)
  (after_date : option Z) (date : A -> option string)
  (pages : list (page A)) : Prop :=
  forall pg, In pg (removelast pages) ->
             User.page_is_past_bound parse_iso after_date
               (map date (items pg)) = false.

(** ** The ownership rule *)

(** An element passes when the listing was asked for by user name, and,
    when it was asked for by numeric id, if its owner id is absent or is
    the id asked for. *)
Definition passes_ownership (q : owner_query) (uid : option Z) : Prop :=
  match q with
  | ByUsername _ => True
  | ByUserId n => uid = None \/ uid = Some n
  end.

(** The API has an answer that lists [x]. *)
Definition served {A : Type} (srv : api A) (x : A) : Prop :=
  exists n c status err_text pg,
    srv n c = Response status err_text pg /\ In x (items pg).

(** What [get_posts] returns of a post that passed. *)
Definition from_own_post (q : owner_query) (srv : api post) (x : item)
  : Prop :=
  exists p img,
    served srv p /\ In img (post_images p) /\ x = User.attach p img /\
    passes_ownership q (post_userId p).

(** Images and posts of the users 7 and 8, and of no stated user. *)
Definition mine : item :=
  mk_item 11 (Some "https://h/11.png") (Some "mine") None None Missing
    (Some 7) (Val "2025-12-11T00:00:00Z") None None.

Definition foreign : item :=
  mk_item 12 (Some "https://h/12.png") (Some "foreign") None None Missing
    (Some 8) (Val "2025-12-11T00:00:00Z") None None.

Definition anon : item :=
  mk_item 13 (Some "https://h/13.png") (Some "anon") None None Missing
    None Missing None None.

Definition stale : item :=
  mk_item 14 (Some "https://h/14.png") (Some "stale") None None Missing
    (Some 7) (Val "2025-12-01T00:00:00Z") None None.

Definition owned_pages : list (page item) :=
  [mk_page [mine; foreign] (Some (CNum 7)); mk_page [anon; stale] None].

Definition owned_api : api item :=
  fun n _ => Response 200 "" (nth n owned_pages (mk_page [] None)).

Definition owned_posts : list (page post) :=
  [mk_page [mk_post (Some 5) (Some 7) (Some "2025-12-11T00:00:00Z") None
              [mine];
            mk_post (Some 6) (Some 8) (Some "2025-12-11T00:00:00Z") None
              [foreign];
            mk_post (Some 9) None None None [anon]] None].

Definition owned_posts_api : api post :=
  fun n _ => Response 200 "" (nth n owned_posts (mk_page [] None)).

(** What reading the pages of a listing from cursor [c] on, and then
    failing five times at the page that follows them, leaves in the
    log. *)
Fixpoint then_failing {A : Type} (f : fetcher) (k : nat -> page_failure)
  (c : option cursor) (pages : list (page A)) : list event :=
  match pages with
  | [] => failed_attempts f c k
  | p :: rest => Jitter :: Query c :: then_failing f k (nextCursor p) rest
  end.

(** An API that serves one page of a listing of two and then fails one
    way after the other. *)
Definition failing_later : api item :=
  fun n c =>
    match n with
    | O => Response 200 "" (nth 0 owned_pages (mk_page [] None))
    | S m => failing_variously item m c
    end.

Definition failing_later_posts : api post :=
  fun n c =>
    match n with
    | O => Response 200 ""
             (mk_page [mk_post (Some 5) (Some 7) None None [mine]]
                (Some (CNum 7)))
    | S m => failing_variously post m c
    end.

(** A listing of two pages. *)
Definition two_pages : list (page item) :=
  [mk_page [recent_shot] (Some (CNum 7)); mk_page [old_shot] None].

Definition two_pages_api : api item :=
  fun n _ => Response 200 "" (nth n two_pages (mk_page [] None)).

(** An answer that ends [get_collection_posts]: the request raises, or
    [raise_for_status] does. *)
Definition failing_reply {A : Type} (r : reply (page A)) : Prop :=
  match r with
  | Response status _ _ => is_error_status status = true
  | Failure _ => True
  end.

(** A post with its date, holding an image without [createdAt], one
    whose [createdAt] is [null] and one with a date of its own. *)
Definition dated_post : post :=
  mk_post (Some 5) None (Some "2025-12-11T00:00:00Z") None
    [shot_a; undated_shot; old_shot].

Definition dated_post_api : api post :=
  fun _ _ => Response 200 "" (mk_page [dated_post] None).

(** A listing of posts, of which the API serves the first page and then
    breaks down. *)
Definition post_pages : list (page post) :=
  [mk_page [mk_post (Some 5) None (Some "2025-12-11T00:00:00Z") None
              [shot_a]] (Some (CNum 7));
   mk_page [mk_post (Some 6) None None None [old_shot]] None].

Definition breaking_api : api post :=
  fun n _ => match n with
             | O => Response 200 "" (nth 0 post_pages (mk_page [] None))
             | _ => Response 502 "502 Server Error" (mk_page [] None)
             end.

(** ** Resolving a collection (civitai_collection_downloader.py) *)

(** [s.isdigit()] and, for such a text, [int(s)]. *)
Definition str_isdigit (s : string) : bool :=
  negb (String.eqb s EmptyString) && all_chars Py.isdigit s.

Definition int_of_digits (s : string) : option Z :=
  option_map Z.of_uint (NilZero.uint_of_string s).

(** [parts[parts.index(key) + 1]] when [key] is among the parts and is
    not the last of them. *)
Fixpoint part_after (key : string) (parts : list string) : option string :=
  match parts with
  | [] => None
  | p :: rest =>
      if String.eqb p key then List.hd_error rest else part_after key rest
  end.

Section Resolve.

(** [urlparse(text).path] of the standard library. *)
Variable url_path : string -> string.

(** Lines 21-41. *)
Definition get_collection_id (collection_input : string) : option Z :=
  if str_isdigit collection_input then int_of_digits collection_input
  else
    match part_after "collections"
            (Py.split "/" (url_path collection_input)) with
    | Some possible_id =>
        if str_isdigit possible_id then int_of_digits possible_id else None
    | None => None
    end.

(** Lines 43-74, as a function of the answer to its one request: the
    payload is the [collection] object of the answer, if it has one,
    and in it the [name], if it has one. *)
Definition get_collection_name (collection_id : Z)
  (answer : reply (option (option string))) : option string :=
  let fallback := Some ("Collection_" ++ Py.str collection_id) in
  match answer with
  | Response status _ payload =>
      if status =? 200 then
        match payload with
        | None => None
        | Some nm =>
            if Py.truthy nm
            then match nm with Some n => Some (sanitize n) | None => fallback end
            else fallback
        end
      else fallback
  | Failure _ => fallback
  end.

(** Lines 469-501 of [process_collection]: the collection id and the
    folder name under [downloads], or [None] when the unit is skipped. *)
Definition resolve_collection (collection_input : string)
  (answer : reply (option (option string))) : option (Z * string) :=
  match get_collection_id collection_input with
  | None => None
  | Some collection_id =>
      if collection_id =? 0 then None
      else
        match get_collection_name collection_id answer with
        | None => None
        | Some collection_name =>
            if String.eqb collection_name EmptyString then None
            else Some (collection_id, collection_name)
        end
  end.

(** ** Resolving a user (civitai_downloader.py) *)

(** [get_user_id(username)], which asks the site: the id, or [None]. *)
Variable get_user_id : string -> option Z.

(** [if not user_id] on what [get_user_id] returned. *)
Definition no_user_id (user_id : option Z) : bool :=
  match user_id with
  | Some n => n =? 0
  | None => true
  end.

(** Lines 563-601 of [process_user]: the name of the folder and the query
    to list with, or [None] when the unit is skipped. *)
Definition resolve_user (user_input : string)
  : option (string * owner_query) :=
  let found :=
    if Py.contains "civitai.com/user/" user_input then
      match part_after "user" (Py.split "/" (url_path user_input)) with
      | Some username => Some (username, get_user_id username)
      | None => None
      end
    else
      let user_id := get_user_id user_input in
      if no_user_id user_id && str_isdigit user_input then
        match int_of_digits user_input with
        | Some n => Some ("User_" ++ Py.str n, Some n)
        | None => None
        end
      else Some (user_input, user_id) in
  match found with
  | None => None
  | Some (username, user_id) =>
      if no_user_id user_id then None
      else
        match user_id with
        | None => None
        | Some n =>
            if negb (String.eqb username EmptyString)
               && negb (Py.startswith username "User_")
            then Some (username, ByUsername username)
            else Some (username, ByUserId n)
        end
  end.

End Resolve.

(** ** The search through the page data (civitai_downloader.py) *)

(** A parsed JSON value; the members of an object in their order, with
    distinct keys. *)
Local Unset Elimination Schemes.

Inductive json : Type :=
| JNull
| JBool (b : bool)
| JNum (n : Z)
| JStr (s : string)
| JArr (elements : list json)
| JObj (members : list (string * json)).

Local Set Elimination Schemes.

(** [if res:] on a JSON value ([None] is [JNull]). *)
Definition json_truthy (j : json) : bool :=
  match j with
  | JNull => false
  | JBool b => b
  | JNum n => negb (n =? 0)
  | JStr s => negb (String.eqb s EmptyString)
  | JArr l => match l with [] => false | _ => true end
  | JObj m => match m with [] => false | _ => true end
  end.

(** [obj[k]] when [k in obj]. *)
Fixpoint member (k : string) (m : list (string * json)) : option json :=
  match m with
  | [] => None
  | (k', v) :: r => if String.eqb k' k then Some v else member k r
  end.

(** [s.lower()] *)
Definition lower_char (c : ascii) : ascii :=
  let n := nat_of_ascii c in
  if ((65 <=? n) && (n <=? 90))%nat then ascii_of_nat (n + 32) else c.

Fixpoint lower (s : string) : string :=
  match s with
  | EmptyString => EmptyString
  | String c r => String (lower_char c) (lower r)
  end.

(** ['username' in obj and isinstance(obj['username'], str) and
     obj['username'].lower() == target_username.lower()] *)
Definition names_user (target : string) (m : list (string * json)) : bool :=
  match member "username" m with
  | Some (JStr u) => String.eqb (lower u) (lower target)
  | _ => false
  end.

(** Lines 74-88: [find_id_recursive(obj, target_username)]. *)
Fixpoint find_id_recursive (target : string) (obj : json) : json :=
  match obj with
  | JObj m =>
      let in_values :=
        (fix go (l : list (string * json)) : json :=
           match l with
           | [] => JNull
           | (_, value) :: r =>
               let res := find_id_recursive target value in
               if json_truthy res then res else go r
           end) m in
      if names_user target m then
        match member "id" m with
        | Some v => v
        | None => in_values
        end
      else in_values
  | JArr l =>
      (fix go (l : list json) : json :=
         match l with
         | [] => JNull
         | value :: r =>
             let res := find_id_recursive target value in
             if json_truthy res then res else go r
         end) l
  | _ => JNull
  end.

(** [sub] is [obj] or lies somewhere inside it. *)
Inductive inside (sub : json) : json -> Prop :=
| inside_here : inside sub sub
| inside_element (v : json) (l : list json) :
    In v l -> inside sub v -> inside sub (JArr l)
| inside_member (k : string) (v : json) (m : list (string * json)) :
    In (k, v) m -> inside sub v -> inside sub (JObj m).

(** Page data with the profile of a user nested in it. *)
Definition page_data : json :=
  JObj [("props",
         JObj [("queries",
                JArr [JObj [("state", JNull)];
                      JObj [("username", JStr "Grutzy"); ("id", JNum 77)]])])].

(** * Properties *)

Open Scope list_scope.

(** ** The target directory *)

Lemma lookup_drop_same (p : string) (d : dir) :
  Fs.lookup p (Fs.drop p d) = None.
Proof.
  induction d as [|[n b] r IH]; simpl; auto.
  destruct (String.eqb_spec n p); simpl; auto.
  destruct (String.eqb_spec n p); congruence.
Qed.

Lemma lookup_drop_other (p f : string) (d : dir) :
  f <> p -> Fs.lookup f (Fs.drop p d) = Fs.lookup f d.
Proof.
  intros Hne; induction d as [|[n b] r IH]; simpl; auto.
  destruct (String.eqb_spec n p); subst; simpl.
  - destruct (String.eqb_spec p f); congruence.
  - rewrite IH; reflexivity.
Qed.

Lemma lookup_move_src (src dst : string) (d : dir) :
  src <> dst -> Fs.lookup src (Fs.move src dst d) = None.
Proof.
  intros Hne; induction d as [|[n b] r IH]; simpl; auto.
  destruct (String.eqb_spec n src); subst; simpl.
  - destruct (String.eqb_spec dst src); congruence.
  - destruct (String.eqb_spec n dst); subst; simpl; auto.
    destruct (String.eqb_spec n src); congruence.
Qed.

Lemma lookup_move_dst (src dst : string) (d : dir) (b : bytes) :
  Fs.lookup src d = Some b -> Fs.lookup dst (Fs.move src dst d) = Some b.
Proof.
  induction d as [|[n c] r IH]; simpl; [discriminate|].
  destruct (String.eqb_spec n src); subst; simpl.
  - rewrite String.eqb_refl; auto.
  - intros H; destruct (String.eqb_spec n dst); subst; simpl; auto.
    destruct (String.eqb_spec n dst); [congruence|auto].
Qed.

Lemma lookup_move_other (src dst f : string) (d : dir) :
  f <> src -> f <> dst -> Fs.lookup f (Fs.move src dst d) = Fs.lookup f d.
Proof.
  intros H1 H2; induction d as [|[n c] r IH]; simpl; auto.
  destruct (String.eqb_spec n src); subst; simpl.
  - destruct (String.eqb_spec dst f); destruct (String.eqb_spec src f);
      congruence.
  - destruct (String.eqb_spec n dst); subst; simpl.
    + destruct (String.eqb_spec dst f); congruence.
    + rewrite IH; reflexivity.
Qed.

Lemma lookup_in_names (f : string) (d : dir) (b : bytes) :
  Fs.lookup f d = Some b -> In f (map fst d).
Proof.
  induction d as [|[n c] r IH]; simpl; [discriminate|].
  destruct (String.eqb_spec n f); subst; auto.
Qed.

Lemma in_names_lookup (f : string) (d : dir) :
  In f (map fst d) -> exists b, Fs.lookup f d = Some b.
Proof.
  induction d as [|[n c] r IH]; simpl; [tauto|].
  intros [->|H].
  - rewrite String.eqb_refl; eauto.
  - destruct (String.eqb_spec n f); eauto.
Qed.

Lemma valid_lookup (f : string) (d : dir) :
  Fs.valid f d = true <-> exists b, Fs.lookup f d = Some b /\ b <> [].
Proof.
  unfold Fs.valid, Fs.getsize.
  destruct (Fs.lookup f d) as [b|]; simpl.
  - destruct b; simpl; split.
    + discriminate.
    + intros (b & Hb & Hne); inversion Hb; subst; congruence.
    + intros _; eexists; split; eauto; discriminate.
    + reflexivity.
  - split; [discriminate|intros (b & Hb & _); discriminate].
Qed.

Lemma valid_of_lookup_eq (f g : string) (d d' : dir) :
  Fs.lookup f d' = Fs.lookup g d -> Fs.valid f d' = Fs.valid g d.
Proof. unfold Fs.valid, Fs.getsize; intros ->; reflexivity. Qed.

Lemma in_glob (n : Z) (f : string) (d : dir) :
  In f (glob n d) <-> In f (map fst d) /\ glob_match n f = true.
Proof. unfold glob; apply filter_In. Qed.

(** ** The reconciliation pass *)

Lemma renames_app (l1 l2 : list event) :
  renames (l1 ++ l2) = (renames l1 + renames l2)%nat.
Proof.
  induction l1 as [|e l1 IH]; simpl; auto.
  destruct e; simpl; auto.
Qed.

Lemma do_remove_absent (f : string) (w : world) :
  Fs.exists_ f (files w) = false -> do_remove f w = w.
Proof. unfold do_remove, Fs.remove; intros ->; reflexivity. Qed.

Lemma do_remove_files (f : string) (w : world) :
  files (do_remove f w) = Fs.drop f (files w) \/
  (do_remove f w = w /\ Fs.lookup f (files w) = None).
Proof.
  unfold do_remove, Fs.remove, Fs.exists_.
  destruct (Fs.lookup f (files w)); simpl; auto.
Qed.

Lemma do_remove_lookup_same (f : string) (w : world) :
  Fs.lookup f (files (do_remove f w)) = None.
Proof.
  destruct (do_remove_files f w) as [->|[-> H]]; auto.
  apply lookup_drop_same.
Qed.

Lemma do_remove_lookup_other (f g : string) (w : world) :
  g <> f -> Fs.lookup g (files (do_remove f w)) = Fs.lookup g (files w).
Proof.
  intros Hne; destruct (do_remove_files f w) as [->|[-> H]]; auto.
  apply lookup_drop_other; auto.
Qed.

Lemma do_remove_renames (f : string) (w : world) :
  renames (log (do_remove f w)) = renames (log w).
Proof.
  unfold do_remove; destruct (Fs.remove f (files w)); simpl; auto.
  rewrite renames_app; simpl; lia.
Qed.

Lemma do_remove_sent (f : string) (w : world) :
  sent (do_remove f w) = sent w.
Proof. unfold do_remove; destruct (Fs.remove f (files w)); reflexivity. Qed.

Lemma do_rename_present (src dst : string) (w : world) (b : bytes) :
  Fs.lookup src (files w) = Some b ->
  do_rename src dst w =
  emit (Renamed src dst) (set_files (Fs.move src dst (files w)) w).
Proof. unfold do_rename, Fs.rename, Fs.exists_; intros ->; reflexivity. Qed.

Lemma getsize_some (f : string) (d : dir) (n : nat) :
  Fs.getsize f d = Some n ->
  exists b, Fs.lookup f d = Some b /\ List.length b = n.
Proof.
  unfold Fs.getsize; destruct (Fs.lookup f d); simpl; [|discriminate].
  intros H; inversion H; eauto.
Qed.

(** Both files run the same pass. *)
Lemma collection_dedupe_eq (t : string) (dupes : list string) (w : world) :
  Collection.dedupe t dupes w = User.dedupe t dupes w.
Proof.
  revert w; induction dupes as [|d0 rest IH]; intros w; simpl; auto.
  destruct (String.eqb d0 t); auto.
  destruct (Fs.valid t (files w)).
  - rewrite IH; destruct (Fs.exists_ d0 (files w)) eqn:E; auto.
    rewrite do_remove_absent; auto.
  - destruct (Fs.getsize d0 (files w)); auto.
    destruct (0 <? n)%nat; auto.
Qed.

Lemma user_remove_step (f : string) (w : world) :
  (if Fs.exists_ f (files w) then do_remove f w else w) = do_remove f w.
Proof.
  destruct (Fs.exists_ f (files w)) eqn:E; auto.
  rewrite do_remove_absent; auto.
Qed.

(** The pass makes no request. *)
Lemma dedupe_sent (t : string) (dupes : list string) (w : world) :
  sent (User.dedupe t dupes w) = sent w.
Proof.
  revert w; induction dupes as [|d0 rest IH]; intros w; simpl; auto.
  destruct (String.eqb d0 t); auto.
  destruct (Fs.valid t (files w)).
  - rewrite IH, user_remove_step; apply do_remove_sent.
  - destruct (Fs.getsize d0 (files w)) as [n|] eqn:E; auto.
    destruct (0 <? n)%nat; auto.
    rewrite IH. destruct (getsize_some _ _ _ E) as (b & Hb & _).
    rewrite (do_rename_present _ _ _ _ Hb); reflexivity.
Qed.

(** With a valid target the pass only deletes: the target is untouched, no
    rename happens, every other name of the list is gone, and names outside
    the list are untouched. *)
Lemma dedupe_valid_target (t : string) (dupes : list string) (w : world) :
  Fs.valid t (files w) = true ->
  let w' := User.dedupe t dupes w in
  Fs.lookup t (files w') = Fs.lookup t (files w) /\
  renames (log w') = renames (log w) /\
  (forall f, f <> t -> In f dupes -> Fs.lookup f (files w') = None) /\
  (forall f, ~ In f dupes -> Fs.lookup f (files w') = Fs.lookup f (files w)).
Proof.
  revert w; induction dupes as [|d0 rest IH]; intros w Hv; simpl.
  - refine (conj _ (conj _ (conj _ _))); auto; intros f _ [].
  - destruct (String.eqb_spec d0 t) as [->|Hne].
    + destruct (IH w Hv) as (H1 & H2 & H3 & H4).
      refine (conj H1 (conj H2 (conj _ _))).
      * intros f Hf [->|Hin]; [congruence|auto].
      * intros f Hf; apply H4; tauto.
    + rewrite Hv, user_remove_step.
      assert (Ht : Fs.lookup t (files (do_remove d0 w)) = Fs.lookup t (files w))
        by (apply do_remove_lookup_other; congruence).
      assert (Hv' : Fs.valid t (files (do_remove d0 w)) = true)
        by (rewrite (valid_of_lookup_eq _ _ _ _ Ht); auto).
      destruct (IH _ Hv') as (H1 & H2 & H3 & H4).
      refine (conj _ (conj _ (conj _ _))).
      * congruence.
      * rewrite H2; apply do_remove_renames.
      * intros f Hf [->|Hin]; auto.
        destruct (in_dec string_dec f rest) as [Hin|Hnin]; auto.
        rewrite H4 by auto. apply do_remove_lookup_same.
      * intros f Hf. rewrite H4 by tauto.
        apply do_remove_lookup_other. intros ->; apply Hf; left; auto.
Qed.

Lemma do_rename_target_valid (src t : string) (w : world) (b : bytes) :
  Fs.lookup src (files w) = Some b -> b <> [] ->
  Fs.lookup t (files (do_rename src t w)) = Some b /\
  Fs.valid t (files (do_rename src t w)) = true /\
  renames (log (do_rename src t w)) = S (renames (log w)).
Proof.
  intros Hb Hne. rewrite (do_rename_present _ _ _ _ Hb); simpl.
  assert (H : Fs.lookup t (Fs.move src t (files w)) = Some b)
    by (apply lookup_move_dst; auto).
  split; [auto|split].
  - apply valid_lookup; eauto.
  - rewrite renames_app; simpl; lia.
Qed.

Lemma nonempty_of_size (b : bytes) (n : nat) :
  List.length b = n -> (0 <? n)%nat = true -> b <> [].
Proof. intros <- H ->; discriminate. Qed.

(** A file other than the target is never created or changed by the pass:
    it keeps its bytes or disappears. *)
Lemma dedupe_keeps_or_drops (t : string) (dupes : list string) (w : world)
  (f : string) :
  f <> t ->
  Fs.lookup f (files (User.dedupe t dupes w)) = Fs.lookup f (files w) \/
  Fs.lookup f (files (User.dedupe t dupes w)) = None.
Proof.
  intros Hf; revert w; induction dupes as [|d0 rest IH]; intros w; simpl; auto.
  destruct (String.eqb_spec d0 t) as [->|Hne]; auto.
  destruct (Fs.valid t (files w)).
  - rewrite user_remove_step.
    destruct (IH (do_remove d0 w)) as [E|E]; auto.
    rewrite E. destruct (string_dec f d0) as [->|Hd].
    + right; apply do_remove_lookup_same.
    + left; apply do_remove_lookup_other; auto.
  - destruct (Fs.getsize d0 (files w)) as [n|] eqn:Hs; auto.
    destruct (0 <? n)%nat; auto.
    destruct (getsize_some _ _ _ Hs) as (b & Hb & _).
    destruct (IH (do_rename d0 t w)) as [E|E]; auto.
    rewrite E, (do_rename_present _ _ _ _ Hb); simpl.
    destruct (string_dec f d0) as [->|Hd].
    + right; apply lookup_move_src; auto.
    + left; apply lookup_move_other; auto.
Qed.

Lemma dedupe_keeps_invalid (t : string) (dupes : list string) (w : world)
  (f : string) :
  f <> t -> Fs.valid f (files w) = false ->
  Fs.valid f (files (User.dedupe t dupes w)) = false.
Proof.
  intros Hf Hv.
  destruct (dedupe_keeps_or_drops t dupes w f Hf) as [E|E].
  - rewrite (valid_of_lookup_eq _ _ _ _ E); auto.
  - unfold Fs.valid, Fs.getsize; rewrite E; reflexivity.
Qed.

(** At most one rename in a pass. *)
Lemma dedupe_renames (t : string) (dupes : list string) (w : world) :
  (renames (log (User.dedupe t dupes w)) <= renames (log w) + 1)%nat.
Proof.
  revert w; induction dupes as [|d0 rest IH]; intros w; simpl; [lia|].
  destruct (String.eqb_spec d0 t) as [->|Hne]; auto.
  destruct (Fs.valid t (files w)) eqn:Hv.
  - rewrite user_remove_step.
    specialize (IH (do_remove d0 w)); rewrite do_remove_renames in IH; auto.
  - destruct (Fs.getsize d0 (files w)) as [n|] eqn:Hs; [|lia].
    destruct (0 <? n)%nat eqn:Hn; auto.
    destruct (getsize_some _ _ _ Hs) as (b & Hb & Hlen).
    destruct (do_rename_target_valid d0 t w b Hb (nonempty_of_size _ _ Hlen Hn))
      as (_ & Hv' & Hr).
    destruct (dedupe_valid_target t rest _ Hv') as (_ & H2 & _).
    rewrite H2, Hr; lia.
Qed.

(** Every file of the list, other than the target, is invalid afterwards,
    provided the list names files that exist (as a fresh [glob] does). *)
Lemma dedupe_clears (t : string) (dupes : list string) (w : world) :
  (Fs.valid t (files w) = true \/
   forall g, In g dupes -> Fs.exists_ g (files w) = true) ->
  forall f, f <> t -> In f dupes ->
            Fs.valid f (files (User.dedupe t dupes w)) = false.
Proof.
  revert w; induction dupes as [|d0 rest IH]; intros w Hinv f Hf Hin;
    [destruct Hin|].
  simpl. destruct (String.eqb_spec d0 t) as [->|Hne].
  - destruct Hin as [->|Hin]; [congruence|].
    apply IH; auto. destruct Hinv as [?|Hall]; auto.
    right; intros g Hg; apply Hall; right; auto.
  - destruct (Fs.valid t (files w)) eqn:Hv.
    + rewrite user_remove_step.
      assert (Hv' : Fs.valid t (files (do_remove d0 w)) = true).
      { rewrite (valid_of_lookup_eq t t (files w)); auto.
        apply do_remove_lookup_other; congruence. }
      destruct (in_dec string_dec f rest) as [Hr|Hr]; [apply IH; auto|].
      destruct Hin as [->|Hin]; [|contradiction].
      apply dedupe_keeps_invalid; auto.
      unfold Fs.valid, Fs.getsize; rewrite do_remove_lookup_same; reflexivity.
    + destruct Hinv as [Hinv|Hall]; [congruence|].
      assert (Hex := Hall d0 (or_introl eq_refl)).
      unfold Fs.exists_ in Hex.
      destruct (Fs.lookup d0 (files w)) as [b|] eqn:Hb; [|discriminate].
      unfold Fs.getsize; rewrite Hb; simpl.
      destruct (0 <? List.length b)%nat eqn:Hn.
      * destruct (do_rename_target_valid d0 t w b Hb
                    (nonempty_of_size _ _ eq_refl Hn)) as (_ & Hv' & _).
        destruct (in_dec string_dec f rest) as [Hr|Hr]; [apply IH; auto|].
        destruct Hin as [->|Hin]; [|contradiction].
        apply dedupe_keeps_invalid; auto.
        rewrite (do_rename_present _ _ _ _ Hb); simpl.
        unfold Fs.valid, Fs.getsize; rewrite lookup_move_src; auto.
      * destruct (in_dec string_dec f rest) as [Hr|Hr].
        -- apply IH; auto. right; intros g Hg; apply Hall; right; auto.
        -- destruct Hin as [->|Hin]; [|contradiction].
           apply dedupe_keeps_invalid; auto.
           unfold Fs.valid, Fs.getsize; rewrite Hb; simpl; auto.
Qed.

(** The first non-empty file of the list takes the target's place. *)
Lemma dedupe_recovers (t : string) (pre post : list string) (f : string)
  (b : bytes) (w : world) :
  Fs.valid t (files w) = false ->
  (forall g, In g pre -> g = t \/ Fs.getsize g (files w) = Some O) ->
  f <> t -> Fs.lookup f (files w) = Some b -> b <> [] ->
  let w' := User.dedupe t (pre ++ f :: post) w in
  Fs.lookup t (files w') = Some b /\ Fs.lookup f (files w') = None.
Proof.
  intros Hv Hpre Hf Hb Hne; induction pre as [|g pre IH]; simpl.
  - destruct (String.eqb_spec f t); [congruence|].
    rewrite Hv. unfold Fs.getsize; rewrite Hb; simpl.
    destruct b as [|x b]; [congruence|]; simpl.
    destruct (do_rename_target_valid f t w _ Hb Hne) as (Ht & Hv' & _).
    destruct (dedupe_valid_target t post _ Hv') as (H1 & _ & H3 & H4).
    split; [congruence|].
    destruct (in_dec string_dec f post) as [Hin|Hin]; auto.
    rewrite H4 by auto.
    rewrite (do_rename_present _ _ _ _ Hb); simpl.
    apply lookup_move_src; auto.
  - assert (IH' := IH (fun g' Hg' => Hpre g' (or_intror Hg'))).
    destruct (String.eqb_spec g t) as [->|Hg]; auto.
    rewrite Hv.
    destruct (Hpre g (or_introl eq_refl)) as [?|Hs]; [congruence|].
    rewrite Hs; simpl; auto.
Qed.

Lemma glob_names_exist (n : Z) (w : world) (g : string) :
  In g (glob n (files w)) -> Fs.exists_ g (files w) = true.
Proof.
  intros Hg; apply in_glob in Hg; destruct Hg as [Hg _].
  destruct (in_names_lookup _ _ Hg) as (b & Hb).
  unfold Fs.exists_; rewrite Hb; reflexivity.
Qed.

(** C3. The reconciliation pass of [download_image] for an item with id N,
    the same in both files.  When the target path is already valid
    (present and non-empty) it keeps its bytes and every other file
    matching [*_N.*] is deleted.  Otherwise the first non-empty match in
    listing order is renamed to the target path with its bytes, the
    matches listed before it being empty.  A pass renames at most once,
    and after it the only file matching [*_N.*] that can be valid is the
    target path. *)
Theorem reconciliation_pass (it : item) (p : plan) (w : world) :
  let t := filename p in
  let w' := User.reconcile it p w in
  Collection.reconcile it p w = w' /\
  (Fs.valid t (files w) = true ->
   Fs.lookup t (files w') = Fs.lookup t (files w) /\
   forall f, glob_match (id it) f = true -> f <> t ->
             Fs.lookup f (files w') = None) /\
  (Fs.valid t (files w) = false ->
   forall pre f post b,
     glob (id it) (files w) = (pre ++ f :: post)%list ->
     (forall g, In g pre -> g = t \/ Fs.valid g (files w) = false) ->
     f <> t -> Fs.lookup f (files w) = Some b -> b <> [] ->
     Fs.lookup t (files w') = Some b /\ Fs.lookup f (files w') = None) /\
  (renames (log w') <= renames (log w) + 1)%nat /\
  (forall f, glob_match (id it) f = true ->
             Fs.valid f (files w') = true -> f = t).
Proof.
  intros t w'; subst w'; unfold User.reconcile, Collection.reconcile.
  fold t. refine (conj _ (conj _ (conj _ (conj _ _)))).
  - apply collection_dedupe_eq.
  - intros Hv.
    destruct (dedupe_valid_target t (glob (id it) (files w)) w Hv)
      as (H1 & _ & H3 & H4).
    split; auto. intros f Hm Hf.
    destruct (in_dec string_dec f (glob (id it) (files w))) as [Hin|Hin]; auto.
    rewrite H4 by auto.
    destruct (Fs.lookup f (files w)) as [b|] eqn:Hb; auto.
    exfalso; apply Hin, in_glob; split; auto.
    eapply lookup_in_names; eauto.
  - intros Hv pre f post b Hg Hpre Hf Hb Hne. rewrite Hg.
    apply dedupe_recovers; auto.
    intros g Hin. destruct (Hpre g Hin) as [?|Hinv]; auto.
    destruct (string_dec g t); auto. right.
    assert (Hex : Fs.exists_ g (files w) = true).
    { apply (glob_names_exist (id it)); rewrite Hg; apply in_or_app; auto. }
    unfold Fs.exists_ in Hex. unfold Fs.valid, Fs.getsize in *.
    destruct (Fs.lookup g (files w)) as [c|]; [|discriminate].
    simpl in *. destruct c; [reflexivity|discriminate].
  - apply dedupe_renames.
  - intros f Hm Hv. destruct (string_dec f t) as [|Hf]; auto.
    exfalso.
    destruct (dedupe_keeps_or_drops t (glob (id it) (files w)) w f Hf)
      as [E|E].
    + assert (Hin : In f (glob (id it) (files w))).
      { apply in_glob; split; auto.
        apply valid_lookup in Hv; destruct Hv as (b & Hb & _).
        rewrite E in Hb; eapply lookup_in_names; eauto. }
      rewrite dedupe_clears in Hv; auto; [discriminate|].
      right; intros g; apply glob_names_exist.
    + unfold Fs.valid, Fs.getsize in Hv; rewrite E in Hv; discriminate.
Qed.

(** ** Files already present *)

Lemma reconcile_is_user (s : script) (it : item) (p : plan) (w : world) :
  reconcile s it p w = User.dedupe (filename p) (glob (id it) (files w)) w.
Proof.
  destruct s; simpl; unfold User.reconcile, Collection.reconcile; auto.
  apply collection_dedupe_eq.
Qed.

Lemma download_unfold (s : script) (srv : server) (it : item) (p : plan)
  (w : world) :
  prepare s it = Some p ->
  Fs.valid (filename p) (files (reconcile s it p w)) = true ->
  download_image s srv it w = (true, reconcile s it p w).
Proof.
  destruct s; simpl; intros Hp Hv;
    unfold User.download_image, Collection.download_image;
    rewrite Hp, Hv; reflexivity.
Qed.

Lemma dedupe_only_target (t : string) (l : list string) (w : world) :
  (forall g, In g l -> g = t) -> User.dedupe t l w = w.
Proof.
  induction l as [|g l IH]; intros H; simpl; auto.
  rewrite (H g (or_introl eq_refl)), String.eqb_refl.
  apply IH; intros g' Hg'; apply H; right; auto.
Qed.

Lemma dedupe_valid_clears_matches (n : Z) (t : string) (w : world) :
  Fs.valid t (files w) = true ->
  forall f, glob_match n f = true -> f <> t ->
            Fs.lookup f (files (User.dedupe t (glob n (files w)) w)) = None.
Proof.
  intros Hv f Hm Hf.
  destruct (dedupe_valid_target t (glob n (files w)) w Hv)
    as (_ & _ & H3 & H4).
  destruct (in_dec string_dec f (glob n (files w))) as [Hin|Hin]; auto.
  rewrite H4 by auto.
  destruct (Fs.lookup f (files w)) as [b|] eqn:Hb; auto.
  exfalso; apply Hin, in_glob; split; auto.
  eapply lookup_in_names; eauto.
Qed.

(** A pass over a directory whose target is valid is a fixed point of the
    pass. *)
Lemma reconcile_twice (s : script) (it : item) (p : plan) (w : world) :
  Fs.valid (filename p) (files w) = true ->
  reconcile s it p (reconcile s it p w) = reconcile s it p w.
Proof.
  intros Hv. rewrite !reconcile_is_user.
  set (t := filename p) in *.
  set (w1 := User.dedupe t (glob (id it) (files w)) w).
  apply dedupe_only_target. intros g Hg.
  destruct (string_dec g t) as [|Hne]; auto. exfalso.
  apply in_glob in Hg; destruct Hg as [Hin Hm].
  destruct (in_names_lookup _ _ Hin) as (b & Hb).
  unfold w1 in Hb.
  rewrite (dedupe_valid_clears_matches (id it) t w Hv g Hm Hne) in Hb.
  discriminate.
Qed.

Lemma reconcile_keeps_valid_target (s : script) (it : item) (p : plan)
  (w : world) :
  Fs.valid (filename p) (files w) = true ->
  Fs.lookup (filename p) (files (reconcile s it p w)) =
  Fs.lookup (filename p) (files w) /\
  Fs.valid (filename p) (files (reconcile s it p w)) = true.
Proof.
  intros Hv. rewrite reconcile_is_user.
  destruct (dedupe_valid_target (filename p) (glob (id it) (files w)) w Hv)
    as (H1 & _).
  split; auto. rewrite (valid_of_lookup_eq _ _ _ _ H1); auto.
Qed.

Lemma reconcile_sent (s : script) (it : item) (p : plan) (w : world) :
  sent (reconcile s it p w) = sent w.
Proof. rewrite reconcile_is_user; apply dedupe_sent. Qed.

(** C2, as the code has it.  An item whose target path is valid after the
    reconciliation pass is reported as a success without any request, in
    both files.  A second run on the resulting directory reports it again,
    without a request and with the target's bytes untouched; from then on
    the directory no longer changes, and it does not change in the second
    run either when the target was valid before the first. *)
Theorem already_present_needs_no_request (s : script) (srv : server)
  (it : item) (p : plan) (w : world) :
  prepare s it = Some p ->
  Fs.valid (filename p) (files (reconcile s it p w)) = true ->
  let w1 := reconcile s it p w in
  let w2 := reconcile s it p w1 in
  download_image s srv it w = (true, w1) /\ sent w1 = sent w /\
  download_image s srv it w1 = (true, w2) /\ sent w2 = sent w /\
  Fs.lookup (filename p) (files w2) = Fs.lookup (filename p) (files w1) /\
  download_image s srv it w2 = (true, w2) /\
  (Fs.valid (filename p) (files w) = true -> w2 = w1).
Proof.
  intros Hp Hv w1 w2.
  destruct (reconcile_keeps_valid_target s it p w1 Hv) as [Hl Hv2].
  assert (H3 : reconcile s it p w2 = w2) by (apply reconcile_twice; auto).
  refine (conj _ (conj _ (conj _ (conj _ (conj _ (conj _ _)))))).
  - apply download_unfold; auto.
  - apply reconcile_sent.
  - apply download_unfold; auto.
  - unfold w2, w1; rewrite !reconcile_sent; reflexivity.
  - exact Hl.
  - rewrite <- H3 at 2. apply download_unfold; auto. rewrite H3; auto.
  - intros Hv0. apply reconcile_twice; auto.
Qed.

Lemma already_present_witness :
  download_image UserScript offline item_42 (fresh old_dir) =
  (true, mk_world [("newname_42.png", png_bytes)] 0
           [Renamed "oldname_42.png" "newname_42.png"]).
Proof.
  refine (proj1 (already_present_needs_no_request UserScript offline
                   item_42 plan_42 (fresh old_dir) _ _));
    vm_compute; reflexivity.
Defined.

(** C2, as stated, fails on the directory state: with an empty stale file
    listed before the file that is renamed, the first run leaves the empty
    file in place and the second run deletes it. *)
Lemma second_run_deletes_empty_stale_file :
  prepare UserScript item_42 = Some plan_42 /\
  Fs.valid (filename plan_42)
    (files (reconcile UserScript item_42 plan_42 (fresh stale_dir))) = true /\
  download_image UserScript offline item_42 (fresh stale_dir) =
  (true, mk_world [("a_42.png", []); ("newname_42.png", png_bytes)] 0
           [Renamed "oldname_42.png" "newname_42.png"]) /\
  files (snd (download_image UserScript offline item_42
                (snd (download_image UserScript offline item_42
                        (fresh stale_dir))))) =
  [("newname_42.png", png_bytes)].
Proof. vm_compute; repeat split. Qed.

(** The scenario of the design document: [oldname_42.png] is recovered as
    [newname_42.png] with its bytes while the host cannot be reached, and
    deleted when [newname_42.png] is already there. *)
Example reconciliation_scenario :
  files (snd (download_image UserScript offline item_42 (fresh old_dir))) =
  [("newname_42.png", png_bytes)] /\
  files (snd (download_image CollectionScript offline item_42
                (fresh [("newname_42.png", [Byte.x01]);
                        ("oldname_42.png", png_bytes)]))) =
  [("newname_42.png", [Byte.x01])].
Proof. vm_compute; split; reflexivity. Qed.

(** ** Rate limiting *)

Lemma range_length (n : nat) : List.length (range n) = n.
Proof. unfold range; rewrite length_map, length_seq; reflexivity. Qed.

Lemma rate_limited_step (s : script) (srv : server) (p : plan) (a : Z)
  (w : world) :
  rate_limited (srv (sent w) (original_url p)) ->
  match s with
  | UserScript => User.attempt_body srv p a w
  | CollectionScript => Collection.attempt_body srv p a w
  end =
  Next (mk_world (files w) (S (sent w))
          (log w ++ rate_limited_attempt (original_url p) a)%list).
Proof.
  intros H.
  assert (E : forall l : list event,
             ((((l ++ [Jitter]) ++ [Get (original_url p)]) ++
               [Sleep ((a + 1) * 10)])%list =
              (l ++ rate_limited_attempt (original_url p) a)%list))
    by (intros l; rewrite <- !app_assoc; reflexivity).
  destruct s; unfold User.attempt_body, Collection.attempt_body, request, emit;
    simpl in *;
    destruct (srv (sent w) (original_url p)) as [st e b|text]; simpl in H;
    try (subst st; simpl; rewrite E; reflexivity);
    unfold on_request_exception; rewrite H; unfold emit; simpl;
    rewrite E; reflexivity.
Qed.

Lemma rate_limited_attempts (s : script) (srv : server) (p : plan)
  (l : list Z) (w : world) :
  (forall n u, rate_limited (srv n u)) ->
  for_attempts
    (match s with
     | UserScript => User.attempt_body srv p
     | CollectionScript => Collection.attempt_body srv p
     end) l w =
  (None, mk_world (files w) (sent w + List.length l)
           (log w ++ flat_map (rate_limited_attempt (original_url p)) l)%list).
Proof.
  intros H; revert w; induction l as [|a l IH]; intros w; simpl.
  - rewrite Nat.add_0_r, app_nil_r; destruct w; reflexivity.
  - pose proof (rate_limited_step s srv p a w (H _ _)) as E.
    destruct s; rewrite E, IH; simpl;
      rewrite <- app_assoc, Nat.add_succ_r; reflexivity.
Qed.

(** C5. Against a host every answer of which is a rate limit (status 429,
    or an exception whose text contains 429), [download_image] of either
    file makes exactly [max_retries] = 10 requests to the canonical URL,
    sleeps [(attempt + 1) * 10] seconds after each, writes nothing and
    returns [False]. *)
Theorem rate_limited_download_fails_after_ten (s : script) (srv : server)
  (it : item) (p : plan) (w : world) :
  prepare s it = Some p ->
  Fs.valid (filename p) (files (reconcile s it p w)) = false ->
  (forall n u, rate_limited (srv n u)) ->
  let w1 := reconcile s it p w in
  download_image s srv it w =
  (false,
   mk_world (files w1) (sent w + 10)
     (log w1 ++ flat_map (rate_limited_attempt (original_url p))
                  [0; 1; 2; 3; 4; 5; 6; 7; 8; 9])%list).
Proof.
  intros Hp Hv Hsrv w1; subst w1.
  pose proof (rate_limited_attempts s srv p (range 10)
                (reconcile s it p w) Hsrv) as E.
  rewrite range_length, reconcile_sent in E.
  destruct s; cbn [reconcile prepare download_image] in *;
    unfold User.download_image, Collection.download_image;
    rewrite Hp; cbv zeta; rewrite Hv;
    unfold User.max_retries, Collection.max_retries; rewrite E; reflexivity.
Qed.

Lemma rate_limited_witness :
  download_image UserScript throttling item_42 (fresh []) =
  (false,
   mk_world [] 10
     (flat_map (rate_limited_attempt (original_url plan_42))
        [0; 1; 2; 3; 4; 5; 6; 7; 8; 9])).
Proof.
  refine (rate_limited_download_fails_after_ten UserScript throttling
            item_42 plan_42 (fresh []) _ _ _).
  - vm_compute; reflexivity.
  - vm_compute; reflexivity.
  - intros n u; simpl; reflexivity.
Defined.

(** ** The size check after a download *)

Lemma lookup_overwrite (f : string) (b : bytes) (d : dir) :
  Fs.exists_ f d = true -> Fs.lookup f (Fs.overwrite f b d) = Some b.
Proof.
  unfold Fs.exists_; induction d as [|[n c] r IH]; simpl; [discriminate|].
  destruct (String.eqb_spec n f); subst; simpl.
  - rewrite String.eqb_refl; reflexivity.
  - destruct (String.eqb_spec n f); [congruence|auto].
Qed.

Lemma lookup_append (f : string) (b : bytes) (d : dir) :
  Fs.exists_ f d = false -> Fs.lookup f (d ++ [(f, b)]) = Some b.
Proof.
  unfold Fs.exists_; induction d as [|[n c] r IH]; simpl.
  - rewrite String.eqb_refl; reflexivity.
  - destruct (String.eqb_spec n f); [discriminate|auto].
Qed.

Lemma lookup_write (f : string) (b : bytes) (d : dir) :
  Fs.lookup f (Fs.write f b d) = Some b.
Proof.
  unfold Fs.write; destruct (Fs.exists_ f d) eqn:E.
  - apply lookup_overwrite; auto.
  - apply lookup_append; auto.
Qed.

Lemma getsize_write (f : string) (b : bytes) (w : world) :
  Fs.getsize f (files (do_write f b w)) = Some (List.length b).
Proof. unfold Fs.getsize, do_write; simpl; rewrite lookup_write; auto. Qed.

Lemma for_attempts_leaves {A : Type} (body : Z -> world -> outcome A)
  (l : list Z) (w w' : world) (v : A) :
  for_attempts body l w = (Some v, w') ->
  exists a w0, In a l /\ body a w0 = Leave v w'.
Proof.
  revert w; induction l as [|a l IH]; intros w; simpl; [discriminate|].
  destruct (body a w) as [v0 w0|w0] eqn:E.
  - intros H; inversion H; subst; exists a, w; auto.
  - intros H; destruct (IH _ H) as (a' & w1 & Hin & Hb); eauto.
Qed.

Lemma user_finish_success (p : plan) (a : Z) (r : Z * string * stream)
  (w w' : world) :
  User.finish p a r w = Leave true w' ->
  Fs.valid (filename p) (files w') = true.
Proof.
  destruct r as [[st e] [b|b t]]; unfold User.finish;
    (destruct (is_error_status st); [discriminate|]); [|discriminate].
  rewrite getsize_write.
  destruct (0 <? List.length b)%nat eqn:Hn; [|discriminate].
  intros H; inversion H; subst.
  unfold Fs.valid; rewrite getsize_write, Hn; reflexivity.
Qed.

(** In civitai_downloader.py a success is only reported for a target that
    is non-empty on disk. *)
Lemma user_success_is_nonempty (srv : server) (it : item) (p : plan)
  (w w' : world) :
  User.prepare it = Some p ->
  User.download_image srv it w = (true, w') ->
  Fs.valid (filename p) (files w') = true.
Proof.
  intros Hp; unfold User.download_image; rewrite Hp; cbv zeta.
  destruct (Fs.valid (filename p) (files (User.reconcile it p w))) eqn:Hv.
  - intros H; inversion H; subst; auto.
  - destruct (for_attempts (User.attempt_body srv p) (range User.max_retries)
                (User.reconcile it p w)) as [[v|] w1] eqn:E; simpl;
      [|discriminate].
    intros H; inversion H; subst.
    destruct (for_attempts_leaves _ _ _ _ _ E) as (a & w0 & _ & Hb).
    revert Hb; unfold User.attempt_body.
    destruct (request srv (original_url p) (emit Jitter w0)) as [[st e b|t] w1].
    + destruct (st =? 429); [discriminate|].
      destruct (negb (st =? 200)); [|apply user_finish_success].
      destruct (negb (original_url p =? plan_url p)%string &&
                Py.startswith (plan_url p) "http");
        [|apply user_finish_success].
      destruct (request srv (plan_url p) w1) as [[st' e' b'|t'] w2];
        [|discriminate].
      destruct (st' =? 429); [discriminate|apply user_finish_success].
    + discriminate.
Qed.

(** C6 at the failing input.  In civitai_collection_downloader.py a 200
    answer with an empty body is written out and reported as a success:
    the target is left as a zero-byte file after a single request, where
    civitai_downloader.py keeps retrying and ends with a failure. *)
Theorem collection_reports_empty_file_as_success :
  download_image CollectionScript hollow item_42 (fresh []) =
  (true,
   mk_world [("newname_42.png", [])] 1
     [Jitter; Get (original_url plan_42); Wrote "newname_42.png"]) /\
  fst (download_image UserScript hollow item_42 (fresh [])) = false /\
  sent (snd (download_image UserScript hollow item_42 (fresh []))) = 10%nat.
Proof. vm_compute; repeat split. Qed.

(** ** The two workers compared *)








(** ** Extension of a video *)

Lemma user_video_ext (it : item) (u : string) :
  type it = Some "video" -> User.resolve_ext it u = "mp4".
Proof.
  intros H; unfold User.resolve_ext; rewrite H; simpl.
  destruct (Py.endswith u ".mp4"); reflexivity.
Qed.

Lemma collection_video_ext (it : item) (u : string) :
  type it = Some "video" -> Collection.resolve_ext it u = "mp4".
Proof.
  intros H; unfold Collection.resolve_ext; rewrite H; simpl.
  rewrite orb_true_r; reflexivity.
Qed.

(** C9. For an item whose [type] is [video] both files resolve the
    extension [mp4], whatever the URL ends in. *)
Theorem video_kind_gives_mp4 (s : script) (it : item) (p : plan) :
  type it = Some "video" -> prepare s it = Some p -> ext p = "mp4".
Proof.
  intros Hv; destruct s; simpl; unfold User.prepare, Collection.prepare;
    destruct (negb (Py.truthy (url it))); try discriminate;
    destruct (url it) as [u|]; try discriminate;
    try (destruct (Collection.creator it) as [creator|] eqn:Hc;
         [|discriminate]);
    intros H; inversion H; subst; simpl.
  - apply user_video_ext; auto.
  - apply collection_video_ext; auto.
Qed.

(** The pinned example: kind video, no [mimeType], URL ending in [.webm]. *)
Lemma webm_video_witness :
  ext (mk_plan "https://image.civitai.com/x/clip.webm"
         "https://image.civitai.com/x/clip.webm"
         (User.resolve_ext webm_item "https://image.civitai.com/x/clip.webm")
         "clip_7.mp4") = "mp4".
Proof.
  refine (video_kind_gives_mp4 UserScript webm_item _ _ _);
    vm_compute; reflexivity.
Defined.

Example webm_video_file_names :
  option_map filename (prepare UserScript webm_item) = Some "clip_7.mp4" /\
  option_map filename (prepare CollectionScript webm_item) = Some "clip_7.mp4".
Proof. vm_compute; split; reflexivity. Qed.

(** ** The merge step *)

Lemma find_app_first {A : Type} (f : A -> bool) (l1 l2 : list A) :
  find f (l1 ++ l2) =
  match find f l1 with Some x => Some x | None => find f l2 end.
Proof.
  induction l1 as [|x l1 IH]; simpl; auto.
  destruct (f x); auto.
Qed.

Lemma dict_get_set_same (k : Z) (v : item) (d : dict) :
  dict_get k (dict_set k v d) = Some v.
Proof.
  unfold dict_get; induction d as [|[k' v'] r IH]; simpl.
  - rewrite Z.eqb_refl; reflexivity.
  - destruct (k' =? k) eqn:E; simpl; rewrite E; auto.
Qed.

Lemma dict_get_set_other (k k' : Z) (v : item) (d : dict) :
  k' <> k -> dict_get k' (dict_set k v d) = dict_get k' d.
Proof.
  intros Hne; unfold dict_get; induction d as [|[k0 v0] r IH]; simpl.
  - destruct (Z.eqb_spec k k'); [congruence|reflexivity].
  - destruct (Z.eqb_spec k0 k); subst; simpl.
    + destruct (Z.eqb_spec k k'); [congruence|reflexivity].
    + destruct (Z.eqb_spec k0 k'); auto.
Qed.

Lemma dict_has_get (k : Z) (d : dict) :
  dict_has k d = match dict_get k d with Some _ => true | None => false end.
Proof.
  unfold dict_has, dict_get; induction d as [|[k0 v0] r IH]; simpl; auto.
  destruct (k0 =? k); simpl; auto.
Qed.

Lemma dict_set_keys (k : Z) (v : item) (d : dict) :
  map fst (dict_set k v d) =
  if dict_has k d then map fst d else map fst d ++ [k].
Proof.
  unfold dict_has; induction d as [|[k0 v0] r IH]; simpl; auto.
  destruct (k0 =? k) eqn:E; simpl; auto.
  rewrite IH; destruct (existsb _ r); reflexivity.
Qed.

Lemma dict_has_in (k : Z) (d : dict) :
  dict_has k d = true <-> In k (map fst d).
Proof.
  unfold dict_has; rewrite existsb_exists, in_map_iff; split.
  - intros (kv & Hin & E); apply Z.eqb_eq in E; eauto.
  - intros (kv & E & Hin); exists kv; split; auto; apply Z.eqb_eq; auto.
Qed.

Lemma dict_set_in (k : Z) (v : item) (d : dict) (kv : Z * item) :
  In kv (dict_set k v d) -> kv = (k, v) \/ In kv d.
Proof.
  induction d as [|[k0 v0] r IH]; simpl; [intuition|].
  destruct (Z.eqb_spec k0 k); subst; simpl; intuition.
Qed.

Lemma dict_set_well_keyed (v : item) (d : dict) :
  well_keyed d -> well_keyed (dict_set (id v) v d).
Proof.
  intros [Hnd Hid]; split.
  - rewrite dict_set_keys. destruct (dict_has (id v) d) eqn:E; auto.
    apply NoDup_app; [auto|repeat constructor; intros []|].
    intros a Ha [<-|[]]. apply dict_has_in in Ha; congruence.
  - intros kv Hin; destruct (dict_set_in _ _ _ _ Hin) as [->|H]; auto.
Qed.

Lemma well_keyed_values (d : dict) (k : Z) :
  well_keyed d -> find_id k (dict_values d) = dict_get k d.
Proof.
  intros [_ Hid]; unfold find_id, dict_values, dict_get.
  induction d as [|[k0 v0] r IH]; simpl; auto.
  pose proof (Hid (k0, v0) (or_introl eq_refl)) as E; simpl in E; rewrite E.
  destruct (k0 =? k); auto.
  apply IH; intros kv Hin; apply Hid; right; auto.
Qed.

Lemma well_keyed_ids (d : dict) :
  well_keyed d -> NoDup (map id (dict_values d)).
Proof.
  intros [Hnd Hid]; unfold dict_values; rewrite map_map.
  rewrite (map_ext_in _ fst); auto.
Qed.

Lemma images_fold_well_keyed (images : list item) (d : dict) :
  well_keyed d ->
  well_keyed (fold_left (fun d img => dict_set (id img) img d) images d).
Proof.
  revert d; induction images as [|x xs IH]; intros d H; simpl; auto.
  apply IH, dict_set_well_keyed; auto.
Qed.

Lemma posts_fold_well_keyed (posts : list item) (d : dict) :
  well_keyed d -> well_keyed (add_missing posts d).
Proof.
  unfold add_missing; revert d; induction posts as [|x xs IH]; intros d H;
    simpl; auto.
  apply IH; destruct (dict_has (id x) d); auto.
  apply dict_set_well_keyed; auto.
Qed.

(** The comprehension keeps, for each id, the last image listed with it. *)
Lemma images_fold_get (images : list item) (d : dict) (k : Z) :
  dict_get k (fold_left (fun d img => dict_set (id img) img d) images d) =
  match find_id k (rev images) with
  | Some x => Some x
  | None => dict_get k d
  end.
Proof.
  revert d; induction images as [|x xs IH]; intros d; simpl; auto.
  rewrite IH; unfold find_id; rewrite find_app_first; simpl.
  destruct (find (fun x0 => id x0 =? k) (rev xs)); auto.
  destruct (Z.eqb_spec (id x) k) as [<-|Hne].
  - apply dict_get_set_same.
  - apply dict_get_set_other; auto.
Qed.

(** The loop over the post images only fills ids that are still free, with
    the first post image listed with the id. *)
Lemma posts_fold_get (posts : list item) (d : dict) (k : Z) :
  dict_get k (add_missing posts d) =
  match dict_get k d with
  | Some x => Some x
  | None => find_id k posts
  end.
Proof.
  unfold add_missing; revert d; induction posts as [|x xs IH]; intros d;
    simpl.
  - destruct (dict_get k d); auto.
  - rewrite IH, dict_has_get.
    destruct (dict_get (id x) d) as [y|] eqn:E.
    + destruct (dict_get k d) eqn:E'; auto.
      destruct (Z.eqb_spec (id x) k); [congruence|reflexivity].
    + destruct (Z.eqb_spec (id x) k) as [<-|Hne].
      * rewrite dict_get_set_same, E; reflexivity.
      * rewrite dict_get_set_other by auto. reflexivity.
Qed.

Lemma empty_well_keyed : well_keyed [].
Proof. split; [constructor|intros kv []]. Qed.

(** C4, as the code has it.  The merged list has no two items with the
    same id.  For an id listed among the direct images the item kept is
    the last direct image with that id; a post image never replaces it.
    For an id listed only among the post images the item kept is the first
    post image with that id. *)
Theorem merge_keeps_one_item_per_id (images posts : list item) :
  NoDup (map id (merge_items images posts)) /\
  forall k,
    find_id k (merge_items images posts) =
    match find_id k (rev images) with
    | Some x => Some x
    | None => find_id k posts
    end.
Proof.
  assert (Hwk : well_keyed (add_missing posts (dict_of_images images)))
    by (apply posts_fold_well_keyed, images_fold_well_keyed, empty_well_keyed).
  split.
  - apply well_keyed_ids; auto.
  - intros k; unfold merge_items.
    rewrite (well_keyed_values _ k Hwk), posts_fold_get.
    unfold dict_of_images; rewrite images_fold_get.
    destruct (find_id k (rev images)); reflexivity.
Qed.

(** C4, as stated, fails: of two direct images with the same id the
    second one is kept, not the first. *)
Lemma merge_keeps_last_direct_image :
  merge_items [shot_a; shot_b] [] = [shot_b] /\
  name shot_a = Some "first" /\ name shot_b = Some "second" /\
  merge_items [shot_a] [shot_b] = [shot_a] /\
  merge_items [] [shot_a; shot_b] = [shot_a].
Proof. vm_compute; repeat split. Qed.

(** ** Pagination: the cursor that repeats *)

(** [get_posts] leaves the loop after a page whose [nextCursor] is the
    cursor it was asked with. *)
Lemma get_posts_stops_on_repeated_cursor (parse_iso : string -> option Z)
  (after_date : option Z) (q : owner_query) (srv : api post) (fuel : nat)
  (c : option cursor) (acc : list item) (w w1 : world) (data : page post) :
  for_attempts (User.posts_attempt srv c) (range 5) w = (Some data, w1) ->
  cursor_eqb (nextCursor data) c = true ->
  exists acc',
    User.posts_loop parse_iso after_date q srv (S fuel) c acc w =
    Some (acc', w1).
Proof.
  intros H E; simpl in *; rewrite H.
  destruct (items data); eauto.
  rewrite E, orb_true_r; eauto.
Qed.

(** So does [get_collection_images]. *)
Lemma get_collection_images_stops_on_repeated_cursor (srv : api item)
  (fuel : nat) (c : option cursor) (acc : list item) (w w1 : world)
  (data : page item) :
  for_attempts (Collection.images_attempt srv c) (range 5) w =
  (Some data, w1) ->
  cursor_eqb (nextCursor data) c = true ->
  exists acc',
    Collection.images_loop srv (S fuel) c acc w = Some (acc', w1).
Proof.
  intros H E; simpl in *; rewrite H.
  destruct (items data); eauto.
  rewrite E, orb_true_r; eauto.
Qed.

Example stuck_cursor_stops_two_fetchers :
  option_map (fun r => sent (snd r))
    (User.get_posts no_parse None (ByUserId 1) stuck_posts 10 (fresh [])) =
  Some 2%nat /\
  option_map (fun r => sent (snd r))
    (Collection.get_collection_images stuck_images 10 (fresh [])) =
  Some 2%nat.
Proof. vm_compute; split; reflexivity. Qed.

Lemma stuck_images_loop (parse_iso : string -> option Z) (q : owner_query)
  (fuel : nat) (c : option cursor) (acc : list item) (w : world) :
  User.images_loop parse_iso None q stuck_images fuel c acc w = None.
Proof.
  revert c acc w; induction fuel as [|fuel IH]; intros c acc w; simpl; auto.
Qed.

(** C1 at the failing input.  [get_images] has no check of the new cursor
    against the one just used: against an API that answers every request
    with a page and the same [nextCursor], no amount of fuel lets it
    return, each round asking for the next page again. *)
Theorem get_images_never_leaves_a_stuck_cursor
  (parse_iso : string -> option Z) (q : owner_query) (fuel : nat)
  (w : world) :
  User.get_images parse_iso None q stuck_images fuel w = None.
Proof. unfold User.get_images; rewrite stuck_images_loop; reflexivity. Qed.

(** The same listing, ended by a page without [nextCursor], is returned
    after one request. *)
Example get_images_returns_when_the_cursor_ends :
  User.get_images no_parse None (ByUserId 1)
    (fun _ _ => Response 200 "" (mk_page [shot_a] None)) 1 (fresh []) =
  Some (Some [shot_a], mk_world [] 1 [Jitter; Query None]).
Proof. vm_compute; reflexivity. Qed.

(** ** Pagination: a page that keeps failing *)

Lemma log_three (l : list event) (a b c : event) :
  ((l ++ [a]) ++ [b]) ++ [c] = l ++ [a; b; c].
Proof. rewrite <- !app_assoc; reflexivity. Qed.

Lemma log_two (l : list event) (a b : event) :
  (l ++ [a]) ++ [b] = l ++ [a; b].
Proof. rewrite <- !app_assoc; reflexivity. Qed.

Lemma after_requests_step (w : world) (n : nat) (e1 e2 : list event) :
  after_requests (after_requests w 1 e1) n e2 =
  after_requests w (S n) (e1 ++ e2).
Proof.
  unfold after_requests; simpl; f_equal; [lia|].
  rewrite <- app_assoc; reflexivity.
Qed.

Lemma after_no_request (w : world) : after_requests w 0 [] = w.
Proof.
  unfold after_requests; rewrite Nat.add_0_r, app_nil_r.
  destruct w; reflexivity.
Qed.

(** A retry loop all of whose attempts fail, attempt [i] being made as
    request number [sent w + i]. *)
Lemma for_attempts_fail {A : Type} (body : Z -> world -> outcome A)
  (ev : nat -> list event) :
  forall n s w,
    (forall i w', (s <= i < s + n)%nat -> sent w' = (sent w + (i - s))%nat ->
                  body (Z.of_nat i) w' = Next (after_requests w' 1 (ev i))) ->
    for_attempts body (map Z.of_nat (seq s n)) w =
    (None, after_requests w n (flat_map ev (seq s n))).
Proof.
  induction n as [|n IH]; intros s w H; cbn [seq map for_attempts flat_map].
  - rewrite after_no_request; reflexivity.
  - rewrite (H s w) by lia.
    rewrite (IH (S s) (after_requests w 1 (ev s))).
    + rewrite after_requests_step; reflexivity.
    + intros i w' Hi Hw'. apply H; [lia|].
      rewrite Hw'; unfold after_requests; simpl; lia.
Qed.

(** A 4xx status is one [raise_for_status] raises for, and is not a 5xx. *)
Lemma failure_of_response {A : Type} (status : Z) (err_text : string)
  (data : page A) (k : page_failure) :
  failure_of (Response status err_text data) = Some k ->
  (is_server_error status = true /\ k = ServerError) \/
  (is_server_error status = false /\ is_error_status status = true /\
   k = RequestError err_text).
Proof.
  unfold failure_of, is_server_error, is_error_status.
  destruct ((500 <=? status) && (status <? 600)) eqn:E5.
  - intros H; inversion H; auto.
  - destruct ((400 <=? status) && (status <? 500)) eqn:E4; [|discriminate].
    intros H; inversion H; right; repeat split.
    apply andb_true_iff in E4; destruct E4 as [E4 E4'].
    rewrite E4; simpl. apply Z.ltb_lt in E4'; apply Z.ltb_lt; lia.
Qed.

Lemma page_exception_backoff_log (f : fetcher) (text : string) (a : Z)
  (w : world) :
  f <> GetPosts ->
  page_exception_backoff 5 text a w =
  mk_world (files w) (sent w) (log w ++ backoff f a (RequestError text)).
Proof.
  intros Hf; unfold page_exception_backoff, mentions_5xx.
  change (5 - 1) with 4.
  assert (E : backoff f a (RequestError text) =
              if (Py.contains "500" text || Py.contains "502" text ||
                  Py.contains "503" text || Py.contains "504" text)
                 && (a <? 4)
              then [Sleep ((a + 1) * 5)] else [])
    by (destruct f; [reflexivity|congruence|reflexivity]).
  rewrite E, andb_comm.
  destruct (_ && _); unfold emit; simpl.
  - reflexivity.
  - rewrite app_nil_r; destruct w; reflexivity.
Qed.

Lemma user_images_attempt_fails (srv : api item) (c : option cursor)
  (a : Z) (w : world) (k : page_failure) :
  failure_of (srv (sent w) c) = Some k ->
  User.images_attempt srv c a w =
  Next (after_requests w 1 ([Jitter; Query c] ++ backoff GetImages a k)).
Proof.
  unfold User.images_attempt, query, emit, after_requests; cbn [sent files log].
  rewrite Nat.add_1_r.
  destruct (srv (sent w) c) as [st e d|t].
  - intros H; destruct (failure_of_response _ _ _ _ H)
      as [[E ->]|(E5 & E4 & ->)].
    + rewrite E; simpl; rewrite <- ?app_assoc; reflexivity.
    + rewrite E5, E4.
      rewrite (page_exception_backoff_log GetImages) by discriminate.
      simpl; rewrite <- ?app_assoc; reflexivity.
  - intros H; inversion H; subst.
    rewrite (page_exception_backoff_log GetImages) by discriminate.
    simpl; rewrite <- ?app_assoc; reflexivity.
Qed.

Lemma collection_images_attempt_fails (srv : api item) (c : option cursor)
  (a : Z) (w : world) (k : page_failure) :
  failure_of (srv (sent w) c) = Some k ->
  Collection.images_attempt srv c a w =
  Next (after_requests w 1
          ([Jitter; Query c] ++ backoff GetCollectionImages a k)).
Proof.
  unfold Collection.images_attempt, query, emit, after_requests;
    cbn [sent files log].
  rewrite Nat.add_1_r.
  destruct (srv (sent w) c) as [st e d|t].
  - intros H; destruct (failure_of_response _ _ _ _ H)
      as [[E ->]|(E5 & E4 & ->)].
    + rewrite E; simpl; rewrite <- ?app_assoc; reflexivity.
    + rewrite E5, E4.
      rewrite (page_exception_backoff_log GetCollectionImages)
        by discriminate.
      simpl; rewrite <- ?app_assoc; reflexivity.
  - intros H; inversion H; subst.
    rewrite (page_exception_backoff_log GetCollectionImages) by discriminate.
    simpl; rewrite <- ?app_assoc; reflexivity.
Qed.

Lemma user_posts_attempt_fails (srv : api post) (c : option cursor)
  (a : Z) (w : world) (k : page_failure) :
  failure_of (srv (sent w) c) = Some k ->
  User.posts_attempt srv c a w =
  Next (after_requests w 1 ([Jitter; Query c] ++ backoff GetPosts a k)).
Proof.
  unfold User.posts_attempt, query, emit, after_requests; cbn [sent files log].
  rewrite Nat.add_1_r.
  destruct (srv (sent w) c) as [st e d|t].
  - intros H; destruct (failure_of_response _ _ _ _ H)
      as [[E ->]|(E5 & E4 & ->)].
    + rewrite E; simpl; rewrite <- ?app_assoc; reflexivity.
    + rewrite E5, E4; simpl; rewrite <- ?app_assoc; reflexivity.
  - intros H; inversion H; subst.
    simpl; rewrite <- ?app_assoc; reflexivity.
Qed.

(** The step from the answers to the attempts: attempt [i] is made as
    request number [sent w + i]. *)
Lemma failing_attempts {A : Type} (f : fetcher) (srv : api A)
  (body : Z -> world -> outcome (page A)) (c : option cursor)
  (k : nat -> page_failure) (w : world) :
  (forall a w0 k0, failure_of (srv (sent w0) c) = Some k0 ->
     body a w0 =
     Next (after_requests w0 1 ([Jitter; Query c] ++ backoff f a k0))) ->
  (forall i, (i < 5)%nat ->
             failure_of (srv (sent w + i)%nat c) = Some (k i)) ->
  for_attempts body (range 5) w =
  (None, after_requests w 5 (failed_attempts f c k)).
Proof.
  intros Hbody Hk; unfold range, failed_attempts.
  apply (for_attempts_fail body
           (fun i => [Jitter; Query c] ++ backoff f (Z.of_nat i) (k i))).
  intros i w' Hi Hw'. apply Hbody.
  rewrite Hw', Nat.sub_0_r. apply Hk; lia.
Qed.

Lemma serves_tail {A : Type} (srv : api A) (base : nat) (p : page A)
  (rest : list (page A)) :
  serves srv base (p :: rest) ->
  (forall c, srv base c = Response 200 "" p) /\ serves srv (S base) rest.
Proof.
  intros H; split.
  - intros c. specialize (H O c (Nat.lt_0_succ _)).
    rewrite Nat.add_0_r in H; exact H.
  - intros i c Hi. specialize (H (S i) c (proj1 (Nat.succ_lt_mono _ _) Hi)).
    rewrite Nat.add_succ_r in H; exact H.
Qed.

Lemma user_first_attempt (srv : api item) (c : option cursor)
  (w : world) (data : page item) :
  srv (sent w) c = Response 200 "" data ->
  for_attempts (User.images_attempt srv c) (range 5) w =
  (Some data, after_requests w 1 [Jitter; Query c]).
Proof.
  intros H; unfold range; cbn [seq map for_attempts].
  unfold User.images_attempt, query, emit, after_requests; simpl.
  rewrite H; simpl. rewrite log_two, Nat.add_1_r; reflexivity.
Qed.

Lemma user_posts_first_attempt (srv : api post) (c : option cursor)
  (w : world) (data : page post) :
  srv (sent w) c = Response 200 "" data ->
  for_attempts (User.posts_attempt srv c) (range 5) w =
  (Some data, after_requests w 1 [Jitter; Query c]).
Proof.
  intros H; unfold range; cbn [seq map for_attempts].
  unfold User.posts_attempt, query, emit, after_requests; simpl.
  rewrite H; simpl. rewrite log_two, Nat.add_1_r; reflexivity.
Qed.

Lemma collection_first_attempt (srv : api item) (c : option cursor)
  (w : world) (data : page item) :
  srv (sent w) c = Response 200 "" data ->
  for_attempts (Collection.images_attempt srv c) (range 5) w =
  (Some data, after_requests w 1 [Jitter; Query c]).
Proof.
  intros H; unfold range; cbn [seq map for_attempts].
  unfold Collection.images_attempt, query, emit, after_requests; simpl.
  rewrite H; simpl. rewrite log_two, Nat.add_1_r; reflexivity.
Qed.

Lemma no_bound_never_stops (parse_iso : string -> option Z)
  (dates : list (option string)) :
  User.page_is_past_bound parse_iso None dates = false.
Proof. destruct dates; reflexivity. Qed.

(** A listing that goes on after its first page. *)
Lemma listing_continues {A : Type} (c : option cursor) (p : page A)
  (rest more : list (page A)) :
  more <> [] -> listing c ((p :: rest) ++ more) ->
  items p <> [] /\ cursor_truthy (nextCursor p) = true /\
  cursor_eqb (nextCursor p) c = false /\
  listing (nextCursor p) (rest ++ more).
Proof.
  intros Hm; simpl. destruct (rest ++ more) as [|q l] eqn:E.
  - destruct rest; simpl in E; [congruence|discriminate].
  - intros (H1 & H2 & H3 & H4); auto.
Qed.

(** The failures that follow the pages, seen from after the first page. *)
Lemma failures_shift {A : Type} (srv : api A) (k : nat -> page_failure)
  (w : world) (n : nat) (evs : list event) :
  (forall i c', (i < 5)%nat ->
                failure_of (srv (sent w + S n + i)%nat c') = Some (k i)) ->
  forall i c', (i < 5)%nat ->
               failure_of (srv (sent (after_requests w 1 evs) + n + i)%nat c')
               = Some (k i).
Proof.
  intros H i c' Hi; unfold after_requests; cbn [sent].
  replace (sent w + 1 + n + i)%nat with (sent w + S n + i)%nat by lia.
  apply H; auto.
Qed.

Lemma failures_here {A : Type} (srv : api A) (k : nat -> page_failure)
  (w : world) (c : option cursor) :
  (forall i c', (i < 5)%nat ->
                failure_of (srv (sent w + 0 + i)%nat c') = Some (k i)) ->
  forall i, (i < 5)%nat -> failure_of (srv (sent w + i)%nat c) = Some (k i).
Proof.
  intros H i Hi; specialize (H i c Hi).
  rewrite Nat.add_0_r in H; exact H.
Qed.

Lemma after_pages_and_failures (w : world) (n : nat) (c : option cursor)
  (evs : list event) :
  after_requests (after_requests w 1 [Jitter; Query c]) (n + 5) evs =
  after_requests w (S n + 5) (Jitter :: Query c :: evs).
Proof. rewrite after_requests_step; reflexivity. Qed.

(** [get_images]: the pages that are served, then a page that fails. *)
Lemma user_images_then_failure (parse_iso : string -> option Z)
  (after_date : option Z) (q : owner_query) (srv : api item)
  (k : nat -> page_failure) (pages more : list (page item)) :
  forall fuel c acc w,
    (List.length pages < fuel)%nat -> more <> [] ->
    listing c (pages ++ more) -> serves srv (sent w) pages ->
    (forall pg, In pg pages ->
       User.page_is_past_bound parse_iso after_date
         (map (fun img => get (createdAt img)) (items pg)) = false) ->
    (forall i c', (i < 5)%nat ->
       failure_of (srv (sent w + List.length pages + i)%nat c')
       = Some (k i)) ->
    User.images_loop parse_iso after_date q srv fuel c acc w =
    Some (acc ++ flat_map (fun p => filter
                                      (User.keep_image parse_iso after_date q)
                                      (items p)) pages,
          after_requests w (List.length pages + 5)
            (then_failing GetImages k c pages)).
Proof.
  induction pages as [|p rest IH]; intros fuel c acc w Hfuel Hm Hl Hs Hb Hk;
    (destruct fuel as [|fuel]; [simpl in Hfuel; lia|]);
    cbn [User.images_loop].
  - rewrite (failing_attempts GetImages srv (User.images_attempt srv c) c k w
               (user_images_attempt_fails srv c) (failures_here srv k w c Hk)).
    rewrite app_nil_r; reflexivity.
  - destruct (serves_tail _ _ _ _ Hs) as [Hp Hrest].
    destruct (listing_continues c p rest more Hm Hl) as (Hne & Ht & He & Hl').
    rewrite (user_first_attempt srv c w p (Hp c)); cbv zeta.
    rewrite Ht, (Hb p (or_introl eq_refl)); simpl negb; cbv iota.
    rewrite (IH fuel (nextCursor p)
               (acc ++ filter (User.keep_image parse_iso after_date q)
                         (items p))
               (after_requests w 1 [Jitter; Query c])).
    + cbn [List.length flat_map then_failing].
      rewrite after_pages_and_failures, <- app_assoc; reflexivity.
    + simpl in *; lia.
    + exact Hm.
    + exact Hl'.
    + unfold after_requests; simpl; rewrite Nat.add_1_r; exact Hrest.
    + intros pg Hpg; apply Hb; right; exact Hpg.
    + apply failures_shift; exact Hk.
Qed.

(** [get_posts]: the same. *)
Lemma user_posts_then_failure (parse_iso : string -> option Z)
  (after_date : option Z) (q : owner_query) (srv : api post)
  (k : nat -> page_failure) (pages more : list (page post)) :
  forall fuel c acc w,
    (List.length pages < fuel)%nat -> more <> [] ->
    listing c (pages ++ more) -> serves srv (sent w) pages ->
    (forall pg, In pg pages ->
       User.page_is_past_bound parse_iso after_date
         (map User.post_date (items pg)) = false) ->
    (forall i c', (i < 5)%nat ->
       failure_of (srv (sent w + List.length pages + i)%nat c')
       = Some (k i)) ->
    User.posts_loop parse_iso after_date q srv fuel c acc w =
    Some (acc ++ flat_map (fun p => User.extract parse_iso after_date q
                                      (items p)) pages,
          after_requests w (List.length pages + 5)
            (then_failing GetPosts k c pages)).
Proof.
  induction pages as [|p rest IH]; intros fuel c acc w Hfuel Hm Hl Hs Hb Hk;
    (destruct fuel as [|fuel]; [simpl in Hfuel; lia|]);
    cbn [User.posts_loop].
  - rewrite (failing_attempts GetPosts srv (User.posts_attempt srv c) c k w
               (user_posts_attempt_fails srv c) (failures_here srv k w c Hk)).
    rewrite app_nil_r; reflexivity.
  - destruct (serves_tail _ _ _ _ Hs) as [Hp Hrest].
    destruct (listing_continues c p rest more Hm Hl) as (Hne & Ht & He & Hl').
    rewrite (user_posts_first_attempt srv c w p (Hp c)); cbv zeta.
    pose proof (Hb p (or_introl eq_refl)) as Hb1.
    destruct (items p) as [|x xs] eqn:Ei; [congruence|].
    rewrite Ht, He, Hb1; simpl negb; cbv iota; cbn [orb].
    rewrite (IH fuel (nextCursor p)
               (acc ++ User.extract parse_iso after_date q (x :: xs))
               (after_requests w 1 [Jitter; Query c])).
    + cbn [List.length flat_map then_failing].
      rewrite after_pages_and_failures, Ei, <- app_assoc; reflexivity.
    + simpl in *; lia.
    + exact Hm.
    + exact Hl'.
    + unfold after_requests; simpl; rewrite Nat.add_1_r; exact Hrest.
    + intros pg Hpg; apply Hb; right; exact Hpg.
    + apply failures_shift; exact Hk.
Qed.

(** [get_collection_images]: the same. *)
Lemma collection_images_then_failure (srv : api item)
  (k : nat -> page_failure) (pages more : list (page item)) :
  forall fuel c acc w,
    (List.length pages < fuel)%nat -> more <> [] ->
    listing c (pages ++ more) -> serves srv (sent w) pages ->
    (forall i c', (i < 5)%nat ->
       failure_of (srv (sent w + List.length pages + i)%nat c')
       = Some (k i)) ->
    Collection.images_loop srv fuel c acc w =
    Some (acc ++ flat_map items pages,
          after_requests w (List.length pages + 5)
            (then_failing GetCollectionImages k c pages)).
Proof.
  induction pages as [|p rest IH]; intros fuel c acc w Hfuel Hm Hl Hs Hk;
    (destruct fuel as [|fuel]; [simpl in Hfuel; lia|]);
    cbn [Collection.images_loop].
  - rewrite (failing_attempts GetCollectionImages srv
               (Collection.images_attempt srv c) c k w
               (collection_images_attempt_fails srv c)
               (failures_here srv k w c Hk)).
    rewrite app_nil_r; reflexivity.
  - destruct (serves_tail _ _ _ _ Hs) as [Hp Hrest].
    destruct (listing_continues c p rest more Hm Hl) as (Hne & Ht & He & Hl').
    rewrite (collection_first_attempt srv c w p (Hp c)); cbv zeta.
    destruct (items p) as [|x xs] eqn:Ei; [congruence|].
    rewrite Ht, He; simpl negb; cbv iota; cbn [orb].
    rewrite (IH fuel (nextCursor p) (acc ++ x :: xs)
               (after_requests w 1 [Jitter; Query c])).
    + cbn [List.length flat_map then_failing].
      rewrite after_pages_and_failures, Ei, <- app_assoc; reflexivity.
    + simpl in *; lia.
    + exact Hm.
    + exact Hl'.
    + unfold after_requests; simpl; rewrite Nat.add_1_r; exact Hrest.
    + apply failures_shift; exact Hk.
Qed.

(** C7, as the code has it.  The API serves the first pages of a listing
    and then fails five times in a row, whichever way each time: with an
    HTTP 5xx answer, with an HTTP 4xx answer (which is the request
    exception [raise_for_status] raises) or with a request exception.
    Then each of the three fetchers, from any page on (cursor [c], items
    [acc] accumulated so far), reads the pages served, asks for the page
    that fails exactly five times and leaves its loop with what it has
    accumulated; [get_posts] and [get_collection_images] return that as
    it is and [get_images] after its final sort.  After a 5xx answer the
    back-off is [(attempt + 1) * 5] seconds, also after the fifth
    attempt.  After a request exception it is [(attempt + 1) * 2] seconds
    in [get_posts], and in [get_images] and [get_collection_images] there
    is none, unless the text of the exception contains 500, 502, 503 or
    504 and the attempt is not the fifth: then it is [(attempt + 1) * 5]
    seconds. *)
Theorem failing_page_ends_the_fetch (parse_iso : string -> option Z)
  (after_date : option Z) (q : owner_query) (images_api : api item)
  (posts_api : api post) (ki kp : nat -> page_failure)
  (image_listing more_images : list (page item))
  (post_listing more_posts : list (page post)) (c : option cursor)
  (acc : list item) (fuel : nat) (w : world) :
  (List.length image_listing < fuel)%nat -> more_images <> [] ->
  listing c (image_listing ++ more_images) ->
  serves images_api (sent w) image_listing ->
  (forall pg, In pg image_listing ->
     User.page_is_past_bound parse_iso after_date
       (map (fun img => get (createdAt img)) (items pg)) = false) ->
  (forall i c', (i < 5)%nat ->
     failure_of (images_api (sent w + List.length image_listing + i)%nat c')
     = Some (ki i)) ->
  (List.length post_listing < fuel)%nat -> more_posts <> [] ->
  listing c (post_listing ++ more_posts) ->
  serves posts_api (sent w) post_listing ->
  (forall pg, In pg post_listing ->
     User.page_is_past_bound parse_iso after_date
       (map User.post_date (items pg)) = false) ->
  (forall i c', (i < 5)%nat ->
     failure_of (posts_api (sent w + List.length post_listing + i)%nat c')
     = Some (kp i)) ->
  let kept :=
    flat_map (fun pg => filter (User.keep_image parse_iso after_date q)
                          (items pg)) image_listing in
  let extracted :=
    flat_map (fun pg => User.extract parse_iso after_date q (items pg))
      post_listing in
  let after_images f :=
    after_requests w (List.length image_listing + 5)
      (then_failing f ki c image_listing) in
  let after_posts :=
    after_requests w (List.length post_listing + 5)
      (then_failing GetPosts kp c post_listing) in
  User.images_loop parse_iso after_date q images_api fuel c acc w =
  Some (acc ++ kept, after_images GetImages) /\
  User.posts_loop parse_iso after_date q posts_api fuel c acc w =
  Some (acc ++ extracted, after_posts) /\
  Collection.images_loop images_api fuel c acc w =
  Some (acc ++ flat_map items image_listing,
        after_images GetCollectionImages) /\
  (c = None -> acc = [] ->
   User.get_images parse_iso after_date q images_api fuel w =
   Some (py_sort kept, after_images GetImages) /\
   User.get_posts parse_iso after_date q posts_api fuel w =
   Some (extracted, after_posts) /\
   Collection.get_collection_images images_api fuel w =
   Some (flat_map items image_listing, after_images GetCollectionImages)).
Proof.
  intros Hfi Hmi Hli Hsi Hbi Hki Hfp Hmp Hlp Hsp Hbp Hkp
    kept extracted after_images after_posts.
  pose proof (user_images_then_failure parse_iso after_date q images_api ki
                image_listing more_images fuel c acc w Hfi Hmi Hli Hsi Hbi Hki)
    as H1.
  pose proof (user_posts_then_failure parse_iso after_date q posts_api kp
                post_listing more_posts fuel c acc w Hfp Hmp Hlp Hsp Hbp Hkp)
    as H2.
  pose proof (collection_images_then_failure images_api ki image_listing
                more_images fuel c acc w Hfi Hmi Hli Hsi Hki) as H3.
  refine (conj H1 (conj H2 (conj H3 _))).
  intros -> ->.
  unfold User.get_images, User.get_posts, Collection.get_collection_images.
  rewrite H1, H2, H3. repeat split.
Qed.

(** A page is served, and then the five attempts at the next page fail
    one way after the other: a 503, a time-out, a 404 whose text reads
    500, an exception naming a 502, a 500. *)
Lemma failing_page_witness :
  User.get_images no_parse None (ByUserId 7) failing_later 2 (fresh []) =
  Some (Some [mine],
        mk_world [] 6
          [Jitter; Query None;
           Jitter; Query (Some (CNum 7)); Sleep 5;
           Jitter; Query (Some (CNum 7));
           Jitter; Query (Some (CNum 7)); Sleep 15;
           Jitter; Query (Some (CNum 7)); Sleep 20;
           Jitter; Query (Some (CNum 7)); Sleep 25]) /\
  option_map (fun r => (map id (fst r), log (snd r)))
    (User.get_posts no_parse None (ByUserId 7) failing_later_posts 2
       (fresh [])) =
  Some ([11],
        [Jitter; Query None;
         Jitter; Query (Some (CNum 7)); Sleep 5;
         Jitter; Query (Some (CNum 7)); Sleep 4;
         Jitter; Query (Some (CNum 7)); Sleep 6;
         Jitter; Query (Some (CNum 7)); Sleep 8;
         Jitter; Query (Some (CNum 7)); Sleep 25]) /\
  Collection.get_collection_images failing_later 2 (fresh []) =
  Some ([mine; foreign],
        mk_world [] 6
          [Jitter; Query None;
           Jitter; Query (Some (CNum 7)); Sleep 5;
           Jitter; Query (Some (CNum 7));
           Jitter; Query (Some (CNum 7)); Sleep 15;
           Jitter; Query (Some (CNum 7)); Sleep 20;
           Jitter; Query (Some (CNum 7)); Sleep 25]).
Proof.
  destruct (failing_page_ends_the_fetch no_parse None (ByUserId 7)
              failing_later failing_later_posts failures_shown failures_shown
              (firstn 1 owned_pages) (skipn 1 owned_pages)
              [mk_page [mk_post (Some 5) (Some 7) None None [mine]]
                 (Some (CNum 7))]
              [mk_page [mk_post (Some 6) None None None [anon]] None]
              None [] 2 (fresh []))
    as (_ & _ & _ & H).
  - simpl; lia.
  - discriminate.
  - simpl; repeat split; discriminate.
  - intros i c Hi; destruct i; [reflexivity|simpl in Hi; lia].
  - intros pg _; apply no_bound_never_stops.
  - intros [|[|[|[|[|i]]]]] c' Hi; try reflexivity; simpl in Hi; lia.
  - simpl; lia.
  - discriminate.
  - simpl; repeat split; discriminate.
  - intros i c Hi; destruct i; [reflexivity|simpl in Hi; lia].
  - intros pg _; apply no_bound_never_stops.
  - intros [|[|[|[|[|i]]]]] c' Hi; try reflexivity; simpl in Hi; lia.
  - destruct (H eq_refl eq_refl) as (H1 & H2 & H3).
    split; [exact H1|split; [rewrite H2; reflexivity|exact H3]].
Defined.

(** C7, as stated, fails for network failures: after time-outs
    [get_posts] backs off 2, 4, 6, 8 and 10 seconds, and [get_images] and
    [get_collection_images] do not back off at all. *)
Lemma timeouts_do_not_back_off_by_five :
  User.get_posts no_parse None (ByUserId 1) (timing_out post) 1 (fresh []) =
  Some ([], mk_world [] 5
              [Jitter; Query None; Sleep 2; Jitter; Query None; Sleep 4;
               Jitter; Query None; Sleep 6; Jitter; Query None; Sleep 8;
               Jitter; Query None; Sleep 10]) /\
  User.get_images no_parse None (ByUserId 1) (timing_out item) 1 (fresh []) =
  Some (Some [],
        mk_world [] 5
          [Jitter; Query None; Jitter; Query None; Jitter; Query None;
           Jitter; Query None; Jitter; Query None]) /\
  Collection.get_collection_images (timing_out item) 1 (fresh []) =
  Some ([], mk_world [] 5
              [Jitter; Query None; Jitter; Query None; Jitter; Query None;
               Jitter; Query None; Jitter; Query None]).
Proof. vm_compute; repeat split. Qed.

(** A page that answers 503 five times, after one good page: the fetch
    ends with the items of the good page. *)
Example partial_result_after_server_errors :
  option_map fst
    (Collection.get_collection_images
       (fun n _ => match n with
                   | O => Response 200 "" (mk_page [shot_a] stuck_cursor)
                   | _ => Response 503 "" (mk_page [] None)
                   end) 3 (fresh [])) = Some [shot_a] /\
  option_map (fun r => log (snd r))
    (User.get_images no_parse None (ByUserId 1)
       (fun _ _ => Response 503 "" (mk_page [] None)) 1 (fresh [])) =
  Some [Jitter; Query None; Sleep 5; Jitter; Query None; Sleep 10;
        Jitter; Query None; Sleep 15; Jitter; Query None; Sleep 20;
        Jitter; Query None; Sleep 25].
Proof. vm_compute; split; reflexivity. Qed.

(** ** The final sort *)

Lemma insert_newest_in (x y : string * item) (l : list (string * item)) :
  In x (insert_newest y l) <-> x = y \/ In x l.
Proof.
  induction l as [|z l IH]; simpl; [intuition|].
  destruct (String.ltb (fst z) (fst y)); simpl; [intuition|].
  rewrite IH; intuition.
Qed.

Lemma insert_newest_perm (x : string * item) (l : list (string * item)) :
  Permutation (insert_newest x l) (x :: l).
Proof.
  induction l as [|y l IH]; simpl; auto.
  destruct (String.ltb (fst y) (fst x)); auto.
  rewrite IH; apply perm_swap.
Qed.

(** The sort only reorders. *)
Lemma sort_newest_perm (l : list (string * item)) :
  Permutation (sort_newest l) l.
Proof.
  unfold sort_newest.
  assert (H : forall acc,
             Permutation (fold_left (fun acc y => insert_newest y acc) l acc)
               (acc ++ l)).
  { induction l as [|y l IH]; intros acc; simpl.
    - rewrite app_nil_r; auto.
    - rewrite IH, insert_newest_perm. apply Permutation_middle. }
  apply (H []).
Qed.

Lemma ltb_asym (a b : string) :
  String.ltb a b = true -> String.ltb b a = false.
Proof.
  unfold String.ltb; rewrite (String.compare_antisym b a).
  destruct (String.compare a b); simpl; congruence.
Qed.

Lemma insert_newest_sorted (x : string * item) (l : list (string * item)) :
  Sorted key_not_below l -> Sorted key_not_below (insert_newest x l).
Proof.
  induction l as [|y l IH]; intros Hs; simpl.
  - repeat constructor.
  - destruct (String.ltb (fst y) (fst x)) eqn:E.
    + constructor; auto. constructor. apply ltb_asym; auto.
    + inversion Hs as [|? ? Hs' Hhd]; subst.
      constructor; auto.
      destruct l as [|z l]; simpl.
      * constructor; exact E.
      * destruct (String.ltb (fst z) (fst x)).
        -- constructor; exact E.
        -- inversion Hhd; subst; constructor; auto.
Qed.

Lemma sort_newest_sorted (l : list (string * item)) :
  Sorted key_not_below (sort_newest l).
Proof.
  unfold sort_newest.
  assert (H : forall acc, Sorted key_not_below acc ->
                          Sorted key_not_below
                            (fold_left (fun acc y => insert_newest y acc)
                               l acc)).
  { induction l as [|y l IH]; intros acc Ha; simpl; auto.
    apply IH, insert_newest_sorted; auto. }
  apply H; constructor.
Qed.

(** The keys are computed for all elements or for none. *)
Lemma decorate_some (l : list item) (d : list (string * item)) :
  decorate l = Some d ->
  map snd d = l /\ forall kx, In kx d -> sort_key (snd kx) = Some (fst kx).
Proof.
  revert d; induction l as [|x l IH]; intros d; simpl.
  - intros H; inversion H; split; [reflexivity|intros kx []].
  - destruct (sort_key x) as [k|] eqn:Ek; [|discriminate].
    destruct (decorate l) as [d0|]; [|discriminate].
    intros H; inversion H; subst; simpl.
    destruct (IH d0 eq_refl) as [Hm Hk]; split; [congruence|].
    intros kx [<-|Hin]; auto.
Qed.

Lemma sort_key_none (x : item) : sort_key x = None <-> createdAt x = Null.
Proof.
  unfold sort_key; destruct (createdAt x); split; congruence.
Qed.

Lemma decorate_none (l : list item) :
  decorate l = None <-> exists x, In x l /\ createdAt x = Null.
Proof.
  induction l as [|x l IH]; simpl.
  - split; [discriminate|intros (x & [] & _)].
  - destruct (sort_key x) as [k|] eqn:Ek.
    + destruct (decorate l) as [d|].
      * split; [discriminate|].
        intros (y & [<-|Hy] & Hn).
        -- apply sort_key_none in Hn; congruence.
        -- assert (Hc : Some d = None) by (apply IH; eauto).
           discriminate.
      * split; auto. intros _.
        destruct (proj1 IH eq_refl) as (y & Hy & Hn); eauto.
    + split; auto. intros _; exists x; split; auto.
      apply sort_key_none; auto.
Qed.

Lemma sorted_by_key (d : list (string * item)) :
  (forall kx, In kx d -> sort_key (snd kx) = Some (fst kx)) ->
  Sorted key_not_below d -> Sorted not_older (map snd d).
Proof.
  intros Hk Hs; induction Hs as [|kx d Hs IH Hhd]; simpl; constructor.
  - apply IH; intros ky Hy; apply Hk; right; auto.
  - destruct Hhd as [|ky d' Hr]; simpl; constructor.
    exists (fst kx), (fst ky); repeat split; auto.
    + apply Hk; left; reflexivity.
    + apply Hk; right; left; reflexivity.
Qed.

(** When the sort goes through, it only reorders. *)
Lemma py_sort_perm (l res : list item) :
  py_sort l = Some res -> Permutation res l.
Proof.
  unfold py_sort; destruct l as [|x [|y l]].
  - intros H; inversion H; auto.
  - intros H; inversion H; auto.
  - destruct (decorate (x :: y :: l)) as [d|] eqn:Ed; [|discriminate].
    simpl; intros H; inversion H; subst.
    destruct (decorate_some _ _ Ed) as [Hm _]; rewrite <- Hm.
    apply Permutation_map, sort_newest_perm.
Qed.

Lemma py_sort_in (l res : list item) (x : item) :
  py_sort l = Some res -> (In x res <-> In x l).
Proof.
  intros H; pose proof (py_sort_perm l res H) as Hp; split; intros Hx.
  - eapply Permutation_in; eauto.
  - eapply Permutation_in; [apply Permutation_sym|]; eauto.
Qed.

(** And leaves the list in the order of the keys. *)
Lemma py_sort_sorted (l res : list item) :
  py_sort l = Some res -> Sorted not_older res.
Proof.
  unfold py_sort; destruct l as [|x [|y l]].
  - intros H; inversion H; constructor.
  - intros H; inversion H; repeat constructor.
  - destruct (decorate (x :: y :: l)) as [d|] eqn:Ed; [|discriminate].
    simpl; intros H; inversion H; subst.
    destruct (decorate_some _ _ Ed) as [_ Hk].
    apply sorted_by_key; [|apply sort_newest_sorted].
    intros kx Hin; apply Hk.
    eapply Permutation_in; [apply sort_newest_perm|]; auto.
Qed.

(** It raises exactly for a list of two or more elements one of which
    holds [null] under [createdAt]. *)
Lemma py_sort_raises (l : list item) : py_sort l = None <-> sort_raises l.
Proof.
  unfold py_sort, sort_raises; destruct l as [|x [|y l]].
  - split; [discriminate|simpl; intros [H _]; lia].
  - split; [discriminate|simpl; intros [H _]; lia].
  - destruct (decorate (x :: y :: l)) as [d|] eqn:Ed; cbn [option_map].
    + split; [discriminate|]. intros [_ Hn].
      apply (proj2 (decorate_none (x :: y :: l))) in Hn; congruence.
    + split; auto. intros _; split; [simpl; lia|].
      apply (proj1 (decorate_none (x :: y :: l))); auto.
Qed.

(** ** Reading a listing page by page (civitai_downloader.py) *)

Lemma cursors_asked_cons {A : Type} (c : option cursor) (p q : page A)
  (rest : list (page A)) :
  cursors_asked c (p :: q :: rest) =
  c :: cursors_asked (nextCursor p) (q :: rest).
Proof. reflexivity. Qed.

Lemma never_past_bound_tail {A : Type} (parse_iso : string -> option Z)
  (after_date : option Z) (date : A -> option string) (p r : page A)
  (rest : list (page A)) :
  never_past_bound parse_iso after_date date (p :: r :: rest) ->
  User.page_is_past_bound parse_iso after_date (map date (items p)) = false /\
  never_past_bound parse_iso after_date date (r :: rest).
Proof.
  unfold never_past_bound; intros H; split.
  - apply H; left; reflexivity.
  - intros pg Hin; apply H; right; exact Hin.
Qed.

(** [get_images] on a listing that the date bound does not cut short. *)
Lemma user_images_pages (parse_iso : string -> option Z)
  (after_date : option Z) (q : owner_query) (srv : api item)
  (pages : list (page item)) :
  forall fuel c acc w,
    (List.length pages <= fuel)%nat ->
    listing c pages -> serves srv (sent w) pages ->
    never_past_bound parse_iso after_date (fun img => get (createdAt img))
      pages ->
    User.images_loop parse_iso after_date q srv fuel c acc w =
    Some (acc ++ flat_map (fun p => filter
                                      (User.keep_image parse_iso after_date q)
                                      (items p)) pages,
          after_requests w (List.length pages)
            (one_request_each (cursors_asked c pages))).
Proof.
  induction pages as [|p rest IH]; intros fuel c acc w Hfuel Hl Hs Hb;
    [destruct Hl|].
  destruct fuel as [|fuel]; [simpl in Hfuel; lia|].
  destruct (serves_tail _ _ _ _ Hs) as [Hp Hrest].
  destruct Hl as [Hne Hl].
  cbn [User.images_loop].
  rewrite (user_first_attempt srv c w p (Hp c)); cbv zeta.
  destruct rest as [|r rest'].
  - rewrite Hl; simpl. rewrite app_nil_r; reflexivity.
  - destruct Hl as (Ht & He & Hl). rewrite Ht; simpl negb; cbv iota.
    destruct (never_past_bound_tail _ _ _ _ _ _ Hb) as [Hb1 Hb2].
    rewrite Hb1.
    rewrite (IH fuel (nextCursor p)
               (acc ++ filter (User.keep_image parse_iso after_date q)
                         (items p))
               (after_requests w 1 [Jitter; Query c])).
    + rewrite after_requests_step, cursors_asked_cons.
      cbn [flat_map]. rewrite <- app_assoc. reflexivity.
    + simpl in *; lia.
    + exact Hl.
    + unfold after_requests; simpl; rewrite Nat.add_1_r; exact Hrest.
    + exact Hb2.
Qed.

(** [get_posts] on a listing that the date bound does not cut short. *)
Lemma user_posts_pages (parse_iso : string -> option Z)
  (after_date : option Z) (q : owner_query) (srv : api post)
  (pages : list (page post)) :
  forall fuel c acc w,
    (List.length pages <= fuel)%nat ->
    listing c pages -> serves srv (sent w) pages ->
    never_past_bound parse_iso after_date User.post_date pages ->
    User.posts_loop parse_iso after_date q srv fuel c acc w =
    Some (acc ++ flat_map (fun p => User.extract parse_iso after_date q
                                      (items p)) pages,
          after_requests w (List.length pages)
            (one_request_each (cursors_asked c pages))).
Proof.
  induction pages as [|p rest IH]; intros fuel c acc w Hfuel Hl Hs Hb;
    [destruct Hl|].
  destruct fuel as [|fuel]; [simpl in Hfuel; lia|].
  destruct (serves_tail _ _ _ _ Hs) as [Hp Hrest].
  destruct Hl as [Hne Hl].
  cbn [User.posts_loop].
  rewrite (user_posts_first_attempt srv c w p (Hp c)); cbv zeta.
  destruct (items p) as [|x xs] eqn:Ei; [congruence|].
  destruct rest as [|r rest'].
  - rewrite Hl; simpl. rewrite app_nil_r, Ei; reflexivity.
  - destruct Hl as (Ht & He & Hl). rewrite Ht, He; simpl negb; cbv iota.
    cbn [orb].
    destruct (never_past_bound_tail _ _ _ _ _ _ Hb) as [Hb1 Hb2].
    rewrite Ei in Hb1; rewrite Hb1.
    rewrite (IH fuel (nextCursor p)
               (acc ++ User.extract parse_iso after_date q (x :: xs))
               (after_requests w 1 [Jitter; Query c])).
    + rewrite after_requests_step, cursors_asked_cons.
      cbn [flat_map]. rewrite Ei, <- app_assoc. reflexivity.
    + simpl in *; lia.
    + exact Hl.
    + unfold after_requests; simpl; rewrite Nat.add_1_r; exact Hrest.
    + exact Hb2.
Qed.

(** ** The ownership filter *)

Lemma owner_ok_passes (q : owner_query) (uid : option Z) :
  owner_ok q uid = true <-> passes_ownership q uid.
Proof.
  destruct q as [u|n]; simpl; [destruct uid; tauto|].
  destruct uid as [u|]; simpl.
  - rewrite Z.eqb_eq; split; [intros ->; auto|intros [H|H]; congruence].
  - intuition.
Qed.

(** Whatever [get_images] has accumulated passed the ownership check. *)
Lemma images_loop_owner (parse_iso : string -> option Z)
  (after_date : option Z) (q : owner_query) (srv : api item) (fuel : nat) :
  forall c acc w res w',
    User.images_loop parse_iso after_date q srv fuel c acc w =
    Some (res, w') ->
    (forall x, In x acc -> owner_ok q (userId x) = true) ->
    forall x, In x res -> owner_ok q (userId x) = true.
Proof.
  induction fuel as [|fuel IH]; intros c acc w res w';
    cbn [User.images_loop]; [discriminate|].
  destruct (for_attempts (User.images_attempt srv c) (range 5) w)
    as [[data|] w1]; cbv zeta.
  - assert (Hacc : (forall x, In x acc -> owner_ok q (userId x) = true) ->
                   forall x, In x (acc ++ filter
                       (User.keep_image parse_iso after_date q) (items data)) ->
                             owner_ok q (userId x) = true).
    { intros Ha x Hx; apply in_app_or in Hx; destruct Hx as [Hx|Hx]; auto.
      apply filter_In in Hx; destruct Hx as [_ Hk].
      unfold User.keep_image in Hk; apply andb_true_iff in Hk; tauto. }
    destruct (negb (cursor_truthy (nextCursor data))).
    + intros H; inversion H; subst; exact Hacc.
    + destruct (User.page_is_past_bound parse_iso after_date _).
      * intros H; inversion H; subst; exact Hacc.
      * intros H Ha; eapply IH; eauto.
  - intros H; inversion H; subst; auto.
Qed.

(** A page that an attempt of [get_posts] hands on is one the API
    answered with. *)
Lemma posts_attempt_served (srv : api post) (c : option cursor)
  (l : list Z) (w w1 : world) (data : page post) :
  for_attempts (User.posts_attempt srv c) l w = (Some data, w1) ->
  forall p, In p (items data) -> served srv p.
Proof.
  intros H p Hp.
  destruct (for_attempts_leaves _ _ _ _ _ H) as (a & w0 & _ & Hb).
  revert Hb; unfold User.posts_attempt, query.
  destruct (srv (sent (emit Jitter w0)) c) as [st e d|t] eqn:E;
    [|discriminate].
  destruct (is_server_error st); [discriminate|].
  destruct (is_error_status st); [discriminate|].
  intros Hb; inversion Hb; subst.
  exists (sent (emit Jitter w0)), c, st, e, data; auto.
Qed.

Lemma extract_own (parse_iso : string -> option Z) (after_date : option Z)
  (q : owner_query) (batch : list post) (x : item) :
  In x (User.extract parse_iso after_date q batch) <->
  exists p img,
    In p batch /\ In img (post_images p) /\ x = User.attach p img /\
    passes_ownership q (post_userId p) /\
    User.older_than_bound parse_iso after_date (User.post_date p) = false.
Proof.
  unfold User.extract; rewrite in_flat_map; split.
  - intros (p & Hp & Hx). apply filter_In in Hp; destruct Hp as [Hp Hk].
    apply in_map_iff in Hx; destruct Hx as (img & <- & Himg).
    unfold User.keep_post in Hk; apply andb_true_iff in Hk.
    destruct Hk as [Ho Hd]; apply negb_true_iff in Hd.
    exists p, img; repeat split; auto. apply owner_ok_passes; auto.
  - intros (p & img & Hp & Himg & -> & Ho & Hd).
    exists p; split; [|apply in_map; auto].
    apply filter_In; split; auto.
    unfold User.keep_post; rewrite Hd.
    apply owner_ok_passes in Ho; rewrite Ho; reflexivity.
Qed.

Lemma posts_loop_owner (parse_iso : string -> option Z)
  (after_date : option Z) (q : owner_query) (srv : api post) (fuel : nat) :
  forall c acc w res w',
    User.posts_loop parse_iso after_date q srv fuel c acc w =
    Some (res, w') ->
    (forall x, In x acc -> from_own_post q srv x) ->
    forall x, In x res -> from_own_post q srv x.
Proof.
  induction fuel as [|fuel IH]; intros c acc w res w';
    cbn [User.posts_loop]; [discriminate|].
  destruct (for_attempts (User.posts_attempt srv c) (range 5) w)
    as [[data|] w1] eqn:Ea; cbv zeta.
  - assert (Hacc : (forall x, In x acc -> from_own_post q srv x) ->
                   forall x, In x (acc ++ User.extract parse_iso after_date q
                                            (items data)) ->
                             from_own_post q srv x).
    { intros Ha x Hx; apply in_app_or in Hx; destruct Hx as [Hx|Hx]; auto.
      apply extract_own in Hx.
      destruct Hx as (p & img & Hp & Himg & -> & Ho & _).
      exists p, img; repeat split; auto.
      eapply posts_attempt_served; eauto. }
    destruct (items data) as [|p0 ps] eqn:Ei.
    + intros H; inversion H; subst; auto.
    + destruct (negb (cursor_truthy (nextCursor data)) ||
                cursor_eqb (nextCursor data) c).
      * intros H; inversion H; subst; exact Hacc.
      * destruct (User.page_is_past_bound parse_iso after_date _).
        -- intros H; inversion H; subst; exact Hacc.
        -- intros H Ha; eapply IH; eauto.
  - intros H; inversion H; subst; auto.
Qed.

Lemma kept_images (parse_iso : string -> option Z) (after_date : option Z)
  (q : owner_query) (pages : list (page item)) (x : item) :
  In x (flat_map (fun pg => filter (User.keep_image parse_iso after_date q)
                              (items pg)) pages) <->
  exists pg,
    In pg pages /\ In x (items pg) /\ passes_ownership q (userId x) /\
    User.older_than_bound parse_iso after_date (get (createdAt x)) = false.
Proof.
  rewrite in_flat_map; split.
  - intros (pg & Hpg & Hx). apply filter_In in Hx; destruct Hx as [Hx Hk].
    unfold User.keep_image in Hk; apply andb_true_iff in Hk.
    destruct Hk as [Ho Hd]; apply negb_true_iff in Hd.
    exists pg; repeat split; auto. apply owner_ok_passes; auto.
  - intros (pg & Hpg & Hx & Ho & Hd). exists pg; split; auto.
    apply filter_In; split; auto.
    unfold User.keep_image; rewrite Hd.
    apply owner_ok_passes in Ho; rewrite Ho; reflexivity.
Qed.

Lemma kept_posts (parse_iso : string -> option Z) (after_date : option Z)
  (q : owner_query) (pages : list (page post)) (x : item) :
  In x (flat_map (fun pg => User.extract parse_iso after_date q (items pg))
          pages) <->
  exists pg p img,
    In pg pages /\ In p (items pg) /\ In img (post_images p) /\
    x = User.attach p img /\ passes_ownership q (post_userId p) /\
    User.older_than_bound parse_iso after_date (User.post_date p) = false.
Proof.
  rewrite in_flat_map; split.
  - intros (pg & Hpg & Hx). apply extract_own in Hx.
    destruct Hx as (p & img & H); exists pg, p, img; tauto.
  - intros (pg & p & img & Hpg & H). exists pg; split; auto.
    apply extract_own; exists p, img; tauto.
Qed.

(** C8.  On a listing of images and a listing of posts that the API
    serves page by page (and that the date bound does not cut short),
    [get_images] and [get_posts] read every page and what they return is
    exactly this.  Of the images listed, [get_images] hands to its final
    sort those that pass the ownership rule, and that sort only reorders
    them: asked by numeric id, an image whose [userId] is present and
    differs from that id is dropped and one without [userId] is kept;
    asked by user name, none is dropped for its [userId].  [get_posts]
    applies the same rule to the [userId] of each post, a post that is
    kept contributing all its images and a post that is dropped none.
    (Kept means: unless the date bound drops the element.)  And whatever
    the API answers, nothing that fails the rule is ever returned. *)
Theorem ownership_filter (parse_iso : string -> option Z)
  (after_date : option Z) (q : owner_query) (images_api : api item)
  (posts_api : api post) (image_listing : list (page item))
  (post_listing : list (page post)) (fuel : nat) (w : world) :
  (List.length image_listing <= fuel)%nat ->
  listing None image_listing -> serves images_api (sent w) image_listing ->
  never_past_bound parse_iso after_date (fun img => get (createdAt img))
    image_listing ->
  (List.length post_listing <= fuel)%nat ->
  listing None post_listing -> serves posts_api (sent w) post_listing ->
  never_past_bound parse_iso after_date User.post_date post_listing ->
  exists images extracted wi wp,
    User.get_images parse_iso after_date q images_api fuel w =
    Some (py_sort images, wi) /\
    sent wi = (sent w + List.length image_listing)%nat /\
    (forall x,
       In x images <->
       exists pg,
         In pg image_listing /\ In x (items pg) /\
         passes_ownership q (userId x) /\
         User.older_than_bound parse_iso after_date (get (createdAt x))
         = false) /\
    (forall res, py_sort images = Some res ->
                 forall x, In x res <-> In x images) /\
    User.get_posts parse_iso after_date q posts_api fuel w =
    Some (extracted, wp) /\
    sent wp = (sent w + List.length post_listing)%nat /\
    (forall x,
       In x extracted <->
       exists pg p img,
         In pg post_listing /\ In p (items pg) /\ In img (post_images p) /\
         x = User.attach p img /\ passes_ownership q (post_userId p) /\
         User.older_than_bound parse_iso after_date (User.post_date p)
         = false) /\
    (forall srv fuel' w0 res w',
       User.get_images parse_iso after_date q srv fuel' w0 =
       Some (Some res, w') ->
       forall x, In x res -> passes_ownership q (userId x)) /\
    (forall srv fuel' w0 res w',
       User.get_posts parse_iso after_date q srv fuel' w0 = Some (res, w') ->
       forall x, In x res ->
         exists p img,
           served srv p /\ In img (post_images p) /\
           x = User.attach p img /\ passes_ownership q (post_userId p)).
Proof.
  intros Hfi Hli Hsi Hbi Hfp Hlp Hsp Hbp.
  exists (flat_map (fun pg => filter (User.keep_image parse_iso after_date q)
                                (items pg)) image_listing),
    (flat_map (fun pg => User.extract parse_iso after_date q (items pg))
       post_listing),
    (after_requests w (List.length image_listing)
       (one_request_each (cursors_asked None image_listing))),
    (after_requests w (List.length post_listing)
       (one_request_each (cursors_asked None post_listing))).
  refine (conj _ (conj eq_refl (conj _ (conj _ (conj _ (conj eq_refl
            (conj _ (conj _ _)))))))).
  - unfold User.get_images.
    rewrite (user_images_pages parse_iso after_date q images_api image_listing
               fuel None [] w Hfi Hli Hsi Hbi).
    reflexivity.
  - apply kept_images.
  - intros res Hres x; apply py_sort_in; auto.
  - unfold User.get_posts.
    rewrite (user_posts_pages parse_iso after_date q posts_api post_listing
               fuel None [] w Hfp Hlp Hsp Hbp).
    reflexivity.
  - apply kept_posts.
  - intros srv fuel' w0 res w'; unfold User.get_images.
    destruct (User.images_loop parse_iso after_date q srv fuel' None [] w0)
      as [[imgs w1]|] eqn:E; [|discriminate].
    intros H x Hx; inversion H as [[Hs Hw]].
    apply (proj1 (py_sort_in _ _ x Hs)) in Hx. apply owner_ok_passes.
    eapply images_loop_owner; [exact E|intros y []|exact Hx].
  - intros srv fuel' w0 res w' H x Hx.
    apply (posts_loop_owner parse_iso after_date q srv fuel' None [] w0 res w'
             H); [intros y []|exact Hx].
Qed.

(** Asked for user 7 with a date bound: of the images listed on two
    pages the one of user 8 and the one older than the bound are dropped,
    the one without [userId] is kept; of the posts listed, the post of
    user 8 contributes nothing. *)
Lemma ownership_filter_witness :
  User.get_images sample_parse (Some 20251205) (ByUserId 7) owned_api 2
    (fresh []) =
  Some (Some [mine; anon],
        mk_world [] 2 [Jitter; Query None; Jitter; Query (Some (CNum 7))]) /\
  option_map (fun r => map id (fst r))
    (User.get_posts sample_parse (Some 20251205) (ByUserId 7) owned_posts_api
       2 (fresh [])) = Some [11; 13].
Proof.
  destruct (ownership_filter sample_parse (Some 20251205) (ByUserId 7)
              owned_api owned_posts_api owned_pages owned_posts 2 (fresh []))
    as (images & extracted & wi & wp & Hi & _ & _ & _ & Hp & _).
  - simpl; lia.
  - simpl; repeat split; discriminate.
  - intros i c Hi; reflexivity.
  - intros pg [<-|[]]; reflexivity.
  - simpl; lia.
  - simpl; repeat split; discriminate.
  - intros i c Hi; reflexivity.
  - intros pg [].
  - split; vm_compute; reflexivity.
Defined.

(** A page of three images asked for user 7: the image of user 8 is
    dropped, the one without [userId] is kept; asked by name, all stay. *)
Example ownership_filter_on_a_page :
  filter (User.keep_image no_parse None (ByUserId 7)) [mine; foreign; anon] =
  [mine; anon] /\
  filter (User.keep_image no_parse None (ByUsername "u")) [mine; foreign; anon]
  = [mine; foreign; anon].
Proof. vm_compute; split; reflexivity. Qed.

(** * Further properties of the two scripts *)

(** ** The list of units *)

Lemma existsb_eqb_in (x : string) (l : list string) :
  existsb (String.eqb x) l = true <-> In x l.
Proof.
  rewrite existsb_exists; split.
  - intros (y & Hin & E); apply String.eqb_eq in E; subst; auto.
  - intros Hin; exists x; split; auto; apply String.eqb_refl.
Qed.

Lemma unique_loop_spec (users seen unique : list string) :
  (forall x, In x seen <-> In x unique) -> NoDup unique ->
  NoDup (unique_loop users seen unique) /\
  (forall x, In x (unique_loop users seen unique) <->
             In x unique \/
             (x <> EmptyString /\ exists u, In u users /\ Py.strip u = x)) /\
  exists rest, unique_loop users seen unique = unique ++ rest.
Proof.
  revert seen unique; induction users as [|u users IH]; intros seen unique
    Hseen Hnd; simpl.
  - split; [auto|split].
    + intros x; split; [auto|intros [H|(_ & u & [] & _)]; auto].
    + exists []; rewrite app_nil_r; reflexivity.
  - destruct (String.eqb_spec (Py.strip u) EmptyString) as [He|He]; simpl.
    + destruct (IH seen unique Hseen Hnd) as (H1 & H2 & H3).
      split; [auto|split; auto].
      intros x; rewrite H2; split.
      * intros [H|(Hx & v & Hv & E)]; eauto 6.
      * intros [H|(Hx & v & [->|Hv] & E)]; eauto 6. congruence.
    + destruct (existsb (String.eqb (Py.strip u)) seen) eqn:Hex; simpl.
      * apply existsb_eqb_in in Hex.
        destruct (IH seen unique Hseen Hnd) as (H1 & H2 & H3).
        split; [auto|split; auto].
        intros x; rewrite H2; split.
        -- intros [H|(Hx & v & Hv & E)]; eauto 6.
        -- intros [H|(Hx & v & [->|Hv] & E)]; eauto 6.
           subst x; left; apply Hseen; auto.
      * assert (Hnot : ~ In (Py.strip u) unique).
        { intros Hin; apply Hseen, existsb_eqb_in in Hin; congruence. }
        destruct (IH (Py.strip u :: seen) (unique ++ [Py.strip u]))
          as (H1 & H2 & rest & H3).
        { intros x; simpl; rewrite in_app_iff, Hseen; simpl; tauto. }
        { apply NoDup_app; auto.
          - repeat constructor; intros [].
          - intros x Hx [<-|[]]; auto. }
        split; [auto|split].
        -- intros x; rewrite H2, in_app_iff; simpl; split.
           ++ intros [[H|[<-|[]]]|(Hx & v & Hv & E)]; eauto 7.
           ++ intros [H|(Hx & v & [->|Hv] & E)]; eauto 7.
        -- exists (Py.strip u :: rest); rewrite H3, <- app_assoc; reflexivity.
Qed.

Lemma unique_loop_prefix (users seen unique : list string) :
  exists rest, unique_loop users seen unique = unique ++ rest.
Proof.
  revert seen unique; induction users as [|u users IH]; intros seen unique;
    simpl.
  - exists []; rewrite app_nil_r; reflexivity.
  - destruct (negb (Py.strip u =? "")%string &&
              negb (existsb (String.eqb (Py.strip u)) seen)); auto.
    destruct (IH (Py.strip u :: seen) (unique ++ [Py.strip u])) as (r & E).
    exists (Py.strip u :: r); rewrite E, <- app_assoc; reflexivity.
Qed.

Lemma unique_loop_app (l1 l2 seen unique : list string) :
  exists seen',
    unique_loop (l1 ++ l2) seen unique =
    unique_loop l2 seen' (unique_loop l1 seen unique).
Proof.
  revert seen unique; induction l1 as [|u l1 IH]; intros seen unique; simpl.
  - exists seen; reflexivity.
  - destruct (negb (Py.strip u =? "")%string &&
              negb (existsb (String.eqb (Py.strip u)) seen)); auto.
Qed.

(** X1. The list of units that [main] processes (both scripts) has no
    repeats, consists exactly of the stripped, non-empty entries of the
    input, and keeps the order in which they first appear: the list built
    from a longer input starts with the list built from its beginning. *)
Theorem unique_users_spec (users more : list string) :
  NoDup (unique_users users) /\
  (forall x, In x (unique_users users) <->
             x <> EmptyString /\ exists u, In u users /\ Py.strip u = x) /\
  exists rest, unique_users (users ++ more) = unique_users users ++ rest.
Proof.
  unfold unique_users.
  destruct (unique_loop_spec users [] []) as (H1 & H2 & _);
    [tauto|constructor|].
  split; [auto|split].
  - intros x; rewrite H2; simpl; tauto.
  - destruct (unique_loop_app users more [] []) as (seen' & ->).
    apply unique_loop_prefix.
Qed.

Example unique_users_sample :
  unique_users [" Grutzy"; "81189"; ""; "Grutzy "; "  "; "81189"; "psoft"] =
  ["Grutzy"; "81189"; "psoft"].
Proof. vm_compute; reflexivity. Qed.

(** ** The order of the listing *)

(** What [get_images] has accumulated is not older than the bound. *)
Lemma images_loop_bound (parse_iso : string -> option Z)
  (after_date : option Z) (q : owner_query) (srv : api item) (fuel : nat) :
  forall c acc w res w',
    User.images_loop parse_iso after_date q srv fuel c acc w =
    Some (res, w') ->
    (forall x, In x acc ->
               User.older_than_bound parse_iso after_date (get (createdAt x))
               = false) ->
    forall x, In x res ->
              User.older_than_bound parse_iso after_date (get (createdAt x))
              = false.
Proof.
  induction fuel as [|fuel IH]; intros c acc w res w';
    cbn [User.images_loop]; [discriminate|].
  destruct (for_attempts (User.images_attempt srv c) (range 5) w)
    as [[data|] w1]; cbv zeta.
  - assert (Hacc : (forall x, In x acc ->
                      User.older_than_bound parse_iso after_date
                        (get (createdAt x)) = false) ->
                   forall x, In x (acc ++ filter
                       (User.keep_image parse_iso after_date q) (items data)) ->
                     User.older_than_bound parse_iso after_date
                       (get (createdAt x)) = false).
    { intros Ha x Hx; apply in_app_or in Hx; destruct Hx as [Hx|Hx]; auto.
      apply filter_In in Hx; destruct Hx as [_ Hk].
      unfold User.keep_image in Hk; apply andb_true_iff in Hk.
      destruct Hk as [_ Hk]; apply negb_true_iff in Hk; exact Hk. }
    destruct (negb (cursor_truthy (nextCursor data))).
    + intros H; inversion H; subst; exact Hacc.
    + destruct (User.page_is_past_bound parse_iso after_date _).
      * intros H; inversion H; subst; exact Hacc.
      * intros H Ha; eapply IH; eauto.
  - intros H; inversion H; subst; auto.
Qed.



(** A page listing an image whose [createdAt] is [null] beside another:
    [get_images] ends with the [TypeError] of its sort. *)
Example get_images_raises_on_a_null_date :
  User.get_images no_parse None (ByUsername "u")
    (fun _ _ => Response 200 "" (mk_page [recent_shot; undated_shot] None))
    1 (fresh []) =
  Some (None, mk_world [] 1 [Jitter; Query None]).
Proof. vm_compute; reflexivity. Qed.

(** X3. With a lower bound [after_date], [get_images] returns no image
    whose non-empty [createdAt] parses to an instant before the bound,
    whatever the API answers and wherever the fetch stops. *)
Theorem get_images_respects_after_date (parse_iso : string -> option Z)
  (bound : Z) (q : owner_query) (srv : api item) (fuel : nat)
  (w w' : world) (res : list item) (x : item) (s : string) (t : Z) :
  User.get_images parse_iso (Some bound) q srv fuel w = Some (Some res, w') ->
  In x res -> createdAt x = Val s -> s <> EmptyString ->
  parse_iso s = Some t ->
  bound <= t.
Proof.
  unfold User.get_images.
  destruct (User.images_loop parse_iso (Some bound) q srv fuel None [] w)
    as [[imgs w1]|] eqn:E; [|discriminate].
  intros H Hx Hc Hs Hp; inversion H as [[Hsort Hw]].
  apply (proj1 (py_sort_in _ _ x Hsort)) in Hx.
  assert (Ho : User.older_than_bound parse_iso (Some bound)
                 (get (createdAt x)) = false).
  { eapply images_loop_bound; [exact E|intros y []|exact Hx]. }
  unfold User.older_than_bound in Ho; rewrite Hc in Ho; simpl in Ho.
  apply String.eqb_neq in Hs; rewrite Hs in Ho; simpl in Ho.
  rewrite Hp in Ho; apply Z.ltb_ge in Ho; exact Ho.
Qed.

Lemma get_images_respects_after_date_witness :
  User.get_images sample_parse (Some 20251210) (ByUsername "u") dated_api 1
    (fresh []) =
  Some (Some [recent_shot], mk_world [] 1 [Jitter; Query None]) /\
  20251210 <= 20251211.
Proof.
  split; [vm_compute; reflexivity|].
  refine (get_images_respects_after_date sample_parse 20251210
            (ByUsername "u") dated_api 1 (fresh []) _ _ recent_shot
            "2025-12-11T00:00:00Z" 20251211 _ _ _ _ _).
  - vm_compute; reflexivity.
  - left; reflexivity.
  - reflexivity.
  - discriminate.
  - reflexivity.
Defined.

(** ** The list handed to the download pool *)

(** X4. The final sort of [process_user] raises [TypeError] exactly when
    the merge holds two items or more, one of them with [null] under
    [createdAt] (as [get_posts] leaves it for an image of a post without
    a date).  Otherwise the list handed to the download pool holds the
    items of the merge, each id once, sorted newest first. *)
Theorem final_items_are_unique_and_sorted (images posts : list item) :
  (final_items images posts = None <->
   sort_raises (merge_items images posts)) /\
  forall res,
    final_items images posts = Some res ->
    NoDup (map id res) /\ Sorted not_older res /\
    forall x, In x res <-> In x (merge_items images posts).
Proof.
  unfold final_items; split; [apply py_sort_raises|].
  intros res Hres; split; [|split].
  - apply (Permutation_NoDup
             (l := map id (merge_items images posts))).
    + apply Permutation_map, Permutation_sym, py_sort_perm; auto.
    + apply well_keyed_ids, posts_fold_well_keyed, images_fold_well_keyed,
        empty_well_keyed.
  - eapply py_sort_sorted; eauto.
  - intros x; apply py_sort_in; auto.
Qed.

(** A listed image and, from the posts, an image of a post without a
    date: the sort of line 631 raises.  Two dated images are handed on
    newest first. *)
Example final_items_sample :
  final_items [recent_shot] [undated_shot] = None /\
  final_items [old_shot] [recent_shot; old_shot] = Some [recent_shot; old_shot].
Proof. vm_compute; split; reflexivity. Qed.

(** ** What the result of a download says about the disk *)

Lemma for_attempts_none_inv {A : Type} (body : Z -> world -> outcome A)
  (P : world -> Prop) (l : list Z) (w w' : world) :
  (forall a w w', body a w = Next w' -> P w -> P w') ->
  P w -> for_attempts body l w = (None, w') -> P w'.
Proof.
  intros Hb; revert w; induction l as [|a l IH]; intros w Hw; simpl.
  - intros H; inversion H; subst; auto.
  - destruct (body a w) as [v w1|w1] eqn:E; [discriminate|].
    apply IH; eauto.
Qed.

Lemma for_attempts_some_inv {A : Type} (body : Z -> world -> outcome A)
  (P : world -> Prop) (l : list Z) (w w' : world) (v : A) :
  (forall a w w', body a w = Next w' -> P w -> P w') ->
  P w -> for_attempts body l w = (Some v, w') ->
  exists a w0, P w0 /\ body a w0 = Leave v w'.
Proof.
  intros Hb; revert w; induction l as [|a l IH]; intros w Hw; simpl;
    [discriminate|].
  destruct (body a w) as [v0 w1|w1] eqn:E.
  - intros H; inversion H; subst; eauto.
  - apply IH; eauto.
Qed.

Lemma on_request_exception_files (text : string) (a : Z) (w : world) :
  files (on_request_exception text a w) = files w.
Proof. unfold on_request_exception; destruct (Py.contains "429" text); auto. Qed.

Lemma user_finish_whole (p : plan) (a : Z) (st : Z) (e : string) (b : bytes)
  (w : world) :
  (exists w', User.finish p a (st, e, Whole b) w = Next w' /\
              files w' = files w) \/
  (User.finish p a (st, e, Whole b) w = Leave true (do_write (filename p) b w)
   /\ b <> []) \/
  User.finish p a (st, e, Whole b) w = Next (do_write (filename p) [] w).
Proof.
  unfold User.finish.
  destruct (is_error_status st).
  - left; eexists; split; eauto. apply on_request_exception_files.
  - rewrite getsize_write. destruct b as [|x b]; simpl; auto.
    right; left; split; auto; discriminate.
Qed.

Lemma user_finish_never_false (p : plan) (a : Z) (r : Z * string * stream)
  (w w' : world) :
  User.finish p a r w <> Leave false w'.
Proof.
  destruct r as [[st e] [b|b t]]; unfold User.finish;
    (destruct (is_error_status st); [discriminate|]); [|discriminate].
  rewrite getsize_write. destruct (0 <? List.length b)%nat; discriminate.
Qed.

Lemma valid_after_empty_write (f : string) (w : world) :
  Fs.valid f (files (do_write f [] w)) = false.
Proof. unfold Fs.valid; rewrite getsize_write; reflexivity. Qed.

Lemma user_attempt_keeps_invalid (srv : server) (p : plan) (a : Z)
  (w w' : world) :
  unbroken srv ->
  User.attempt_body srv p a w = Next w' ->
  Fs.valid (filename p) (files w) = false ->
  Fs.valid (filename p) (files w') = false.
Proof.
  intros Hsrv; unfold User.attempt_body.
  assert (Hfin : forall st e b w0, files w0 = files w ->
            User.finish p a (st, e, Whole b) w0 = Next w' ->
            Fs.valid (filename p) (files w) = false ->
            Fs.valid (filename p) (files w') = false).
  { intros st e b w0 Hw0 Hf Hv.
    destruct (user_finish_whole p a st e b w0) as [(w1 & E & Hw1)|[[E _]|E]];
      rewrite E in Hf; inversion Hf; subst.
    - rewrite Hw1, Hw0; auto.
    - apply valid_after_empty_write. }
  unfold request; cbn [sent files log emit].
  destruct (srv (sent w) (original_url p)) as [st e [b|b t]|t] eqn:E1.
  - destruct (st =? 429).
    + intros H Hv; inversion H; subst; simpl; auto.
    + destruct (negb (st =? 200)); [|apply Hfin; auto].
      destruct (negb (original_url p =? plan_url p)%string &&
                Py.startswith (plan_url p) "http"); [|apply Hfin; auto].
      destruct (srv (S (sent w)) (plan_url p)) as [st' e' [b'|b' t']|t']
        eqn:E2.
      * destruct (st' =? 429); [|apply Hfin; auto].
        intros H Hv; inversion H; subst; simpl; auto.
      * exfalso; eapply Hsrv; eauto.
      * intros H Hv; inversion H; subst.
        rewrite on_request_exception_files; auto.
  - exfalso; eapply Hsrv; eauto.
  - intros H Hv; inversion H; subst.
    rewrite on_request_exception_files; auto.
Qed.

Lemma user_attempt_never_leaves_false (srv : server) (p : plan) (a : Z)
  (w w' : world) :
  User.attempt_body srv p a w <> Leave false w'.
Proof.
  unfold User.attempt_body.
  destruct (request srv (original_url p) (emit Jitter w)) as [[st e b|t] w1];
    [|discriminate].
  destruct (st =? 429); [discriminate|].
  destruct (negb (st =? 200)); [|apply user_finish_never_false].
  destruct (negb (original_url p =? plan_url p)%string &&
            Py.startswith (plan_url p) "http");
    [|apply user_finish_never_false].
  destruct (request srv (plan_url p) w1) as [[st' e' b'|t'] w2];
    [|discriminate].
  destruct (st' =? 429); [discriminate|apply user_finish_never_false].
Qed.

(** X5. In civitai_downloader.py, against a host none of whose answers
    breaks off while it is read, the result of [download_image] tells
    exactly whether the target file is on disk and non-empty afterwards:
    [True] is never returned over a missing or empty file, and [False]
    never leaves a non-empty target behind. *)
Theorem user_result_is_target_validity (srv : server) (it : item) (p : plan)
  (w : world) :
  User.prepare it = Some p -> unbroken srv ->
  fst (User.download_image srv it w) =
  Fs.valid (filename p) (files (snd (User.download_image srv it w))).
Proof.
  intros Hp Hsrv.
  destruct (User.download_image srv it w) as [r w'] eqn:E; simpl.
  destruct r.
  - symmetry; eapply user_success_is_nonempty; eauto.
  - revert E; unfold User.download_image; rewrite Hp; cbv zeta.
    destruct (Fs.valid (filename p) (files (User.reconcile it p w))) eqn:Hv;
      [discriminate|].
    destruct (for_attempts (User.attempt_body srv p) (range User.max_retries)
                (User.reconcile it p w)) as [[v|] w1] eqn:Ef; simpl;
      intros H; inversion H; subst.
    + destruct (for_attempts_leaves _ _ _ _ _ Ef) as (a & w0 & _ & Hb).
      exfalso; eapply user_attempt_never_leaves_false; eauto.
    + symmetry.
      apply (for_attempts_none_inv (User.attempt_body srv p)
               (fun w => Fs.valid (filename p) (files w) = false)
               _ _ _ (fun a w0 w1 => user_attempt_keeps_invalid srv p a w0 w1
                                       Hsrv) Hv Ef).
Qed.

Lemma user_result_is_target_validity_witness :
  fst (User.download_image hollow item_42 (fresh [])) =
  Fs.valid (filename plan_42)
    (files (snd (User.download_image hollow item_42 (fresh [])))).
Proof.
  refine (user_result_is_target_validity hollow item_42 plan_42 (fresh []) _
            _).
  - vm_compute; reflexivity.
  - intros n u st e b text; discriminate.
Defined.

(** A body that breaks off after its first byte, attempt after attempt:
    both scripts return [False] and leave the byte in the target file. *)
Example broken_stream_leaves_a_partial_file :
  fst (User.download_image breaking_off item_42 (fresh [])) = false /\
  files (snd (User.download_image breaking_off item_42 (fresh []))) =
  [("newname_42.png", [Byte.x89])] /\
  fst (Collection.download_image breaking_off item_42 (fresh [])) = false /\
  files (snd (Collection.download_image breaking_off item_42 (fresh []))) =
  [("newname_42.png", [Byte.x89])].
Proof. vm_compute; repeat split. Qed.

Lemma collection_attempt_next_files (srv : server) (p : plan) (a : Z)
  (w w' : world) :
  unbroken srv ->
  Collection.attempt_body srv p a w = Next w' -> files w' = files w.
Proof.
  intros Hsrv; unfold Collection.attempt_body, request; simpl.
  destruct (srv (sent w) (original_url p)) as [st e [b|b t]|t] eqn:E1.
  - destruct (st =? 429); [intros H; inversion H; reflexivity|].
    destruct (st =? 200); [discriminate|].
    destruct (negb (original_url p =? plan_url p)%string); [|discriminate].
    destruct (srv (S (sent w)) (plan_url p)) as [st' e' [b'|b' t']|t']
      eqn:E2.
    + destruct (st' =? 429); [intros H; inversion H; reflexivity|].
      destruct (st' =? 200); discriminate.
    + exfalso; eapply Hsrv; eauto.
    + intros H; inversion H; subst;
      rewrite on_request_exception_files; reflexivity.
  - exfalso; eapply Hsrv; eauto.
  - intros H; inversion H; subst;
      rewrite on_request_exception_files; reflexivity.
Qed.

Lemma collection_save_never_false (p : plan) (a : Z) (body : stream)
  (w w' : world) :
  Collection.save p a body w <> Leave false w'.
Proof. destruct body; discriminate. Qed.

Lemma collection_attempt_false_files (srv : server) (p : plan) (a : Z)
  (w w' : world) :
  Collection.attempt_body srv p a w = Leave false w' -> files w' = files w.
Proof.
  unfold Collection.attempt_body, request; simpl.
  destruct (srv (sent w) (original_url p)) as [st e b|t]; [|discriminate].
  destruct (st =? 429); [discriminate|].
  destruct (st =? 200);
    [intros H; exfalso; eapply collection_save_never_false; eauto|].
  destruct (negb (original_url p =? plan_url p)%string).
  - destruct (srv (S (sent w)) (plan_url p)) as [st' e' b'|t'];
      [|discriminate].
    destruct (st' =? 429); [discriminate|].
    destruct (st' =? 200);
      [intros H; exfalso; eapply collection_save_never_false; eauto|].
    intros H; inversion H; reflexivity.
  - intros H; inversion H; reflexivity.
Qed.

(** X6. In civitai_collection_downloader.py, against a host none of
    whose answers breaks off while it is read, a failed [download_image]
    has written nothing: the directory is exactly as the reconciliation
    pass left it. *)
Theorem collection_failure_writes_nothing (srv : server) (it : item)
  (p : plan) (w w' : world) :
  Collection.prepare it = Some p -> unbroken srv ->
  Collection.download_image srv it w = (false, w') ->
  files w' = files (Collection.reconcile it p w).
Proof.
  intros Hp Hsrv; unfold Collection.download_image; rewrite Hp; cbv zeta.
  destruct (Fs.valid (filename p) (files (Collection.reconcile it p w)));
    [discriminate|].
  destruct (for_attempts (Collection.attempt_body srv p)
              (range Collection.max_retries) (Collection.reconcile it p w))
    as [[v|] w1] eqn:Ef; simpl; intros H; inversion H; subst.
  - destruct (for_attempts_some_inv (Collection.attempt_body srv p)
                (fun w0 => files w0 = files (Collection.reconcile it p w))
                _ _ _ _
                (fun a w0 w1 Hb Hw =>
                   eq_trans (collection_attempt_next_files srv p a _ _ Hsrv Hb)
                     Hw)
                eq_refl Ef) as (a & w0 & Hw0 & Hb).
    rewrite (collection_attempt_false_files srv p a _ _ Hb); auto.
  - apply (for_attempts_none_inv (Collection.attempt_body srv p)
             (fun w0 => files w0 = files (Collection.reconcile it p w))
             _ _ _
             (fun a w0 w1 Hb Hw =>
                eq_trans (collection_attempt_next_files srv p a _ _ Hsrv Hb)
                  Hw)
             eq_refl Ef).
Qed.

Lemma collection_failure_writes_nothing_witness :
  files (snd (Collection.download_image missing item_42 (fresh other_dir))) =
  files (Collection.reconcile item_42 plan_42 (fresh other_dir)).
Proof.
  refine (collection_failure_writes_nothing missing item_42 plan_42
            (fresh other_dir) _ _ _ _); try (vm_compute; reflexivity).
  intros n u st e b text; discriminate.
Defined.

(** X7. In civitai_downloader.py a download that succeeded is final: a
    later call for the same item, against any host, returns [True]
    without a request and leaves the bytes of the target as they are. *)
Theorem user_success_is_final (srv srv' : server) (it : item) (p : plan)
  (w w' : world) :
  User.prepare it = Some p ->
  User.download_image srv it w = (true, w') ->
  User.download_image srv' it w' = (true, User.reconcile it p w') /\
  sent (User.reconcile it p w') = sent w' /\
  Fs.lookup (filename p) (files (User.reconcile it p w')) =
  Fs.lookup (filename p) (files w').
Proof.
  intros Hp Hd.
  pose proof (user_success_is_nonempty srv it p w w' Hp Hd) as Hv.
  destruct (reconcile_keeps_valid_target UserScript it p w' Hv) as [Hl Hv'].
  split; [|split].
  - apply (download_unfold UserScript srv' it p w' Hp Hv').
  - apply (reconcile_sent UserScript).
  - exact Hl.
Qed.

Lemma user_success_is_final_witness :
  User.download_image offline item_42
    (snd (User.download_image serving item_42 (fresh []))) =
  (true, User.reconcile item_42 plan_42
           (snd (User.download_image serving item_42 (fresh [])))).
Proof.
  refine (proj1 (user_success_is_final serving offline item_42 plan_42
                   (fresh []) _ _ _)); vm_compute; reflexivity.
Defined.

(** ** How many requests a download can make *)

Lemma on_request_exception_sent (text : string) (a : Z) (w : world) :
  sent (on_request_exception text a w) = sent w.
Proof. unfold on_request_exception; destruct (Py.contains "429" text); auto. Qed.

Lemma user_finish_sent (p : plan) (a : Z) (r : Z * string * stream)
  (w : world) :
  sent (world_of (User.finish p a r w)) = sent w.
Proof.
  destruct r as [[st e] [b|b t]]; unfold User.finish;
    (destruct (is_error_status st); [apply on_request_exception_sent|]).
  - rewrite getsize_write. destruct (0 <? List.length b)%nat; reflexivity.
  - simpl; rewrite on_request_exception_sent; reflexivity.
Qed.

Lemma collection_save_sent (p : plan) (a : Z) (body : stream) (w : world) :
  sent (world_of (Collection.save p a body w)) = sent w.
Proof.
  destruct body as [b|b t]; simpl; [reflexivity|].
  rewrite on_request_exception_sent; reflexivity.
Qed.

Lemma user_attempt_sent (srv : server) (p : plan) (a : Z) (w : world) :
  (sent (world_of (User.attempt_body srv p a w)) <= sent w + 2)%nat /\
  (original_url p = plan_url p ->
   sent (world_of (User.attempt_body srv p a w)) = S (sent w)).
Proof.
  unfold User.attempt_body, request.
  pose proof (user_finish_sent p a) as Hf.
  generalize dependent (User.finish p a); intros fin Hf; simpl.
  destruct (srv (sent w) (original_url p)) as [st e b|t].
  - destruct (st =? 429); simpl; [split; [lia|auto]|].
    destruct (negb (st =? 200)).
    + destruct (String.eqb_spec (original_url p) (plan_url p)) as [E|E];
        simpl.
      * rewrite Hf; simpl; split; [lia|auto].
      * destruct (Py.startswith (plan_url p) "http"); simpl.
        -- split; [|congruence].
           destruct (srv (S (sent w)) (plan_url p)) as [st' e' b'|t'].
           ++ destruct (st' =? 429); simpl; [lia|].
              rewrite Hf; simpl; lia.
           ++ simpl; rewrite on_request_exception_sent; simpl; lia.
        -- rewrite Hf; simpl; split; [lia|auto].
    + rewrite Hf; simpl; split; [lia|auto].
  - simpl; rewrite on_request_exception_sent; simpl; split; [lia|auto].
Qed.

Lemma collection_attempt_sent (srv : server) (p : plan) (a : Z) (w : world) :
  (sent (world_of (Collection.attempt_body srv p a w)) <= sent w + 2)%nat /\
  (original_url p = plan_url p ->
   sent (world_of (Collection.attempt_body srv p a w)) = S (sent w)).
Proof.
  unfold Collection.attempt_body, request; simpl.
  destruct (srv (sent w) (original_url p)) as [st e b|t].
  - destruct (st =? 429); simpl; [split; [lia|auto]|].
    destruct (st =? 200);
      [rewrite collection_save_sent; simpl; split; [lia|auto]|].
    destruct (String.eqb_spec (original_url p) (plan_url p)) as [E|E]; simpl.
    + split; [lia|auto].
    + split; [|congruence].
      destruct (srv (S (sent w)) (plan_url p)) as [st' e' b'|t'].
      * destruct (st' =? 429); simpl; [lia|].
        destruct (st' =? 200); [rewrite collection_save_sent|]; simpl; lia.
      * simpl; rewrite on_request_exception_sent; simpl; lia.
  - simpl; rewrite on_request_exception_sent; simpl; split; [lia|auto].
Qed.

Lemma for_attempts_sent {A : Type} (body : Z -> world -> outcome A)
  (k : nat) (l : list Z) (w : world) :
  (forall a w, (sent (world_of (body a w)) <= sent w + k)%nat) ->
  (sent (snd (for_attempts body l w)) <= sent w + k * List.length l)%nat.
Proof.
  intros H; revert w; induction l as [|a l IH]; intros w; simpl; [lia|].
  specialize (H a w). destruct (body a w) as [v w1|w1]; simpl in *.
  - nia.
  - specialize (IH w1). nia.
Qed.

Lemma or_failed_world (r : option bool * world) :
  snd (or_failed r) = snd r.
Proof. destruct r as [[b|] w]; reflexivity. Qed.

(** X8. Whatever the host answers, one call of [download_image] (either
    script) makes at most 20 requests, two for each of its ten attempts,
    and at most 10 when the canonical URL is the URL of the item, there
    being no other URL to fall back to. *)
Theorem download_makes_at_most_twenty_requests (s : script) (srv : server)
  (it : item) (w : world) :
  (sent (snd (download_image s srv it w)) <= sent w + 20)%nat /\
  (forall p, prepare s it = Some p -> original_url p = plan_url p ->
             (sent (snd (download_image s srv it w)) <= sent w + 10)%nat).
Proof.
  assert (Hu : forall p k,
            (forall a w, (sent (world_of (User.attempt_body srv p a w))
                          <= sent w + k)%nat) ->
            User.prepare it = Some p ->
            (sent (snd (User.download_image srv it w))
             <= sent w + k * 10)%nat).
  { intros p k Hk Hp; unfold User.download_image; rewrite Hp; cbv zeta.
    destruct (Fs.valid (filename p) (files (User.reconcile it p w))); simpl.
    - rewrite (reconcile_sent UserScript); lia.
    - rewrite or_failed_world.
      pose proof (for_attempts_sent (User.attempt_body srv p) k
                    (range User.max_retries) (User.reconcile it p w) Hk) as H.
      rewrite range_length, (reconcile_sent UserScript) in H; exact H. }
  assert (Hc : forall p k,
            (forall a w, (sent (world_of (Collection.attempt_body srv p a w))
                          <= sent w + k)%nat) ->
            Collection.prepare it = Some p ->
            (sent (snd (Collection.download_image srv it w))
             <= sent w + k * 10)%nat).
  { intros p k Hk Hp; unfold Collection.download_image; rewrite Hp; cbv zeta.
    destruct (Fs.valid (filename p) (files (Collection.reconcile it p w)));
      simpl.
    - rewrite (reconcile_sent CollectionScript); lia.
    - rewrite or_failed_world.
      pose proof (for_attempts_sent (Collection.attempt_body srv p) k
                    (range Collection.max_retries)
                    (Collection.reconcile it p w) Hk) as H.
      rewrite range_length, (reconcile_sent CollectionScript) in H;
        exact H. }
  destruct s; simpl; split.
  - destruct (User.prepare it) as [p|] eqn:Hp.
    + apply (Hu p 2%nat); auto. intros a w0; apply user_attempt_sent.
    + unfold User.download_image; rewrite Hp; simpl; lia.
  - intros p Hp E. apply (Hu p 1%nat); auto.
    intros a w0. rewrite (proj2 (user_attempt_sent srv p a w0) E); lia.
  - destruct (Collection.prepare it) as [p|] eqn:Hp.
    + apply (Hc p 2%nat); auto. intros a w0; apply collection_attempt_sent.
    + unfold Collection.download_image; rewrite Hp; simpl; lia.
  - intros p Hp E. apply (Hc p 1%nat); auto.
    intros a w0. rewrite (proj2 (collection_attempt_sent srv p a w0) E); lia.
Qed.

(** A host that has nothing: both URLs of each attempt are asked for by
    the user script, which keeps trying; the collection script gives up
    after the first pair. *)
Example requests_against_a_host_without_the_file :
  sent (snd (download_image UserScript missing item_42 (fresh []))) = 20%nat /\
  sent (snd (download_image CollectionScript missing item_42 (fresh [])))
  = 2%nat.
Proof. vm_compute; split; reflexivity. Qed.

(** ** Splitting and joining a URL *)

Lemma split_not_nil (c : ascii) (s : string) : Py.split c s <> [].
Proof.
  destruct s as [|a r]; simpl; [discriminate|].
  destruct (Ascii.eqb a c); [discriminate|].
  destruct (Py.split c r); discriminate.
Qed.

Lemma has_char_app (c : ascii) (a b : string) :
  Py.has_char c (a ++ b)%string = Py.has_char c a || Py.has_char c b.
Proof.
  induction a as [|x a IH]; simpl; auto.
  rewrite IH, orb_assoc; reflexivity.
Qed.

Lemma split_parts_no_sep (c : ascii) (s p : string) :
  In p (Py.split c s) -> Py.has_char c p = false.
Proof.
  revert p; induction s as [|a r IH]; intros p; simpl.
  - intros [<-|[]]; reflexivity.
  - destruct (Ascii.eqb a c) eqn:E.
    + intros [<-|H]; auto.
    + destruct (Py.split c r) as [|h t] eqn:Es.
      * intros [<-|[]]; simpl; rewrite E; reflexivity.
      * intros [<-|H]; [|apply IH; right; auto].
        simpl; rewrite E; simpl; apply IH; left; auto.
Qed.

Lemma split_no_sep (c : ascii) (s : string) :
  Py.has_char c s = false -> Py.split c s = [s].
Proof.
  induction s as [|a r IH]; simpl; auto.
  intros H; apply orb_false_iff in H; destruct H as [E H].
  rewrite E, (IH H); reflexivity.
Qed.

Lemma split_app_sep (c : ascii) (a r : string) :
  Py.has_char c a = false ->
  Py.split c (a ++ String c r)%string = a :: Py.split c r.
Proof.
  induction a as [|x a IH]; simpl.
  - rewrite Ascii.eqb_refl; reflexivity.
  - intros H; apply orb_false_iff in H; destruct H as [E H].
    rewrite E, (IH H); reflexivity.
Qed.

(** Joining what was split gives the text back. *)
Lemma join_split (c : ascii) (s : string) :
  Py.join (String c EmptyString) (Py.split c s) = s.
Proof.
  unfold Py.join; induction s as [|a r IH]; simpl; auto.
  destruct (Ascii.eqb_spec a c) as [->|Hne].
  - destruct (Py.split c r) as [|h t] eqn:E.
    + exfalso; eapply split_not_nil; eauto.
    + simpl in *; rewrite IH; reflexivity.
  - destruct (Py.split c r) as [|h t] eqn:E.
    + exfalso; eapply split_not_nil; eauto.
    + destruct t; simpl in *; rewrite <- IH; reflexivity.
Qed.

(** Splitting what was joined gives the parts back. *)
Lemma split_join (c : ascii) (parts : list string) :
  parts <> [] ->
  (forall p, In p parts -> Py.has_char c p = false) ->
  Py.split c (Py.join (String c EmptyString) parts) = parts.
Proof.
  unfold Py.join; induction parts as [|p parts IH]; [congruence|].
  intros _ H. destruct parts as [|q parts].
  - simpl; apply split_no_sep, H; left; auto.
  - change (String.concat (String c "") (p :: q :: parts))
      with (p ++ String c (String.concat (String c "") (q :: parts)))%string.
    rewrite split_app_sep by (apply H; left; auto).
    rewrite IH; [reflexivity|discriminate|].
    intros p' Hp'; apply H; right; auto.
Qed.

Lemma rewrite_width_parts (u : string) :
  Py.split "/" (rewrite_width u) = map swap_width (Py.split "/" u).
Proof.
  unfold rewrite_width. apply (split_join "/").
  - destruct (Py.split "/" u) eqn:E; [|discriminate].
    exfalso; eapply split_not_nil; eauto.
  - intros p Hp; apply in_map_iff in Hp; destruct Hp as (q & <- & Hq).
    unfold swap_width; destruct (Py.startswith q "width="); [reflexivity|].
    eapply split_parts_no_sep; eauto.
Qed.

Lemma swap_width_twice (part : string) :
  swap_width (swap_width part) = swap_width part.
Proof.
  unfold swap_width; destruct (Py.startswith part "width=") eqn:E.
  - reflexivity.
  - rewrite E; reflexivity.
Qed.

Lemma rewrite_width_twice (u : string) :
  rewrite_width (rewrite_width u) = rewrite_width u.
Proof.
  unfold rewrite_width at 1.
  change (fun part : string =>
            if Py.startswith part "width=" then "original=true" else part)
    with swap_width.
  rewrite rewrite_width_parts, map_map.
  unfold rewrite_width; f_equal; apply map_ext; intros; apply swap_width_twice.
Qed.

Lemma prefix_first_part (c : ascii) (x r : string) :
  Py.has_char c x = false -> String.prefix x r = true ->
  String.prefix x (Py.first_part (Py.split c r)) = true.
Proof.
  revert r; induction x as [|a x IH]; intros r Hx Hp.
  - destruct (Py.first_part (Py.split c r)); reflexivity.
  - destruct r as [|b r]; simpl in Hp; [discriminate|].
    destruct (Ascii.ascii_dec a b) as [->|Hne]; [|discriminate].
    simpl in Hx; apply orb_false_iff in Hx; destruct Hx as [E Hx].
    simpl; rewrite E.
    pose proof (IH r Hx Hp) as H.
    destruct (Py.split c r) as [|h t] eqn:Es.
    + exfalso; eapply split_not_nil; eauto.
    + simpl in *. destruct (Ascii.ascii_dec b b); [auto|congruence].
Qed.

Lemma in_tl {A : Type} (x : A) (l : list A) : In x (tl l) -> In x l.
Proof. destruct l; simpl; auto. Qed.

(** A text [/x...] inside a URL is the start of a path segment that is
    not the first one. *)
Lemma contains_slash_segment (x u : string) :
  Py.has_char "/" x = false ->
  Py.contains (String "/" x) u = true ->
  exists part, In part (tl (Py.split "/" u)) /\ Py.startswith part x = true.
Proof.
  intros Hx; induction u as [|a u IH].
  - discriminate.
  - cbn [Py.contains String.prefix Py.split].
    destruct (Ascii.ascii_dec "/" a) as [<-|Hne].
    + change (Ascii.eqb "/" "/") with true; cbn [tl].
      intros H; apply orb_true_iff in H; destruct H as [H|H].
      * exists (Py.first_part (Py.split "/" u)); split.
        -- destruct (Py.split "/" u) eqn:E; [|left; reflexivity].
           exfalso; eapply split_not_nil; eauto.
        -- apply prefix_first_part; auto.
      * destruct (IH H) as (part & Hin & Hs); exists part; split; auto.
        apply in_tl; auto.
    + cbn [orb]. intros H. destruct (IH H) as (part & Hin & Hs).
      destruct (Ascii.eqb_spec a "/") as [->|_]; [congruence|].
      destruct (Py.split "/" u) as [|h t] eqn:E; [destruct Hin|].
      exists part; split; auto.
Qed.

(** X9. The rewrite of a full URL (both scripts) replaces every path
    segment that starts with [width=] by [original=true] and leaves the
    other segments and their number as they are; the result has no
    [width=] segment, rewriting it again changes nothing, and the
    canonical URL differs from the given one, so that a second URL
    exists to fall back to, exactly when the given one contains
    [/width=]. *)
Theorem canonical_url_has_no_width_segment (u : string) :
  Py.split "/" (rewrite_width u) = map swap_width (Py.split "/" u) /\
  (forall part, In part (Py.split "/" (rewrite_width u)) ->
                Py.startswith part "width=" = false) /\
  full_url_original (full_url_original u) = full_url_original u /\
  (String.eqb (full_url_original u) u = negb (Py.contains "/width=" u)).
Proof.
  split; [apply rewrite_width_parts|split; [|split]].
  - intros part Hin; rewrite rewrite_width_parts in Hin.
    apply in_map_iff in Hin; destruct Hin as (q & <- & _).
    unfold swap_width; destruct (Py.startswith q "width=") eqn:E; auto.
  - unfold full_url_original at 2 3.
    destruct (Py.contains "/width=" u) eqn:E.
    + unfold full_url_original.
      destruct (Py.contains "/width=" (rewrite_width u)); auto.
      apply rewrite_width_twice.
    + unfold full_url_original; rewrite E; reflexivity.
  - unfold full_url_original.
    destruct (Py.contains "/width=" u) eqn:E; simpl.
    + apply String.eqb_neq; intros Heq.
      destruct (contains_slash_segment "width=" u eq_refl E)
        as (part & Hin & Hs).
      pose proof (rewrite_width_parts u) as Hp; rewrite Heq in Hp.
      assert (Hfix : swap_width part = part).
      { apply in_tl in Hin. clear - Hp Hin.
        induction (Py.split "/" u) as [|h t IH]; [destruct Hin|].
        simpl in Hp; inversion Hp as [[Hh Ht]].
        destruct Hin as [<-|Hin]; auto. }
      unfold swap_width in Hfix; rewrite Hs in Hfix; subst part.
      discriminate.
    + apply String.eqb_refl.
Qed.

Example canonical_url_sample :
  full_url_original "https://image.civitai.com/x/width=450/a.jpeg" =
  "https://image.civitai.com/x/original=true/a.jpeg" /\
  full_url_original "https://image.civitai.com/x/a.jpeg" =
  "https://image.civitai.com/x/a.jpeg".
Proof. vm_compute; split; reflexivity. Qed.

(** ** The name of the target file *)

Lemma all_chars_app (p : ascii -> bool) (a b : string) :
  all_chars p (a ++ b)%string = all_chars p a && all_chars p b.
Proof.
  induction a as [|c a IH]; simpl; auto.
  rewrite IH, andb_assoc; reflexivity.
Qed.

Lemma all_chars_weaken (p q : ascii -> bool) (s : string) :
  (forall c, p c = true -> q c = true) ->
  all_chars p s = true -> all_chars q s = true.
Proof.
  intros H; induction s as [|c s IH]; simpl; auto.
  intros E; apply andb_true_iff in E; destruct E as [E1 E2].
  rewrite (H c E1), (IH E2); reflexivity.
Qed.

Lemma all_chars_no_char (p : ascii -> bool) (c : ascii) (s : string) :
  p c = false -> all_chars p s = true -> Py.has_char c s = false.
Proof.
  intros Hc; induction s as [|a s IH]; simpl; auto.
  intros E; apply andb_true_iff in E; destruct E as [E1 E2].
  rewrite (IH E2), orb_false_r.
  destruct (Ascii.eqb_spec a c); [congruence|reflexivity].
Qed.

Lemma keep_all_chars (p : ascii -> bool) (s : string) :
  all_chars p (Py.keep p s) = true.
Proof.
  induction s as [|c s IH]; simpl; auto.
  destruct (p c) eqn:E; simpl; auto. rewrite E; auto.
Qed.

Lemma keep_app (p : ascii -> bool) (a b : string) :
  Py.keep p (a ++ b)%string = (Py.keep p a ++ Py.keep p b)%string.
Proof.
  induction a as [|c a IH]; simpl; auto.
  destruct (p c); simpl; rewrite IH; reflexivity.
Qed.

Lemma keep_same (p : ascii -> bool) (s : string) :
  all_chars p s = true -> Py.keep p s = s.
Proof.
  induction s as [|c s IH]; simpl; auto.
  intros E; apply andb_true_iff in E; destruct E as [E1 E2].
  rewrite E1, (IH E2); reflexivity.
Qed.

Lemma string_app_assoc (a b c : string) :
  ((a ++ b) ++ c = a ++ (b ++ c))%string.
Proof. induction a as [|x a IH]; simpl; auto. rewrite IH; reflexivity. Qed.

Lemma string_app_nil_r (a : string) : (a ++ "" = a)%string.
Proof. induction a as [|x a IH]; simpl; auto. rewrite IH; reflexivity. Qed.

Lemma rev_onto_app (s acc : string) :
  Py.rev_onto s acc = (Py.reverse s ++ acc)%string.
Proof.
  unfold Py.reverse; revert acc; induction s as [|c s IH]; intros acc; simpl.
  - reflexivity.
  - rewrite IH, (IH (String c "")), string_app_assoc; reflexivity.
Qed.

Lemma reverse_app (a b : string) :
  Py.reverse (a ++ b) = (Py.reverse b ++ Py.reverse a)%string.
Proof.
  induction a as [|c a IH]; simpl.
  - rewrite string_app_nil_r; reflexivity.
  - unfold Py.reverse in *; simpl.
    rewrite !(rev_onto_app _ (String c "")); unfold Py.reverse.
    rewrite IH, string_app_assoc; reflexivity.
Qed.

Lemma reverse_twice (s : string) : Py.reverse (Py.reverse s) = s.
Proof.
  induction s as [|c s IH]; auto.
  change (String c s) with (String c "" ++ s)%string at 1.
  rewrite reverse_app, reverse_app, IH; reflexivity.
Qed.

Lemma all_chars_reverse (p : ascii -> bool) (s : string) :
  all_chars p (Py.reverse s) = all_chars p s.
Proof.
  induction s as [|c s IH]; auto.
  change (String c s) with (String c "" ++ s)%string at 1.
  rewrite reverse_app, all_chars_app, IH; simpl.
  rewrite andb_true_r, andb_comm; reflexivity.
Qed.

Lemma all_chars_lstrip (p : ascii -> bool) (s : string) :
  all_chars p s = true -> all_chars p (Py.lstrip s) = true.
Proof.
  induction s as [|c s IH]; simpl; auto.
  intros E; destruct (Py.isspace c); auto.
  apply andb_true_iff in E; tauto.
Qed.

Lemma all_chars_strip (p : ascii -> bool) (s : string) :
  all_chars p s = true -> all_chars p (Py.strip s) = true.
Proof.
  intros H; unfold Py.strip, Py.rstrip.
  rewrite all_chars_reverse; apply all_chars_lstrip.
  rewrite all_chars_reverse; apply all_chars_lstrip; auto.
Qed.

Lemma lstrip_app (a r : string) (c : ascii) :
  Py.isspace c = false ->
  Py.lstrip (a ++ String c r) = (Py.lstrip a ++ String c r)%string.
Proof.
  intros Hc; induction a as [|x a IH]; simpl.
  - rewrite Hc; reflexivity.
  - destruct (Py.isspace x); auto.
Qed.

Lemma rstrip_app (x e : string) (c : ascii) :
  Py.isspace c = false ->
  Py.rstrip (x ++ String c e) = (x ++ String c (Py.rstrip e))%string.
Proof.
  intros Hc; unfold Py.rstrip.
  change (String c e) with (String c "" ++ e)%string.
  rewrite !reverse_app, string_app_assoc.
  change (Py.reverse (String c "")) with (String c "").
  change (String c "" ++ Py.reverse x)%string with (String c (Py.reverse x)).
  rewrite lstrip_app by auto.
  rewrite reverse_app.
  change (String c (Py.reverse x)) with (String c "" ++ Py.reverse x)%string.
  rewrite reverse_app, reverse_twice, string_app_assoc; reflexivity.
Qed.

Lemma prefix_app (n b : string) : String.prefix n (n ++ b) = true.
Proof.
  induction n as [|c n IH]; simpl; [destruct b; reflexivity|].
  destruct (Ascii.ascii_dec c c); [auto|congruence].
Qed.

Lemma contains_app (a n b : string) :
  Py.contains n (a ++ (n ++ b))%string = true.
Proof.
  induction a as [|c a IH].
  - simpl (_ ++ _)%string.
    destruct (n ++ b)%string eqn:E; cbn [Py.contains];
      rewrite <- E, prefix_app; reflexivity.
  - cbn [Py.contains String.append]; cbn [Py.contains] in IH.
    rewrite IH, orb_true_r; reflexivity.
Qed.

Lemma uint_chars (d : Decimal.uint) :
  all_chars Py.isdigit (NilEmpty.string_of_uint d) = true.
Proof. induction d; simpl; auto. Qed.

Lemma str_chars (n : Z) : all_chars id_char (Py.str n) = true.
Proof.
  assert (H : forall d, all_chars id_char (NilZero.string_of_uint d) = true).
  { intros d.
    assert (E : all_chars id_char (NilEmpty.string_of_uint d) = true).
    { apply (all_chars_weaken Py.isdigit); [|apply uint_chars].
      intros c Hc; unfold id_char; rewrite Hc; reflexivity. }
    destruct d; auto. }
  unfold Py.str; destruct (Z.to_int n); simpl; auto.
Qed.

Lemma id_char_is_file_char (c : ascii) : id_char c = true -> file_char c = true.
Proof.
  unfold id_char, file_char, name_char; intros H.
  apply orb_true_iff in H; destruct H as [->| ->]; simpl;
    rewrite ?orb_true_r; reflexivity.
Qed.

Lemma name_char_is_file_char (c : ascii) :
  name_char c = true -> file_char c = true.
Proof. unfold file_char; intros ->; reflexivity. Qed.

Lemma sanitize_chars (s : string) : all_chars name_char (sanitize s) = true.
Proof. apply all_chars_strip, keep_all_chars. Qed.

Lemma user_display_name_chars (it : item) :
  all_chars name_char (User.display_name it) = true.
Proof.
  assert (Hf : all_chars name_char ("image_" ++ Py.str (id it)) = true).
  { rewrite all_chars_app; simpl.
    apply (all_chars_weaken id_char); [|apply str_chars].
    unfold id_char, name_char; intros c H.
    apply orb_true_iff in H; destruct H as [->| ->]; simpl;
      rewrite ?orb_true_r; reflexivity. }
  unfold User.display_name; cbv zeta.
  generalize (if Py.truthy (name it)
              then match name it with
                   | Some n => n
                   | None => ("image_" ++ Py.str (id it))%string
                   end
              else ("image_" ++ Py.str (id it))%string).
  intros n0. destruct (String.eqb n0 "") eqn:E; simpl.
  - rewrite E; exact Hf.
  - destruct (String.eqb (sanitize n0) ""); [exact Hf|apply sanitize_chars].
Qed.

Lemma collection_display_name_chars (it : item) (u : string) :
  all_chars name_char (Collection.display_name it u) = true.
Proof.
  unfold Collection.display_name.
  destruct (negb (Py.startswith u "http")).
  - destruct (name it) as [n|] eqn:E; [|reflexivity].
    unfold Py.truthy. destruct (String.eqb_spec n ""); simpl; subst; auto.
    apply sanitize_chars.
  - apply user_display_name_chars.
Qed.

(** A name built as the scripts build it, around [_<id>.]. *)
Lemma composed_name (P e : string) (n : Z) :
  all_chars name_char P = true ->
  sanitize_filename (P ++ "_" ++ Py.str n ++ "." ++ e) =
  (Py.lstrip P ++ "_" ++ Py.str n ++ "." ++ Py.rstrip (Py.keep file_char e))
    %string.
Proof.
  intros HP; unfold sanitize_filename.
  assert (Hn : all_chars file_char (Py.str n) = true)
    by (apply (all_chars_weaken id_char);
        [apply id_char_is_file_char|apply str_chars]).
  assert (HP' : all_chars file_char P = true)
    by (apply (all_chars_weaken name_char);
        [apply name_char_is_file_char|auto]).
  rewrite keep_app, (keep_same _ P HP').
  change ("_" ++ Py.str n ++ "." ++ e)%string
    with (String "_" (Py.str n ++ String "." e)).
  cbn [Py.keep]. change (file_char "_") with true. cbv iota.
  rewrite keep_app, (keep_same _ _ Hn).
  cbn [Py.keep]. change (file_char ".") with true. cbv iota.
  unfold Py.strip. rewrite lstrip_app by reflexivity.
  change (Py.lstrip P ++ String "_" (Py.str n ++ String "." (Py.keep file_char e)))%string
    with (Py.lstrip P ++ (String "_" (Py.str n) ++ String "." (Py.keep file_char e)))%string.
  rewrite <- string_app_assoc, rstrip_app by reflexivity.
  rewrite string_app_assoc; reflexivity.
Qed.

Lemma head_of_name (A r : string) :
  all_chars name_char A = true ->
  exists c t, (A ++ String "_" r)%string = String c t /\ c <> "."%char.
Proof.
  destruct A as [|a A]; simpl.
  - intros _; exists "_"%char, r; split; [reflexivity|discriminate].
  - intros H; apply andb_true_iff in H; destruct H as [Ha _].
    exists a, (A ++ String "_" r)%string; split; auto.
    intros ->; discriminate.
Qed.

Lemma not_dot_start (c : ascii) (t : string) :
  c <> "."%char -> Py.startswith (String c t) "." = false.
Proof.
  intros H; unfold Py.startswith; cbn [String.prefix].
  destruct (Ascii.ascii_dec "." c); [congruence|reflexivity].
Qed.

Lemma needle_assoc (m e : string) :
  ("_" ++ m ++ "." ++ e = ("_" ++ m ++ ".") ++ e)%string.
Proof. simpl; f_equal; induction m; simpl in *; congruence. Qed.

Lemma owner_assoc (o d r : string) :
  ((o ++ "_" ++ d) ++ r = o ++ "_" ++ d ++ r)%string.
Proof. induction o; simpl in *; congruence. Qed.

Lemma composed_name_matches (P e : string) (n : Z) :
  all_chars name_char P = true ->
  glob_match n
    (clamp_filename (sanitize_filename (P ++ "_" ++ Py.str n ++ "." ++ e))
       n e) = true.
Proof.
  intros HP; rewrite (composed_name P e n HP).
  set (E := Py.rstrip (Py.keep file_char e)).
  destruct (head_of_name (Py.lstrip P) (Py.str n ++ "." ++ E)
              (all_chars_lstrip _ _ HP)) as (c & t & Hct & Hc).
  change (Py.lstrip P ++ "_" ++ Py.str n ++ "." ++ E)%string
    with (Py.lstrip P ++ String "_" (Py.str n ++ "." ++ E))%string.
  unfold clamp_filename, glob_match.
  destruct (200 <? _)%nat.
  - apply andb_true_iff; split.
    + rewrite Hct. change (Py.take 100 (String c t))
        with (String c (Py.take 99 t)).
      cbn [String.append]. rewrite not_dot_start; auto.
    + rewrite needle_assoc; apply contains_app.
  - apply andb_true_iff; split.
    + rewrite Hct, not_dot_start; auto.
    + change (String "_" (Py.str n ++ "." ++ E))%string
        with ("_" ++ Py.str n ++ "." ++ E)%string.
      rewrite needle_assoc; apply contains_app.
Qed.

(** X10. The name under which [download_image] (either script) stores an
    item always matches the pattern [*_<id>.*] that the reconciliation
    pass globs for the same item: a file the script has written is among
    the matches of any later run. *)
Theorem target_name_matches_its_pattern (s : script) (it : item) (p : plan) :
  prepare s it = Some p -> glob_match (id it) (filename p) = true.
Proof.
  destruct s; simpl; unfold User.prepare, Collection.prepare;
    destruct (negb (Py.truthy (url it))); try discriminate;
    destruct (url it) as [u|]; try discriminate;
    try (destruct (Collection.creator it) as [creator|] eqn:Hc;
         [|discriminate]);
    intros H; inversion H; subst; cbn [filename].
  - apply composed_name_matches, user_display_name_chars.
  - destruct (Collection.owner_prefix creator) as [o|] eqn:Ho.
    + pose proof (owner_assoc o (Collection.display_name it u)
                    ("_" ++ Py.str (id it) ++ "." ++
                     Collection.resolve_ext it u)) as Ha.
      cbn [String.append] in Ha |- *; rewrite <- Ha.
      apply (composed_name_matches
               (o ++ String "_" (Collection.display_name it u))).
      rewrite all_chars_app; cbn [String.append all_chars].
      rewrite collection_display_name_chars.
      change (name_char "_") with true.
      assert (all_chars name_char o = true) as ->; [|reflexivity].
      unfold Collection.owner_prefix in Ho.
      destruct (Py.truthy creator); [|discriminate].
      destruct creator as [w0|]; [|discriminate].
      destruct (String.eqb (sanitize w0) ""); [discriminate|].
      inversion Ho; apply sanitize_chars.
    + apply composed_name_matches, collection_display_name_chars.
Qed.

Lemma target_name_matches_its_pattern_witness :
  glob_match 42 "alice_newname_42.png" = true.
Proof.
  refine (target_name_matches_its_pattern CollectionScript item_alice
            (mk_plan "https://image.civitai.com/x/width=450/newname.png"
               "https://image.civitai.com/x/original=true/newname.png"
               "png" "alice_newname_42.png") _).
  vm_compute; reflexivity.
Defined.

Lemma split_part_chars (c d : ascii) (s p : string) :
  In p (Py.split c s) -> Py.has_char d s = false -> Py.has_char d p = false.
Proof.
  revert p; induction s as [|a r IH]; intros p; simpl.
  - intros [<-|[]]; auto.
  - intros Hin H; apply orb_false_iff in H; destruct H as [Ha Hr].
    destruct (Ascii.eqb a c).
    + destruct Hin as [<-|Hin]; auto.
    + destruct (Py.split c r) as [|h t] eqn:E.
      * destruct Hin as [<-|[]]; simpl; rewrite Ha; reflexivity.
      * destruct Hin as [<-|Hin]; [|apply IH; auto; right; auto].
        simpl; rewrite Ha; simpl; apply IH; auto; left; auto.
Qed.

Lemma last_part_in (c : ascii) (s : string) :
  In (Py.last_part (Py.split c s)) (Py.split c s).
Proof.
  unfold Py.last_part.
  destruct (exists_last (split_not_nil c s)) as (l & x & ->).
  rewrite last_last; apply in_or_app; right; left; reflexivity.
Qed.

Lemma first_part_in (c : ascii) (s : string) :
  In (Py.first_part (Py.split c s)) (Py.split c s).
Proof.
  unfold Py.first_part. destruct (Py.split c s) eqn:E; [|left; reflexivity].
  exfalso; eapply split_not_nil; eauto.
Qed.

Lemma ext_from_url_no_slash (u : string) :
  Py.has_char "/" (ext_from_url u "png") = false.
Proof.
  unfold ext_from_url.
  set (seg := Py.last_part (Py.split "/" u)).
  assert (Hseg : Py.has_char "/" seg = false)
    by (apply (split_parts_no_sep "/" u), last_part_in).
  destruct (Py.has_char "." seg); [|reflexivity].
  set (part := Py.first_part (Py.split "?" seg)).
  assert (Hpart : Py.has_char "/" part = false)
    by (apply (split_part_chars "?" "/" seg); [apply first_part_in|auto]).
  destruct (Py.has_char "." part); [|reflexivity].
  apply (split_part_chars "." "/" part); [apply last_part_in|auto].
Qed.

Lemma resolve_ext_no_slash (s : script) (it : item) (u : string) :
  Py.has_char "/"
    (match s with
     | UserScript => User.resolve_ext it u
     | CollectionScript => Collection.resolve_ext it u
     end) = false.
Proof.
  destruct s; unfold User.resolve_ext, Collection.resolve_ext;
    repeat match goal with
           | |- context [if ?b then _ else _] => destruct b
           end; auto using ext_from_url_no_slash.
Qed.

Lemma all_chars_take (p : ascii -> bool) (n : nat) (s : string) :
  all_chars p s = true -> all_chars p (Py.take n s) = true.
Proof.
  revert s; induction n as [|n IH]; intros [|c s]; simpl; auto.
  intros H; apply andb_true_iff in H; destruct H as [-> H]; simpl; auto.
Qed.

Lemma clamp_no_slash (f e : string) (n : Z) :
  Py.has_char "/" e = false ->
  Py.has_char "/" (clamp_filename (sanitize_filename f) n e) = false.
Proof.
  intros He.
  assert (Hf : all_chars file_char (sanitize_filename f) = true)
    by (apply all_chars_strip, keep_all_chars).
  unfold clamp_filename; destruct (200 <? _)%nat.
  - rewrite !has_char_app, He.
    rewrite (all_chars_no_char file_char "/" _ eq_refl
               (all_chars_take _ 100 _ Hf)).
    rewrite (all_chars_no_char id_char "/" _ eq_refl (str_chars n)).
    reflexivity.
  - apply (all_chars_no_char file_char); auto.
Qed.

(** X11. The name under which [download_image] (either script) stores an
    item never contains the path separator [/], whatever the name, the
    creator name and the URL of the item are: the file is always created
    in the output directory itself. *)
Theorem target_name_has_no_slash (s : script) (it : item) (p : plan) :
  prepare s it = Some p -> Py.has_char "/" (filename p) = false.
Proof.
  destruct s; simpl; unfold User.prepare, Collection.prepare;
    destruct (negb (Py.truthy (url it))); try discriminate;
    destruct (url it) as [u|]; try discriminate;
    try (destruct (Collection.creator it) as [creator|] eqn:Hc;
         [|discriminate]);
    intros H; inversion H; subst; cbn [filename]; apply clamp_no_slash.
  - apply (resolve_ext_no_slash UserScript).
  - apply (resolve_ext_no_slash CollectionScript).
Qed.

Lemma target_name_has_no_slash_witness :
  Py.has_char "/" "aetcpasswd_9.png" = false.
Proof.
  refine (target_name_has_no_slash UserScript
            (mk_item 9 (Some "https://h/x/y.png") (Some "../a/../etc/passwd")
               None None Missing None Missing None None)
            (mk_plan "https://h/x/y.png" "https://h/x/y.png" "png"
               "aetcpasswd_9.png") _).
  vm_compute; reflexivity.
Defined.

(** ** Reading a listing page by page *)

Lemma collection_images_pages (srv : api item) (pages : list (page item)) :
  forall fuel c acc w,
    (List.length pages <= fuel)%nat ->
    listing c pages -> serves srv (sent w) pages ->
    Collection.images_loop srv fuel c acc w =
    Some (acc ++ flat_map items pages,
          after_requests w (List.length pages)
            (one_request_each (cursors_asked c pages))).
Proof.
  induction pages as [|p rest IH]; intros fuel c acc w Hfuel Hl Hs;
    [destruct Hl|].
  destruct fuel as [|fuel]; [simpl in Hfuel; lia|].
  destruct (serves_tail _ _ _ _ Hs) as [Hp Hrest].
  destruct Hl as [Hne Hl].
  cbn [Collection.images_loop].
  rewrite (collection_first_attempt srv c w p (Hp c)).
  destruct (items p) as [|x xs] eqn:Ei; [congruence|]; cbv zeta.
  destruct rest as [|q rest'].
  - rewrite Hl; simpl. rewrite app_nil_r, Ei; reflexivity.
  - destruct Hl as (Ht & He & Hl). rewrite Ht, He; simpl negb; cbv iota.
    cbn [orb].
    rewrite (IH fuel (nextCursor p) (acc ++ x :: xs)
               (after_requests w 1 [Jitter; Query c])).
    + rewrite after_requests_step, cursors_asked_cons.
      cbn [flat_map]. rewrite Ei, <- app_assoc. reflexivity.
    + simpl in *; lia.
    + exact Hl.
    + unfold after_requests; simpl; rewrite Nat.add_1_r; exact Hrest.
Qed.

(** X12. Against an API that serves a well-behaved listing,
    [get_collection_images] asks for each page exactly once, hands the
    cursor named by a page to the request for the next, and returns the
    items of all pages in the order served. *)
Theorem get_collection_images_reads_every_page (srv : api item)
  (pages : list (page item)) (fuel : nat) (w : world) :
  (List.length pages <= fuel)%nat ->
  listing None pages -> serves srv (sent w) pages ->
  Collection.get_collection_images srv fuel w =
  Some (flat_map items pages,
        after_requests w (List.length pages)
          (one_request_each (cursors_asked None pages))).
Proof.
  intros Hfuel Hl Hs; unfold Collection.get_collection_images.
  apply (collection_images_pages srv pages fuel None [] w Hfuel Hl Hs).
Qed.

Lemma get_collection_images_reads_every_page_witness :
  Collection.get_collection_images two_pages_api 2 (fresh []) =
  Some ([recent_shot; old_shot],
        mk_world [] 2
          [Jitter; Query None; Jitter; Query (Some (CNum 7))]).
Proof.
  refine (get_collection_images_reads_every_page two_pages_api two_pages 2
            (fresh []) _ _ _).
  - simpl; lia.
  - simpl; repeat split; discriminate.
  - intros i c Hi; reflexivity.
Defined.

(** X13. Without a date bound and against an API that serves a
    well-behaved listing, [get_images] asks for each page exactly once,
    hands the cursor named by a page to the request for the next, and
    hands to its final sort the images of all pages that pass its
    ownership check, in the order served: it returns them sorted newest
    first, or ends with the [TypeError] of that sort. *)
Theorem get_images_reads_every_page (parse_iso : string -> option Z)
  (q : owner_query) (srv : api item) (pages : list (page item))
  (fuel : nat) (w : world) :
  (List.length pages <= fuel)%nat ->
  listing None pages -> serves srv (sent w) pages ->
  User.get_images parse_iso None q srv fuel w =
  Some (py_sort
          (flat_map (fun p => filter (fun img => owner_ok q (userId img))
                                (items p)) pages),
        after_requests w (List.length pages)
          (one_request_each (cursors_asked None pages))).
Proof.
  intros Hfuel Hl Hs; unfold User.get_images.
  rewrite (user_images_pages parse_iso None q srv pages fuel None [] w
             Hfuel Hl Hs).
  - cbn [app]. do 3 f_equal.
    apply flat_map_ext; intros p. apply filter_ext; intros img.
    unfold User.keep_image, User.older_than_bound; simpl.
    apply andb_true_r.
  - intros pg _; apply no_bound_never_stops.
Qed.

Lemma get_images_reads_every_page_witness :
  User.get_images no_parse None (ByUserId 7) owned_api 2 (fresh []) =
  Some (Some [mine; stale; anon],
        mk_world [] 2
          [Jitter; Query None; Jitter; Query (Some (CNum 7))]).
Proof.
  refine (get_images_reads_every_page no_parse (ByUserId 7)
            owned_api owned_pages 2 (fresh []) _ _ _).
  - simpl; lia.
  - simpl; repeat split; discriminate.
  - intros i c Hi; reflexivity.
Defined.

Lemma collection_posts_pages (srv : api post) (pages : list (page post)) :
  forall fuel c acc w,
    (List.length pages <= fuel)%nat ->
    listing c pages -> serves srv (sent w) pages ->
    Collection.posts_loop srv fuel c acc w =
    Some (acc ++ flat_map (fun p => Collection.extract (items p)) pages,
          after_requests w (List.length pages)
            (one_request_each (cursors_asked c pages))).
Proof.
  induction pages as [|p rest IH]; intros fuel c acc w Hfuel Hl Hs;
    [destruct Hl|].
  destruct fuel as [|fuel]; [simpl in Hfuel; lia|].
  destruct (serves_tail _ _ _ _ Hs) as [Hp Hrest].
  destruct Hl as [Hne Hl].
  cbn [Collection.posts_loop]; cbv zeta.
  unfold query, emit; cbn [sent files log]. rewrite (Hp c).
  change (is_error_status 200) with false; cbv iota.
  destruct (items p) as [|x xs] eqn:Ei; [congruence|].
  rewrite log_two.
  assert (Ew : mk_world (files w) (S (sent w)) (log w ++ [Jitter; Query c]) =
               after_requests w 1 [Jitter; Query c])
    by (unfold after_requests; rewrite Nat.add_1_r; reflexivity).
  rewrite Ew.
  destruct rest as [|q rest'].
  - rewrite Hl; simpl. rewrite app_nil_r, Ei; reflexivity.
  - destruct Hl as (Ht & He & Hl). rewrite Ht; simpl negb; cbv iota.
    rewrite (IH fuel (nextCursor p) (acc ++ Collection.extract (x :: xs))
               (after_requests w 1 [Jitter; Query c])).
    + rewrite after_requests_step, cursors_asked_cons.
      cbn [flat_map]. rewrite Ei, <- app_assoc. reflexivity.
    + simpl in *; lia.
    + exact Hl.
    + unfold after_requests; simpl; rewrite Nat.add_1_r; exact Hrest.
Qed.

(** X14. Against an API that serves a well-behaved listing of posts,
    [get_collection_posts] asks for each page exactly once, hands the
    cursor named by a page to the request for the next, and returns the
    images of all posts of all pages, in order, each with the id and the
    date of its post under [postId] and [postDate]; an image without a
    [createdAt] key gets the date of its post under that key too, and an
    image with the key keeps what it holds, [null] included. *)
Theorem get_collection_posts_reads_every_page (srv : api post)
  (pages : list (page post)) (fuel : nat) (w : world) :
  (List.length pages <= fuel)%nat ->
  listing None pages -> serves srv (sent w) pages ->
  Collection.get_collection_posts srv fuel w =
  Some (flat_map (fun pg =>
                    flat_map (fun p => map (User.attach p) (post_images p))
                      (items pg)) pages,
        after_requests w (List.length pages)
          (one_request_each (cursors_asked None pages))).
Proof.
  intros Hfuel Hl Hs; unfold Collection.get_collection_posts.
  apply (collection_posts_pages srv pages fuel None [] w Hfuel Hl Hs).
Qed.

Lemma get_collection_posts_reads_every_page_witness :
  option_map (fun r => (map id (fst r), map postId (fst r),
                        map createdAt (fst r), sent (snd r)))
    (Collection.get_collection_posts dated_post_api 1 (fresh [])) =
  Some ([1; 4; 3], [Some 5; Some 5; Some 5],
        [Val "2025-12-11T00:00:00Z"; Null; Val "2025-12-01T00:00:00Z"],
        1%nat).
Proof.
  rewrite (get_collection_posts_reads_every_page dated_post_api
             [mk_page [dated_post] None] 1 (fresh [])).
  - reflexivity.
  - simpl; lia.
  - simpl; repeat split; discriminate.
  - intros i c Hi; destruct i; [reflexivity|simpl in Hi; lia].
Defined.

Lemma listing_app_head {A : Type} (c : option cursor) (p : page A)
  (rest more : list (page A)) :
  more <> [] -> listing c ((p :: rest) ++ more) ->
  items p <> [] /\ cursor_truthy (nextCursor p) = true /\
  listing (nextCursor p) (rest ++ more).
Proof.
  intros Hm; simpl. destruct (rest ++ more) as [|q l] eqn:E.
  - destruct rest; simpl in E; [congruence|discriminate].
  - intros (H1 & H2 & _ & H3); auto.
Qed.

Lemma collection_posts_pages_then_failure (srv : api post)
  (pages more : list (page post)) :
  forall fuel c acc w,
    (List.length pages < fuel)%nat -> more <> [] ->
    listing c (pages ++ more) -> serves srv (sent w) pages ->
    (forall c', failing_reply (srv (sent w + List.length pages)%nat c')) ->
    Collection.posts_loop srv fuel c acc w =
    Some (acc ++ flat_map (fun p => Collection.extract (items p)) pages,
          after_requests w (S (List.length pages))
            (one_request_each (c :: map nextCursor pages))).
Proof.
  induction pages as [|p rest IH]; intros fuel c acc w Hfuel Hm Hl Hs Hbad;
    (destruct fuel as [|fuel]; [simpl in Hfuel; lia|]);
    cbn [Collection.posts_loop]; cbv zeta;
    unfold query, emit; cbn [sent files log]; rewrite log_two.
  - specialize (Hbad c); simpl in Hbad; rewrite Nat.add_0_r in Hbad.
    assert (Ew : mk_world (files w) (S (sent w))
                   (log w ++ [Jitter; Query c]) =
                 after_requests w 1 (one_request_each [c]))
      by (unfold after_requests; rewrite Nat.add_1_r; reflexivity).
    destruct (srv (sent w) c) as [st e d|t]; simpl in Hbad.
    + rewrite Hbad, app_nil_r, Ew; reflexivity.
    + rewrite app_nil_r, Ew; reflexivity.
  - destruct (serves_tail _ _ _ _ Hs) as [Hp Hrest].
    destruct (listing_app_head c p rest more Hm Hl) as (Hne & Ht & Hl').
    rewrite (Hp c). change (is_error_status 200) with false; cbv iota.
    destruct (items p) as [|x xs] eqn:Ei; [congruence|].
    rewrite Ht; simpl negb; cbv iota.
    assert (Ew : mk_world (files w) (S (sent w))
                   (log w ++ [Jitter; Query c]) =
                 after_requests w 1 [Jitter; Query c])
      by (unfold after_requests; rewrite Nat.add_1_r; reflexivity).
    rewrite Ew.
    rewrite (IH fuel (nextCursor p) (acc ++ Collection.extract (x :: xs))
               (after_requests w 1 [Jitter; Query c])).
    + rewrite after_requests_step. cbn [flat_map map List.length].
      rewrite Ei, <- app_assoc. reflexivity.
    + simpl in *; lia.
    + exact Hm.
    + exact Hl'.
    + unfold after_requests; simpl; rewrite Nat.add_1_r; exact Hrest.
    + intros c'; specialize (Hbad c').
      unfold after_requests; simpl in *.
      rewrite Nat.add_1_r; simpl. rewrite Nat.add_succ_r in Hbad; exact Hbad.
Qed.

(** X15. [get_collection_posts] does not retry: when the API, after
    serving the first pages of a well-behaved listing, answers the next
    request with an exception or an HTTP error status, the function
    returns the images of the pages read so far, having asked for the
    failing page exactly once and without any back-off. *)
Theorem get_collection_posts_stops_at_first_failure (srv : api post)
  (pages more : list (page post)) (fuel : nat) (w : world) :
  (List.length pages < fuel)%nat -> more <> [] ->
  listing None (pages ++ more) -> serves srv (sent w) pages ->
  (forall c, failing_reply (srv (sent w + List.length pages)%nat c)) ->
  Collection.get_collection_posts srv fuel w =
  Some (flat_map (fun pg => Collection.extract (items pg)) pages,
        after_requests w (S (List.length pages))
          (one_request_each (None :: map nextCursor pages))).
Proof.
  intros Hfuel Hm Hl Hs Hbad; unfold Collection.get_collection_posts.
  apply (collection_posts_pages_then_failure srv pages more fuel None [] w
           Hfuel Hm Hl Hs Hbad).
Qed.

Lemma get_collection_posts_stops_at_first_failure_witness :
  option_map (fun r => (map id (fst r), sent (snd r), log (snd r)))
    (Collection.get_collection_posts breaking_api 5 (fresh [])) =
  Some ([1], 2%nat, [Jitter; Query None; Jitter; Query (Some (CNum 7))]).
Proof.
  rewrite (get_collection_posts_stops_at_first_failure breaking_api
             (firstn 1 post_pages) (skipn 1 post_pages) 5 (fresh [])).
  - reflexivity.
  - simpl; lia.
  - discriminate.
  - simpl; repeat split; discriminate.
  - intros i c Hi. destruct i; [reflexivity|simpl in Hi; lia].
  - intros c; reflexivity.
Defined.

(** ** Resolving a collection *)

Lemma uint_string_nonempty (d : Decimal.uint) :
  NilZero.string_of_uint d <> EmptyString.
Proof. destruct d; discriminate. Qed.

Lemma zero_string_digits (d : Decimal.uint) :
  all_chars Py.isdigit (NilZero.string_of_uint d) = true.
Proof. destruct d; try apply uint_chars; reflexivity. Qed.

Lemma str_of_nonneg (n : Z) :
  0 <= n -> exists d, Py.str n = NilZero.string_of_uint d /\ Z.of_uint d = n.
Proof.
  intros Hn; unfold Py.str.
  pose proof (DecimalZ.of_to n) as H.
  destruct n as [|p|p]; [| |lia].
  - exists (Decimal.D0 Decimal.Nil); split; reflexivity.
  - exists (Pos.to_uint p); split; [reflexivity|exact H].
Qed.

Lemma str_isdigit_str (n : Z) : 0 <= n -> str_isdigit (Py.str n) = true.
Proof.
  intros Hn; destruct (str_of_nonneg n Hn) as (d & -> & _).
  unfold str_isdigit; rewrite zero_string_digits, andb_true_r.
  apply negb_true_iff, String.eqb_neq, uint_string_nonempty.
Qed.

Lemma int_of_digits_str (n : Z) : 0 <= n -> int_of_digits (Py.str n) = Some n.
Proof.
  intros Hn; destruct (str_of_nonneg n Hn) as (d & -> & Hd).
  unfold int_of_digits.
  destruct (Decimal.uint_eq_dec d Decimal.Nil) as [->|Hne].
  - cbv in Hd |- *; congruence.
  - rewrite (NilZero.usu d Hne); simpl; congruence.
Qed.

Lemma int_of_digits_nonneg (s : string) (n : Z) :
  int_of_digits s = Some n -> 0 <= n.
Proof.
  unfold int_of_digits; destruct (NilZero.uint_of_string s); simpl;
    [|discriminate].
  intros H; inversion H; unfold Z.of_uint; apply N2Z.is_nonneg.
Qed.

Lemma collections_path_parts (s : string) :
  Py.has_char "/" s = false ->
  Py.split "/" ("/collections/" ++ s) = [""; "collections"; s].
Proof.
  intros H.
  change ("/collections/" ++ s)%string
    with ("" ++ String "/" ("collections" ++ String "/" s))%string.
  rewrite split_app_sep by reflexivity.
  rewrite split_app_sep by reflexivity.
  rewrite split_no_sep by auto. reflexivity.
Qed.

(** X16. [get_collection_id] reads back what [str] prints: given the
    decimal text of a non-negative id it returns that id, and it returns
    the same id for an input that is not all digits and whose URL path
    is [/collections/<id>]. *)
Theorem get_collection_id_reads_the_id (url_path : string -> string)
  (n : Z) :
  0 <= n ->
  get_collection_id url_path (Py.str n) = Some n /\
  forall input,
    str_isdigit input = false ->
    url_path input = ("/collections/" ++ Py.str n)%string ->
    get_collection_id url_path input = Some n.
Proof.
  intros Hn; unfold get_collection_id; split.
  - rewrite str_isdigit_str by auto. apply int_of_digits_str; auto.
  - intros input Hd Hp; rewrite Hd, Hp, collections_path_parts.
    + cbn [part_after]. change (String.eqb "" "collections") with false.
      change (String.eqb "collections" "collections") with true.
      cbv iota; cbn [hd_error].
      rewrite str_isdigit_str by auto. apply int_of_digits_str; auto.
    + apply (all_chars_no_char id_char); [reflexivity|apply str_chars].
Qed.

Lemma get_collection_id_reads_the_id_witness :
  get_collection_id (fun _ => "/collections/14197464") "14197464"
  = Some 14197464 /\
  get_collection_id (fun _ => "/collections/14197464")
    "https://civitai.com/collections/14197464" = Some 14197464.
Proof.
  destruct (get_collection_id_reads_the_id
              (fun _ => "/collections/14197464") 14197464) as [H1 H2];
    [lia|].
  split; [exact H1|apply H2; reflexivity].
Defined.

(** X17. When [process_collection] goes on to download, the collection id
    is positive and the folder name is non-empty and made of letters,
    digits, spaces, hyphens and underscores only, so that it names a
    folder directly under [downloads]; when the answer about the
    collection is not a 200 the name is [Collection_<id>]. *)
Theorem resolved_collection_is_safe (url_path : string -> string)
  (input : string) (answer : reply (option (option string)))
  (cid : Z) (folder : string) :
  resolve_collection url_path input answer = Some (cid, folder) ->
  0 < cid /\ folder <> EmptyString /\
  all_chars name_char folder = true /\ Py.has_char "/" folder = false /\
  Py.has_char "." folder = false /\
  ((forall e payload, answer <> Response 200 e payload) ->
   folder = ("Collection_" ++ Py.str cid)%string).
Proof.
  unfold resolve_collection, get_collection_id.
  set (found := if str_isdigit input then int_of_digits input else _).
  assert (Hnn : forall n, found = Some n -> 0 <= n).
  { unfold found; intros n.
    destruct (str_isdigit input); [apply int_of_digits_nonneg|].
    destruct (part_after _ _) as [pid|]; [|discriminate].
    destruct (str_isdigit pid); [apply int_of_digits_nonneg|discriminate]. }
  destruct found as [n|]; [|discriminate].
  destruct (Z.eqb_spec n 0) as [|Hz]; [discriminate|].
  destruct (get_collection_name n answer) as [nm|] eqn:En; [|discriminate].
  destruct (String.eqb_spec nm "") as [|Hne]; [discriminate|].
  intros H; inversion H; subst cid folder.
  assert (Hfb : all_chars name_char ("Collection_" ++ Py.str n) = true).
  { rewrite all_chars_app; simpl.
    apply (all_chars_weaken id_char); [|apply str_chars].
    unfold id_char, name_char; intros c Hc.
    apply orb_true_iff in Hc; destruct Hc as [->| ->]; simpl;
      rewrite ?orb_true_r; reflexivity. }
  assert (Hchars : all_chars name_char nm = true).
  { revert En; unfold get_collection_name.
    destruct answer as [st e payload|t].
    - destruct (st =? 200).
      + destruct payload as [[nm0|]|]; simpl.
        * destruct (negb (nm0 =? "")%string); intros E; inversion E; subst;
            auto using sanitize_chars.
        * intros E; inversion E; subst; auto.
        * discriminate.
      + intros E; inversion E; subst; auto.
    - intros E; inversion E; subst; auto. }
  specialize (Hnn n eq_refl).
  refine (conj _ (conj Hne (conj Hchars (conj _ (conj _ _))))).
  - lia.
  - apply (all_chars_no_char name_char); auto.
  - apply (all_chars_no_char name_char); auto.
  - intros Hans; revert En; unfold get_collection_name.
    destruct answer as [st e payload|t].
    + destruct (Z.eqb_spec st 200) as [->|_].
      * exfalso; eapply Hans; reflexivity.
      * intros E; inversion E; reflexivity.
    + intros E; inversion E; reflexivity.
Qed.

Lemma resolved_collection_is_safe_witness :
  0 < 14197464 /\ "fav  art" <> EmptyString /\
  all_chars name_char "fav  art" = true /\
  Py.has_char "/" "fav  art" = false /\ Py.has_char "." "fav  art" = false /\
  ((forall e payload,
      Response 200 "" (Some (Some "../fav / art.")) <> Response 200 e payload) ->
   "fav  art" = ("Collection_" ++ Py.str 14197464)%string).
Proof.
  refine (resolved_collection_is_safe (fun _ => "/collections/14197464")
            "https://civitai.com/collections/14197464"
            (Response 200 "" (Some (Some "../fav / art."))) 14197464
            "fav  art" _).
  vm_compute; reflexivity.
Defined.

(** ** Resolving a user *)

Lemma contains_first_char (c : ascii) (r hay : string) :
  Py.contains (String c r) hay = true -> Py.has_char c hay = true.
Proof.
  induction hay as [|a hay IH]; [discriminate|].
  cbn [Py.contains String.prefix Py.has_char].
  destruct (Ascii.ascii_dec c a) as [->|Hne].
  - rewrite Ascii.eqb_refl; reflexivity.
  - cbn [orb]; intros H; rewrite (IH H), orb_true_r; reflexivity.
Qed.

(** X18. When [process_user] goes on to list a user, it queries by user
    name exactly when the folder name is non-empty and does not start
    with [User_], the name then being one that [get_user_id] resolved to
    a non-zero id; otherwise it queries by a non-zero numeric id.  In
    particular a user whose name starts with [User_] is always queried
    by id. *)
Theorem resolve_user_query (url_path : string -> string)
  (get_user_id : string -> option Z) (input folder : string)
  (q : owner_query) :
  resolve_user url_path get_user_id input = Some (folder, q) ->
  match q with
  | ByUsername u =>
      u = folder /\ folder <> EmptyString /\
      Py.startswith folder "User_" = false /\
      exists n, get_user_id folder = Some n /\ n <> 0
  | ByUserId n =>
      n <> 0 /\ (folder = EmptyString \/ Py.startswith folder "User_" = true)
  end.
Proof.
  unfold resolve_user; cbv zeta.
  set (found := if Py.contains "civitai.com/user/" input then _ else _).
  assert (Hfound : forall u uid,
            found = Some (u, uid) ->
            uid = get_user_id u \/ Py.startswith u "User_" = true).
  { unfold found; intros u uid.
    destruct (Py.contains "civitai.com/user/" input).
    - destruct (part_after _ _) as [v|]; [|discriminate].
      intros H; inversion H; auto.
    - destruct (no_user_id (get_user_id input) && str_isdigit input).
      + destruct (int_of_digits input) as [n|]; [|discriminate].
        intros H; inversion H; right; exact (prefix_app "User_" (Py.str n)).
      + intros H; inversion H; auto. }
  destruct found as [[u uid]|]; [|discriminate].
  specialize (Hfound u uid eq_refl).
  destruct (no_user_id uid) eqn:Hno; [discriminate|].
  destruct uid as [n|]; [|discriminate].
  simpl in Hno; apply Z.eqb_neq in Hno.
  destruct (String.eqb_spec u "") as [->|Hu]; simpl.
  - intros H; inversion H; auto.
  - destruct (Py.startswith u "User_") eqn:Hs; simpl;
      intros H; inversion H; subst; auto.
    repeat split; auto.
    destruct Hfound as [E|E]; [eauto|congruence].
Qed.

Lemma resolve_user_query_witness :
  "Grutzy" = "Grutzy" /\ "Grutzy" <> EmptyString /\
  Py.startswith "Grutzy" "User_" = false /\
  exists n, (fun u => if String.eqb u "Grutzy" then Some 77 else None)
              "Grutzy" = Some n /\ n <> 0.
Proof.
  refine (resolve_user_query (fun _ => "/user/Grutzy")
            (fun u => if String.eqb u "Grutzy" then Some 77 else None)
            "https://civitai.com/user/Grutzy" "Grutzy"
            (ByUsername "Grutzy") _).
  vm_compute; reflexivity.
Defined.

(** X19. A numeric input that [get_user_id] does not resolve as a user
    name is taken as the user id itself: [process_user] lists by that id
    and stores under [User_<id>]. *)
Theorem unresolved_number_is_a_user_id (url_path : string -> string)
  (get_user_id : string -> option Z) (n : Z) :
  0 < n -> no_user_id (get_user_id (Py.str n)) = true ->
  resolve_user url_path get_user_id (Py.str n) =
  Some (("User_" ++ Py.str n)%string, ByUserId n).
Proof.
  intros Hn Hno; unfold resolve_user; cbv zeta.
  assert (Hc : Py.contains "civitai.com/user/" (Py.str n) = false).
  { destruct (Py.contains "civitai.com/user/" (Py.str n)) eqn:E; auto.
    apply contains_first_char in E.
    rewrite (all_chars_no_char id_char "c" _ eq_refl (str_chars n)) in E.
    discriminate. }
  rewrite Hc, Hno, str_isdigit_str, int_of_digits_str by lia.
  cbn [andb no_user_id].
  destruct (Z.eqb_spec n 0) as [|_]; [lia|].
  assert (Hs : Py.startswith ("User_" ++ Py.str n) "User_" = true)
    by exact (prefix_app "User_" (Py.str n)).
  rewrite Hs, andb_false_r; reflexivity.
Qed.

Lemma unresolved_number_is_a_user_id_witness :
  resolve_user (fun s => s) (fun _ => None) "81189" =
  Some ("User_81189", ByUserId 81189).
Proof.
  refine (unresolved_number_is_a_user_id (fun s => s) (fun _ => None)
            81189 _ _); [lia|reflexivity].
Defined.

(** ** The search through the page data *)

Section JsonInduction.

Variable P : json -> Prop.
Hypothesis Hnull : P JNull.
Hypothesis Hbool : forall b, P (JBool b).
Hypothesis Hnum : forall n, P (JNum n).
Hypothesis Hstr : forall s, P (JStr s).
Hypothesis Harr : forall l, (forall v, In v l -> P v) -> P (JArr l).
Hypothesis Hobj : forall m, (forall k v, In (k, v) m -> P v) -> P (JObj m).

Fixpoint json_induction (j : json) : P j :=
  match j with
  | JNull => Hnull
  | JBool b => Hbool b
  | JNum n => Hnum n
  | JStr s => Hstr s
  | JArr l =>
      Harr l
        ((fix go (l : list json) : forall v, In v l -> P v :=
            match l with
            | [] => fun v H => match H with end
            | x :: r =>
                fun v H =>
                  match H with
                  | or_introl e => eq_ind x P (json_induction x) v e
                  | or_intror H' => go r v H'
                  end
            end) l)
  | JObj m =>
      Hobj m
        ((fix go (m : list (string * json))
            : forall k v, In (k, v) m -> P v :=
            match m with
            | [] => fun k v H => match H with end
            | (k0, x) :: r =>
                fun k v H =>
                  match H with
                  | or_introl e =>
                      eq_ind x P (json_induction x) v (f_equal snd e)
                  | or_intror H' => go r k v H'
                  end
            end) m)
  end.

End JsonInduction.

(** What a result of the search is: the [id] of an object that names the
    user and lies in [obj]. *)
Definition found_in (target : string) (obj res : json) : Prop :=
  exists m u,
    inside (JObj m) obj /\ member "username" m = Some (JStr u) /\
    lower u = lower target /\ member "id" m = Some res.

Lemma search_elements (target : string) (whole : list json) :
  forall l,
    (forall v, In v l -> In v whole) ->
    (forall v, In v l ->
       json_truthy (find_id_recursive target v) = true ->
       found_in target v (find_id_recursive target v)) ->
    let res :=
      (fix go (l : list json) : json :=
         match l with
         | [] => JNull
         | value :: r =>
             let res := find_id_recursive target value in
             if json_truthy res then res else go r
         end) l in
    json_truthy res = true -> found_in target (JArr whole) res.
Proof.
  induction l as [|v l IH]; intros Hincl Hall; cbv zeta.
  - discriminate.
  - destruct (json_truthy (find_id_recursive target v)) eqn:E.
    + intros _. destruct (Hall v (or_introl eq_refl) E)
        as (m & u & Hin & Hu & Hl & Hid).
      exists m, u; repeat split; auto.
      eapply inside_element; [apply Hincl; left; reflexivity|exact Hin].
    + apply IH.
      * intros x Hx; apply Hincl; right; auto.
      * intros x Hx; apply Hall; right; auto.
Qed.

Lemma search_members (target : string) (whole : list (string * json)) :
  forall l,
    (forall kv, In kv l -> In kv whole) ->
    (forall k v, In (k, v) l ->
       json_truthy (find_id_recursive target v) = true ->
       found_in target v (find_id_recursive target v)) ->
    let res :=
      (fix go (l : list (string * json)) : json :=
         match l with
         | [] => JNull
         | (_, value) :: r =>
             let res := find_id_recursive target value in
             if json_truthy res then res else go r
         end) l in
    json_truthy res = true -> found_in target (JObj whole) res.
Proof.
  induction l as [|[k v] l IH]; intros Hincl Hall; cbv zeta.
  - discriminate.
  - destruct (json_truthy (find_id_recursive target v)) eqn:E.
    + intros _. destruct (Hall k v (or_introl eq_refl) E)
        as (m & u & Hin & Hu & Hl & Hid).
      exists m, u; repeat split; auto.
      eapply inside_member; [apply Hincl; left; reflexivity|exact Hin].
    + apply IH.
      * intros x Hx; apply Hincl; right; auto.
      * intros k' x Hx; apply (Hall k' x); right; auto.
Qed.

(** X20. Whatever the shape of the page data, a result that
    [find_id_recursive] reports as found (a true value) is the [id] of
    an object lying somewhere in the data whose [username] is a text
    equal to the wanted name up to letter case. *)
Theorem find_id_recursive_is_sound (target : string) (obj : json) :
  json_truthy (find_id_recursive target obj) = true ->
  exists m u,
    inside (JObj m) obj /\ member "username" m = Some (JStr u) /\
    lower u = lower target /\
    member "id" m = Some (find_id_recursive target obj).
Proof.
  change (json_truthy (find_id_recursive target obj) = true ->
          found_in target obj (find_id_recursive target obj)).
  induction obj as [| | | |l IH|m IH] using json_induction;
    try discriminate.
  - apply (search_elements target l l); auto.
  - cbn [find_id_recursive]; cbv zeta.
    destruct (names_user target m) eqn:En.
    + destruct (member "id" m) as [v|] eqn:Ei.
      * intros _. unfold names_user in En.
        destruct (member "username" m) as [[| | |u| |]|] eqn:Eu;
          try discriminate.
        exists m, u; repeat split; auto using inside_here.
        apply String.eqb_eq; auto.
      * apply (search_members target m m); auto.
    + apply (search_members target m m); auto.
Qed.

Lemma find_id_recursive_is_sound_witness :
  exists m u,
    inside (JObj m) page_data /\ member "username" m = Some (JStr u) /\
    lower u = lower "grutzY" /\ member "id" m = Some (JNum 77).
Proof.
  refine (find_id_recursive_is_sound "grutzY" page_data _).
  vm_compute; reflexivity.
Defined.

Lemma names_user_lower (a b : string) (m : list (string * json)) :
  lower a = lower b -> names_user a m = names_user b m.
Proof.
  intros H. unfold names_user. rewrite H. reflexivity.
Qed.

(** X21. The search does not look at the letter case of the wanted
    name: two names that are equal once lowered give the same result on
    every page data. *)
Theorem find_id_recursive_ignores_case (a b : string) (obj : json) :
  lower a = lower b ->
  find_id_recursive a obj = find_id_recursive b obj.
Proof.
  intros Hab.
  induction obj as [| | | |l IH|m IH] using json_induction;
    try reflexivity.
  - cbn [find_id_recursive].
    induction l as [|v l IHl]; [reflexivity|].
    rewrite (IH v (or_introl eq_refl)).
    rewrite IHl; [reflexivity|].
    intros x Hx; apply IH; right; exact Hx.
  - cbn [find_id_recursive]; cbv zeta.
    rewrite (names_user_lower a b m Hab).
    assert (Hgo :
      (fix go (l : list (string * json)) : json :=
         match l with
         | [] => JNull
         | (_, value) :: r =>
             let res := find_id_recursive a value in
             if json_truthy res then res else go r
         end) m =
      (fix go (l : list (string * json)) : json :=
         match l with
         | [] => JNull
         | (_, value) :: r =>
             let res := find_id_recursive b value in
             if json_truthy res then res else go r
         end) m).
    { clear -IH. induction m as [|[k v] m IHm]; [reflexivity|].
      cbv zeta in IHm |- *. rewrite (IH k v (or_introl eq_refl)).
      rewrite IHm; [reflexivity|].
      intros k' x Hx; apply (IH k' x); right; exact Hx. }
    destruct (names_user b m); [destruct (member "id" m)|];
      [reflexivity|exact Hgo|exact Hgo].
Qed.

Lemma find_id_recursive_ignores_case_witness :
  find_id_recursive "GRUTZY" page_data = find_id_recursive "grutzy" page_data.
Proof.
  apply (find_id_recursive_ignores_case "GRUTZY" "grutzy" page_data).
  vm_compute; reflexivity.
Defined.
